(** * DICOM-Viewer: a shallow embedding of [Viewer/DiCOM_Viewer.py]

    The development follows the two classes of the program:
    [DICOMDataLoader] (series resolution, calibration, volume assembly,
    reslicing, aspect ratio) and [DICOMViewerApp] (windowing transform and
    the interaction handlers).

    Conventions of the embedding.
    - Python [int] is [Z]; tag values that are unsigned counts ([Rows],
      [Columns]) are [nat].
    - A floating-point value is the rational [Q] it denotes.  The element
      types of the NumPy arrays are modelled by rounding to nearest, ties
      to even: [float64] where the calibration produces a double array,
      [float32] where a value is stored in the volume and in every
      operation of the windowing transform on a slice of it.  The
      double-precision arithmetic of the window bounds, of the contrast
      gesture and of the window chosen after a load is rounded by
      [float64]; the quotients of [get_aspect_ratio], of the resize step
      and of the index steps (which are truncated at once) are kept
      exact.  The exponent range is bounded
      below (gradual underflow) and not above: infinities and NaN, and
      with them a division by a zero array element, lie outside the
      embedding.  Array arithmetic follows NumPy 2: an [int16] array times
      a Python [float] is a [float64] array, and a [float32] array
      combined with a Python [float] stays [float32].
    - A NumPy 2-D array is a list of rows; a 3-D array carries its shape
      next to its data, because NumPy bounds-checks an index against the
      shape even when another axis is empty.
    - A Python exception is a value of [exn]; a call that may raise
      returns [result].  A method that mutates [self] before raising
      returns the mutated object together with the exception.
    - Widgets.  A [ttk.Scale] stores the value it is set to, clipped to
      its range, and then calls its command before [set] returns; an
      exception raised inside a command is reported by the toolkit and
      does not reach the caller of [set].  The two contrast scales
      therefore carry their value in the modelled state, and every
      [set] on them runs [update_parameters_from_scale].  The slice scale
      is set to the current index only after its range was configured to
      the active axis, so its command [update_slice] reads the index back
      and returns; the one [set] that is not of this kind, the reset to 0
      after a failed load, is modelled as the call of [update_slice] it
      makes.  The size that the image frame reports is part of the state
      as well.  Labels and the image widget are write-only and are left
      out.  What a handler reads from an event, and what the slice scale
      returns when the user moves it, is an argument of the handler. *)

From Stdlib Require Import ZArith QArith Qround Qminmax Qabs Qpower Lqa.
From Stdlib Require Import String Bool List Lia Permutation Sorted.
Import ListNotations.

Local Open Scope string_scope.
Local Open Scope Z_scope.

(** ** Python values and exceptions *)

Inductive exn : Type :=
| ValueError
| IndexError
| KeyError
| TypeError
| ZeroDivisionError.

Inductive result (A : Type) : Type :=
| Ok (a : A)
| Raise (e : exn).

Arguments Ok {A} a.
Arguments Raise {A} e.

Definition bind {A B : Type} (r : result A) (k : A -> result B) : result B :=
  match r with
  | Ok a => k a
  | Raise e => Raise e
  end.

Notation "x <- r ;; k" := (bind r (fun x => k))
  (at level 61, r at next level, right associativity).

(** [d.get(key, default)] on an optional entry. *)
Definition get_or {A : Type} (o : option A) (default : A) : A :=
  match o with
  | Some a => a
  | None => default
  end.

(** ** Numbers *)

Definition Qltb (x y : Q) : bool := negb (Qle_bool y x).

(** Python's two-argument [max(a, b)]: [b] is returned only when [b > a]. *)
Definition py_max (a b : Q) : Q := if Qltb a b then b else a.

(** Python's [int(x)] on a float: truncation toward zero. *)
Definition py_int (x : Q) : Z := Z.quot (Qnum x) (Zpos (Qden x)).

(** True division [a / b] of Python numbers. *)
Definition py_div (a b : Q) : result Q :=
  if Qeq_bool b 0 then Raise ZeroDivisionError else Ok (a / b)%Q.

(** *** Binary floating point

    [round_float prec emin] rounds a rational to the nearest number of
    the form [m * 2^e] with [|m| <= 2^prec] and [e >= emin], ties to the
    even [m]: the IEEE 754 rounding of a format with [prec] significant
    bits whose least subnormal is [2^emin].  The result is in lowest
    terms, so equal values are equal terms. *)

Definition pow2 (e : Z) : Q := (2 ^ e)%Q.

(** Round to the nearest integer, ties to even. *)
Definition round_half_even (x : Q) : Z :=
  let f := Qfloor x in
  match Qcompare (x - inject_Z f) (1 # 2) with
  | Lt => f
  | Gt => f + 1
  | Eq => if Z.even f then f else f + 1
  end.

(** The binary exponent of a positive rational: [2^e <= x < 2^(e+1)]. *)
Definition ilog2 (x : Q) : Z :=
  let g := Z.log2 (Qnum x) - Z.log2 (Zpos (Qden x)) in
  if Qle_bool (pow2 g) x then g else g - 1.

Definition round_pos (prec emin : Z) (x : Q) : Q :=
  let e := Z.max (ilog2 x - prec + 1) emin in
  (inject_Z (round_half_even (x / pow2 e)) * pow2 e)%Q.

Definition round_float (prec emin : Z) (x : Q) : Q :=
  match Qcompare x 0 with
  | Eq => 0%Q
  | Gt => Qred (round_pos prec emin x)
  | Lt => Qred (- round_pos prec emin (- x))
  end.

(** [np.float32] and [np.float64] (also Python's [float]). *)
Definition float32 : Q -> Q := round_float 24 (-149).
Definition float64 : Q -> Q := round_float 53 (-1074).

(** [ndarray.astype(np.int16)] on integer samples: two's-complement wrap. *)
Definition astype_int16 (x : Z) : Z := (x + 32768) mod 65536 - 32768.

(** [ndarray.astype(np.uint8)] on float samples: truncate, then keep the
    low eight bits. *)
Definition astype_uint8 (x : Q) : Z := py_int x mod 256.

(** [np.min] and [np.max] of a flat array; both raise on an empty one. *)
Definition np_min (l : list Q) : result Q :=
  match l with
  | [] => Raise ValueError
  | x :: l' => Ok (fold_left (fun m y => if Qltb y m then y else m) l' x)
  end.

Definition np_max (l : list Q) : result Q :=
  match l with
  | [] => Raise ValueError
  | x :: l' => Ok (fold_left (fun m y => if Qltb m y then y else m) l' x)
  end.

(** ** Arrays *)

Definition matrix (A : Type) : Type := list (list A).

Definition shape {A : Type} (m : matrix A) : nat * nat :=
  (length m, match m with [] => 0%nat | r :: _ => length r end).

(** Every row of a 2-D array has the same length. *)
Definition is_array {A : Type} (m : matrix A) : bool :=
  forallb (fun r => Nat.eqb (length r) (snd (shape m))) m.

(** [a.ravel()]. *)
Definition ravel {A : Type} (m : matrix A) : list A := concat m.

(** NumPy broadcasting of a 2-D value into a slot of shape [(R, C)]: an
    axis of the value must have the slot's length or length one. *)
Definition broadcastable (s : nat * nat) (R C : nat) : bool :=
  (Nat.eqb (fst s) R || Nat.eqb (fst s) 1) &&
  (Nat.eqb (snd s) C || Nat.eqb (snd s) 1).

Definition broadcast_row {A : Type} (d : A) (C : nat) (r : list A) : list A :=
  if Nat.eqb (length r) C then r else repeat (nth 0 r d) C.

Definition broadcast_to {A : Type} (d : A) (R C : nat) (m : matrix A) : matrix A :=
  let rows := map (broadcast_row d C) m in
  if Nat.eqb (length m) R then rows else repeat (nth 0 rows []) R.

(** A 3-D [float32] array: shape [(D, R, C)] and [D] slices. *)
Record Volume : Type := {
  vol_shape : nat * nat * nat;
  vol_data : list (matrix Q)
}.

Definition vol_D (v : Volume) : nat := fst (fst (vol_shape v)).
Definition vol_R (v : Volume) : nat := snd (fst (vol_shape v)).
Definition vol_C (v : Volume) : nat := snd (vol_shape v).

(** [np.zeros((D, R, C), dtype=np.float32)]. *)
Definition np_zeros (D R C : nat) : Volume :=
  {| vol_shape := (D, R, C);
     vol_data := repeat (repeat (repeat 0%Q C) R) D |}.

(** Replace the element at position [i] of a list (no change out of range). *)
Fixpoint list_set {A : Type} (i : nat) (x : A) (l : list A) : list A :=
  match l, i with
  | [], _ => []
  | _ :: l', O => x :: l'
  | y :: l', S i' => y :: list_set i' x l'
  end.

(** [volume[i] = hu] on a [float32] volume: the value is broadcast into
    the slot, every sample being cast to [float32], or the assignment
    raises [ValueError]. *)
Definition vol_assign (v : Volume) (i : nat) (hu : matrix Q) : result Volume :=
  if broadcastable (shape hu) (vol_R v) (vol_C v) then
    Ok {| vol_shape := vol_shape v;
          vol_data :=
            list_set i (map (map float32) (broadcast_to 0%Q (vol_R v) (vol_C v) hu))
                     (vol_data v) |}
  else Raise ValueError.

(** NumPy integer indexing along an axis of length [n]: negative indices
    count from the end, anything else out of range raises [IndexError]. *)
Definition np_index (n : nat) (index : Z) : result nat :=
  if (0 <=? index) && (index <? Z.of_nat n) then Ok (Z.to_nat index)
  else if (- Z.of_nat n <=? index) && (index <? 0) then Ok (Z.to_nat (index + Z.of_nat n))
  else Raise IndexError.

(** ** Datasets *)

(** What [pydicom.dcmread] yields for a readable file.  An absent tag is
    [None]; a tag that is present holds numbers (a decimal-string tag
    with an empty component is outside the embedding), and these are the
    doubles [pydicom] made of them.  [PixelSpacing] is stored as the
    DICOM pair (row spacing, column spacing); [pixel_array] holds the
    stored integer samples as decoded (a file whose samples cannot be
    decoded is outside the embedding). *)
Record Dataset : Type := {
  PixelData : bool;
  SeriesInstanceUID : option string;
  ImagePositionPatient : option (Q * Q * Q);
  Rows : option nat;
  Columns : option nat;
  SliceThickness : option Q;
  PixelSpacing : option (Q * Q);
  RescaleIntercept : option Q;
  RescaleSlope : option Q;
  pixel_array : matrix Z
}.

(** A path returned by [glob]: [None] when [dcmread] raises on it. *)
Definition dcm_file : Type := option Dataset.

(** The tags agree with the sample matrix, as for any decoded image. *)
Definition well_formed (ds : Dataset) : bool :=
  is_array (pixel_array ds) &&
  match Rows ds, Columns ds with
  | Some r, Some c =>
      Nat.eqb (fst (shape (pixel_array ds))) r &&
      Nat.eqb (snd (shape (pixel_array ds))) c
  | _, _ => false
  end.

(** ** class DICOMDataLoader *)

Module DICOMDataLoader.

(** The [header_info] dictionary; a key that was never stored is [None],
    and [{}] is [empty_header]. *)
Record HeaderInfo : Type := {
  hdr_Rows : option nat;
  hdr_Columns : option nat;
  hdr_SliceThickness : option Q;
  hdr_PixelSpacing : option (Q * Q);
  hdr_NumSlices : option nat;
  hdr_RescaleIntercept : option Q;
  hdr_RescaleSlope : option Q;
  hdr_MinHU : option Q;
  hdr_MaxHU : option Q
}.

Definition empty_header : HeaderInfo :=
  {| hdr_Rows := None; hdr_Columns := None; hdr_SliceThickness := None;
     hdr_PixelSpacing := None; hdr_NumSlices := None;
     hdr_RescaleIntercept := None; hdr_RescaleSlope := None;
     hdr_MinHU := None; hdr_MaxHU := None |}.

(** The attributes of a loader object. *)
Record t : Type := {
  series_data : list Dataset;
  header_info : HeaderInfo;
  is_loaded : bool;
  full_hu_volume : option Volume
}.

(** [__init__]. *)
Definition init : t :=
  {| series_data := []; header_info := empty_header;
     is_loaded := false; full_hu_volume := None |}.

(** *** _sort_dicom_series *)

Definition series_key : Type := option string.

Definition uid_eqb (a b : series_key) : bool :=
  match a, b with
  | Some x, Some y => String.eqb x y
  | None, None => true
  | _, _ => false
  end.

(** [series_map]: a dictionary in insertion order, from a series key to the
    list of [(z_pos, ds)] pairs appended so far. *)
Definition series_map : Type := list (series_key * list (Q * Dataset)).

Fixpoint series_map_get (m : series_map) (key : series_key) : option (list (Q * Dataset)) :=
  match m with
  | [] => None
  | (k, l) :: m' => if uid_eqb key k then Some l else series_map_get m' key
  end.

(** [if key not in series_map: series_map[key] = []] followed by
    [series_map[key].append(item)]. *)
Fixpoint series_map_append (key : series_key) (item : Q * Dataset) (m : series_map) : series_map :=
  match m with
  | [] => [(key, [item])]
  | (k, l) :: m' =>
      if uid_eqb key k then (k, (l ++ [item])%list) :: m'
      else (k, l) :: series_map_append key item m'
  end.

(** [ds.get('ImagePositionPatient', [0, 0, 0])[2]], a number. *)
Definition z_pos (ds : Dataset) : Q :=
  snd (get_or (ImagePositionPatient ds) (0, 0, 0)%Q).

(** One iteration of the loop over [dcm_files]. *)
Definition scan_file (m : series_map) (f : dcm_file) : series_map :=
  match f with
  | None => m
  | Some ds =>
      if negb (PixelData ds) then m
      else series_map_append (SeriesInstanceUID ds) (z_pos ds, ds) m
  end.

(** [max(iterable, key=f)]: the first element whose key is maximal. *)
Definition py_max_key {A : Type} (f : A -> nat) (l : list A) : result A :=
  match l with
  | [] => Raise ValueError
  | x :: l' => Ok (fold_left (fun best y => if (f best <? f y)%nat then y else best) l' x)
  end.

(** [list.sort(key=lambda x: x[0])]: a stable sort, here by insertion. *)
Fixpoint insort (x : Q * Dataset) (l : list (Q * Dataset)) : list (Q * Dataset) :=
  match l with
  | [] => [x]
  | y :: l' => if Qle_bool (fst x) (fst y) then x :: l else y :: insort x l'
  end.

Definition sort_by_z (l : list (Q * Dataset)) : list (Q * Dataset) :=
  fold_right insort [] l.

Definition build_series_map (dcm_files : list dcm_file) : series_map :=
  fold_left scan_file dcm_files [].

Definition _sort_dicom_series (dcm_files : list dcm_file) : result (list Dataset) :=
  let series_map := build_series_map dcm_files in
  match series_map with
  | [] => Ok []
  | _ =>
      main_series_uid <-
        py_max_key (fun k => length (get_or (series_map_get series_map k) []))
                   (map fst series_map) ;;
      main_series <-
        match series_map_get series_map main_series_uid with
        | Some l => Ok l
        | None => Raise KeyError
        end ;;
      Ok (map snd (sort_by_z main_series))
  end.

(** *** _process_data *)

(** [pixel_array.astype(np.int16) * R_slope + R_int]: a [float64] array,
    each of the two operations rounding its result. *)
Definition hu_array (R_slope R_int : Q) (ds : Dataset) : matrix Q :=
  map (map (fun p => float64 (float64 (inject_Z (astype_int16 p) * R_slope) + R_int)))
      (pixel_array ds).

(** The loop [for i, ds in enumerate(sorted_datasets)] from index [i] on.
    It stops at the first assignment that raises, keeping what was
    written to the volume before. *)
Fixpoint fill_volume (R_slope R_int : Q) (i : nat) (dss : list Dataset)
    (vol : Volume) (all_hu_values : list (list Q))
  : Volume * list (list Q) * option exn :=
  match dss with
  | [] => (vol, all_hu_values, None)
  | ds :: rest =>
      let hu := hu_array R_slope R_int ds in
      match vol_assign vol i hu with
      | Raise e => (vol, all_hu_values, Some e)
      | Ok vol' => fill_volume R_slope R_int (S i) rest vol' (all_hu_values ++ [ravel hu])%list
      end
  end.

Definition _process_data (self : t) (sorted_datasets : list Dataset) : t * option exn :=
  match sorted_datasets with
  | [] => (self, None)
  | ds0 :: _ =>
      let R_int := get_or (RescaleIntercept ds0) 0%Q in
      let R_slope := get_or (RescaleSlope ds0) 1%Q in
      let rows := get_or (Rows ds0) 0%nat in
      let cols := get_or (Columns ds0) 0%nat in
      let header :=
        {| hdr_Rows := Some rows;
           hdr_Columns := Some cols;
           hdr_SliceThickness := Some (get_or (SliceThickness ds0) 1%Q);
           hdr_PixelSpacing := Some (get_or (PixelSpacing ds0) (1, 1)%Q);
           hdr_NumSlices := Some 0%nat;
           hdr_RescaleIntercept := Some R_int;
           hdr_RescaleSlope := Some R_slope;
           hdr_MinHU := None;
           hdr_MaxHU := None |} in
      let num_slices := length sorted_datasets in
      let '(vol, all_hu_values, raised) :=
        fill_volume R_slope R_int 0 sorted_datasets (np_zeros num_slices rows cols) [] in
      match raised with
      | Some e =>
          ({| series_data := series_data self; header_info := header;
              is_loaded := is_loaded self; full_hu_volume := Some vol |}, Some e)
      | None =>
          let header1 :=
            {| hdr_Rows := hdr_Rows header;
               hdr_Columns := hdr_Columns header;
               hdr_SliceThickness := hdr_SliceThickness header;
               hdr_PixelSpacing := hdr_PixelSpacing header;
               hdr_NumSlices := Some num_slices;
               hdr_RescaleIntercept := hdr_RescaleIntercept header;
               hdr_RescaleSlope := hdr_RescaleSlope header;
               hdr_MinHU := None;
               hdr_MaxHU := None |} in
          let with_stats (lo hi : Q) :=
            {| series_data := series_data self;
               header_info :=
                 {| hdr_Rows := hdr_Rows header1;
                    hdr_Columns := hdr_Columns header1;
                    hdr_SliceThickness := hdr_SliceThickness header1;
                    hdr_PixelSpacing := hdr_PixelSpacing header1;
                    hdr_NumSlices := hdr_NumSlices header1;
                    hdr_RescaleIntercept := hdr_RescaleIntercept header1;
                    hdr_RescaleSlope := hdr_RescaleSlope header1;
                    hdr_MinHU := Some lo;
                    hdr_MaxHU := Some hi |};
               is_loaded := true; full_hu_volume := Some vol |} in
          match all_hu_values with
          | [] => (with_stats 0%Q 0%Q, None)
          | _ =>
              let full_hu_array := concat all_hu_values in
              match np_min full_hu_array, np_max full_hu_array with
              | Ok min_hu, Ok max_hu => (with_stats min_hu max_hu, None)
              | Raise e, _ | _, Raise e =>
                  ({| series_data := series_data self; header_info := header1;
                      is_loaded := true; full_hu_volume := Some vol |}, Some e)
              end
          end
      end
  end.

(** *** load_series *)

(** The status texts returned by [load_series], by kind. *)
Inductive message : Type :=
| MsgNoDicomFiles
| MsgSortError (e : exn)
| MsgNoValidSeries
| MsgConvertError (e : exn)
| MsgLoaded (num_slices rows cols : option nat)
| MsgProcessingProblem.

(** [glob] is the caller's file system: [dcm_files] is what it lists. *)
Definition load_series (self : t) (dcm_files : list dcm_file) : t * (message * bool) :=
  let self :=
    {| series_data := []; header_info := empty_header;
       is_loaded := false; full_hu_volume := None |} in
  match dcm_files with
  | [] => (self, (MsgNoDicomFiles, false))
  | _ =>
      match _sort_dicom_series dcm_files with
      | Raise e => (self, (MsgSortError e, false))
      | Ok [] => (self, (MsgNoValidSeries, false))
      | Ok sorted_files =>
          match _process_data self sorted_files with
          | (self, Some e) => (self, (MsgConvertError e, false))
          | (self, None) =>
              if is_loaded self then
                (self, (MsgLoaded (hdr_NumSlices (header_info self))
                                  (hdr_Rows (header_info self))
                                  (hdr_Columns (header_info self)), true))
              else (self, (MsgProcessingProblem, false))
          end
      end
  end.

(** *** get_slice_data and get_aspect_ratio *)

Definition subscript {A : Type} (o : option A) (e : exn) : result A :=
  match o with
  | Some a => Ok a
  | None => Raise e
  end.

Definition get_slice_data (self : t) (view_plane : string) (index : Z)
  : result (option (matrix Q)) :=
  if negb (is_loaded self) then Ok None
  else
    let volume := full_hu_volume self in
    if String.eqb view_plane "Axial" then
      v <- subscript volume TypeError ;;
      i <- np_index (vol_D v) index ;;
      Ok (Some (nth i (vol_data v) []))
    else if String.eqb view_plane "Coronal" then
      v <- subscript volume TypeError ;;
      i <- np_index (vol_R v) index ;;
      Ok (Some (map (fun sl => nth i sl []) (vol_data v)))
    else if String.eqb view_plane "Sagittal" then
      v <- subscript volume TypeError ;;
      i <- np_index (vol_C v) index ;;
      Ok (Some (map (map (fun row => nth i row 0%Q)) (vol_data v)))
    else Ok None.

Definition get_aspect_ratio (self : t) (view_plane : string) : result Q :=
  if negb (is_loaded self) then Ok 1%Q
  else
    spacing <- subscript (hdr_PixelSpacing (header_info self)) KeyError ;;
    let sy := fst spacing in
    let sx := snd spacing in
    sz <- subscript (hdr_SliceThickness (header_info self)) KeyError ;;
    if String.eqb view_plane "Axial" then py_div sx sy
    else if String.eqb view_plane "Coronal" then py_div sx sz
    else if String.eqb view_plane "Sagittal" then py_div sy sz
    else Ok 1%Q.

End DICOMDataLoader.

(** ** class DICOMViewerApp *)

Module DICOMViewerApp.

(** The attributes of the application object that the handlers read and
    write, followed by the widget state they read back: the values held
    by the two contrast scales, and the width and height that the image
    frame reports. *)
Record t : Type := {
  data_loader : DICOMDataLoader.t;
  current_slice : Z;
  window_level : Q;
  window_width : Q;
  current_view : string;
  mouse_x : Z;
  mouse_y : Z;
  start_wl : Q;
  start_ww : Q;
  start_slice : Z;
  wl_scale : Q;
  ww_scale : Q;
  image_frame : Z * Z
}.

(** [__init__].  Each contrast scale is set to its attribute right after
    it is created (lines 237 and 244), so it holds that value; a frame
    that has not been laid out yet reports the size 1 by 1. *)
Definition init : t :=
  {| data_loader := DICOMDataLoader.init;
     current_slice := 0;
     window_level := 40%Q;
     window_width := 400%Q;
     current_view := "Axial";
     mouse_x := 0; mouse_y := 0;
     start_wl := 40%Q; start_ww := 400%Q;
     start_slice := 0;
     wl_scale := 40%Q; ww_scale := 400%Q;
     image_frame := (1, 1) |}.

Definition is_loaded (self : t) : bool :=
  DICOMDataLoader.is_loaded (data_loader self).

Definition with_data_loader (self : t) (loader : DICOMDataLoader.t) : t :=
  {| data_loader := loader;
     current_slice := current_slice self;
     window_level := window_level self;
     window_width := window_width self;
     current_view := current_view self;
     mouse_x := mouse_x self;
     mouse_y := mouse_y self;
     start_wl := start_wl self;
     start_ww := start_ww self;
     start_slice := start_slice self;
     wl_scale := wl_scale self;
     ww_scale := ww_scale self;
     image_frame := image_frame self |}.

Definition with_current_slice (self : t) (i : Z) : t :=
  {| data_loader := data_loader self;
     current_slice := i;
     window_level := window_level self;
     window_width := window_width self;
     current_view := current_view self;
     mouse_x := mouse_x self;
     mouse_y := mouse_y self;
     start_wl := start_wl self;
     start_ww := start_ww self;
     start_slice := start_slice self;
     wl_scale := wl_scale self;
     ww_scale := ww_scale self;
     image_frame := image_frame self |}.

Definition with_current_view (self : t) (v : string) : t :=
  {| data_loader := data_loader self;
     current_slice := current_slice self;
     window_level := window_level self;
     window_width := window_width self;
     current_view := v;
     mouse_x := mouse_x self;
     mouse_y := mouse_y self;
     start_wl := start_wl self;
     start_ww := start_ww self;
     start_slice := start_slice self;
     wl_scale := wl_scale self;
     ww_scale := ww_scale self;
     image_frame := image_frame self |}.

(** The two assignments [self.window_level = level] and
    [self.window_width = width]. *)
Definition with_window (self : t) (level width : Q) : t :=
  {| data_loader := data_loader self;
     current_slice := current_slice self;
     window_level := level;
     window_width := width;
     current_view := current_view self;
     mouse_x := mouse_x self;
     mouse_y := mouse_y self;
     start_wl := start_wl self;
     start_ww := start_ww self;
     start_slice := start_slice self;
     wl_scale := wl_scale self;
     ww_scale := ww_scale self;
     image_frame := image_frame self |}.

(** The widget state after the scales took the values [wl] and [ww]. *)
Definition with_scales (self : t) (wl ww : Q) : t :=
  {| data_loader := data_loader self;
     current_slice := current_slice self;
     window_level := window_level self;
     window_width := window_width self;
     current_view := current_view self;
     mouse_x := mouse_x self;
     mouse_y := mouse_y self;
     start_wl := start_wl self;
     start_ww := start_ww self;
     start_slice := start_slice self;
     wl_scale := wl;
     ww_scale := ww;
     image_frame := image_frame self |}.

(** The window system gave the image frame a new size. *)
Definition with_image_frame (self : t) (size : Z * Z) : t :=
  {| data_loader := data_loader self;
     current_slice := current_slice self;
     window_level := window_level self;
     window_width := window_width self;
     current_view := current_view self;
     mouse_x := mouse_x self;
     mouse_y := mouse_y self;
     start_wl := start_wl self;
     start_ww := start_ww self;
     start_slice := start_slice self;
     wl_scale := wl_scale self;
     ww_scale := ww_scale self;
     image_frame := size |}.

(** *** update_image *)

(** One sample of the windowing transform of [update_image] on a
    [float32] slice: the two masked assignments, the rescaling and the
    cast to [uint8].  [min_val] and [max_val] are Python floats; each is
    cast to [float32] where it meets the array, and so are [W] and every
    intermediate array. *)
Definition window_value (L W : Q) (x : Q) : Z :=
  let min_val := float64 (L - float64 (W / 2)) in
  let max_val := float64 (L + float64 (W / 2)) in
  let x1 := if Qltb x (float32 min_val) then float32 min_val else x in
  let x2 := if Qltb (float32 max_val) x1 then float32 max_val else x1 in
  astype_uint8
    (float32 (float32 (float32 (x2 - float32 min_val) / float32 W) * 255)).

Definition apply_window (L W : Q) (hu_data : matrix Q) : matrix Z :=
  map (map (window_value L W)) hu_data.

(** The resize step of [update_image]: the size handed to [img.resize], or
    [None] when the image is shown at its own size.  [winfo_width] and
    [winfo_height] are what the image frame reports; the image's own size
    plays no part in the computation. *)
Definition display_size (aspect_ratio : Q) (winfo_width winfo_height : Z)
  : result (option (Z * Z)) :=
  let frame_width := winfo_width - 20 in
  let frame_height := winfo_height - 20 in
  if (0 <? frame_width) && (0 <? frame_height) then
    ratio <- py_div (inject_Z frame_width) (inject_Z frame_height) ;;
    target <-
      (if Qltb aspect_ratio ratio then
         let target_height := frame_height in
         Ok (py_int (inject_Z target_height * aspect_ratio)%Q, target_height)
       else
         let target_width := frame_width in
         h <- py_div (inject_Z target_width) aspect_ratio ;;
         Ok (target_width, py_int h)) ;;
    if (0 <? fst target) && (0 <? snd target) then Ok (Some target) else Ok None
  else Ok None.

(** [update_image] up to what is handed to the imaging library: the
    8-bit array and the size it is resized to, or [None] when there is
    no slice to show.  The aspect ratio is asked for after the
    windowing, and what [get_aspect_ratio] raises leaves the method. *)
Definition update_image (self : t) : result (option (matrix Z * option (Z * Z))) :=
  hu_data <- DICOMDataLoader.get_slice_data (data_loader self)
               (current_view self) (current_slice self) ;;
  match hu_data with
  | None => Ok None
  | Some hu =>
      let image_data := apply_window (window_level self) (window_width self) hu in
      aspect_ratio <- DICOMDataLoader.get_aspect_ratio (data_loader self) (current_view self) ;;
      size <- display_size aspect_ratio (fst (image_frame self)) (snd (image_frame self)) ;;
      Ok (Some (image_data, size))
  end.

(** *** The contrast scales *)

(** What a [ttk.Scale] with the range [from_ .. to] stores on
    [set(value)]. *)
Definition scale_clip (from_ to value : Q) : Q :=
  if Qltb value from_ then from_ else if Qltb to value then to else value.

(** [update_parameters_from_scale], the command of both contrast scales:
    the two attributes are read back from the scales.  The
    [update_image] at its end changes no attribute, and what it raises
    ends the command only. *)
Definition update_parameters_from_scale (self : t) : t :=
  with_window self (wl_scale self) (ww_scale self).

(** [wl_scale.set(value)] and [ww_scale.set(value)]: the scale (created
    with the range -3000 .. 3000, respectively 10 .. 6000) stores the
    clipped value and runs its command.  The user moving a contrast
    slider does the same. *)
Definition wl_scale_set (self : t) (value : Q) : t :=
  update_parameters_from_scale
    (with_scales self (scale_clip (-3000) 3000 value) (ww_scale self)).

Definition ww_scale_set (self : t) (value : Q) : t :=
  update_parameters_from_scale
    (with_scales self (wl_scale self) (scale_clip 10 6000 value)).

(** [_update_wl_ww_gui]: the second [set] receives the width attribute
    as the command run by the first [set] left it. *)
Definition _update_wl_ww_gui (self : t) : t :=
  let self := wl_scale_set self (window_level self) in
  ww_scale_set self (window_width self).

(** *** Contrast gesture *)

Definition on_mouse_down (self : t) (event_x event_y : Z) : t :=
  if is_loaded self then
    {| data_loader := data_loader self;
       current_slice := current_slice self;
       window_level := window_level self;
       window_width := window_width self;
       current_view := current_view self;
       mouse_x := event_x;
       mouse_y := event_y;
       start_wl := window_level self;
       start_ww := window_width self;
       start_slice := start_slice self;
       wl_scale := wl_scale self;
       ww_scale := ww_scale self;
       image_frame := image_frame self |}
  else self.

Definition WL_SENSITIVITY : Q := 2%Q.
Definition WW_SENSITIVITY : Q := 4%Q.

Definition on_mouse_drag (self : t) (event_x event_y : Z) : t :=
  if is_loaded self then
    let dx := event_x - mouse_x self in
    let dy := event_y - mouse_y self in
    let new_wl := float64 (start_wl self - float64 (inject_Z dy * WL_SENSITIVITY)) in
    let new_ww := float64 (start_ww self + float64 (inject_Z dx * WW_SENSITIVITY)) in
    _update_wl_ww_gui (with_window self new_wl (py_max 10%Q new_ww))
  else self.

(** *** Slice index *)

Definition get_max_slice_index (self : t) (view_plane : string) : Z :=
  let info := DICOMDataLoader.header_info (data_loader self) in
  if String.eqb view_plane "Axial" then
    Z.of_nat (get_or (DICOMDataLoader.hdr_NumSlices info) 1%nat) - 1
  else if String.eqb view_plane "Coronal" then
    Z.of_nat (get_or (DICOMDataLoader.hdr_Rows info) 1%nat) - 1
  else if String.eqb view_plane "Sagittal" then
    Z.of_nat (get_or (DICOMDataLoader.hdr_Columns info) 1%nat) - 1
  else 0.

Definition set_current_slice (self : t) (new_slice : Z) : t :=
  let max_index := get_max_slice_index self (current_view self) in
  let clamped_slice := Z.max 0 (Z.min max_index new_slice) in
  if negb (clamped_slice =? current_slice self) then
    with_current_slice self clamped_slice
  else self.

Definition on_mouse_down_right (self : t) (event_y : Z) : t :=
  if is_loaded self then
    {| data_loader := data_loader self;
       current_slice := current_slice self;
       window_level := window_level self;
       window_width := window_width self;
       current_view := current_view self;
       mouse_x := mouse_x self;
       mouse_y := event_y;
       start_wl := start_wl self;
       start_ww := start_ww self;
       start_slice := current_slice self;
       wl_scale := wl_scale self;
       ww_scale := ww_scale self;
       image_frame := image_frame self |}
  else self.

Definition SLICE_SENSITIVITY : Z := 10.

Definition on_mouse_drag_right (self : t) (event_y : Z) : t :=
  if is_loaded self then
    let dy := event_y - mouse_y self in
    let slice_delta := - py_int (inject_Z dy / inject_Z SLICE_SENSITIVITY)%Q in
    let new_slice := start_slice self + slice_delta in
    set_current_slice self new_slice
  else self.

Definition on_mouse_wheel (self : t) (event_delta : Z) (mac_direction : option Z) : t :=
  if negb (is_loaded self) then self
  else
    match mac_direction with
    | Some d => set_current_slice self (current_slice self + d)
    | None =>
        if negb (event_delta =? 0) then
          let delta := py_int (inject_Z event_delta / 120)%Q in
          set_current_slice self (current_slice self + delta)
        else self
    end.

Definition reset_slice_scale (self : t) : t :=
  let max_index := get_max_slice_index self (current_view self) in
  if current_slice self >? max_index then with_current_slice self 0 else self.

(** [view_var] is what the radio buttons hold when the command fires. *)
Definition change_view (self : t) (view_var : string) : t :=
  if is_loaded self then reset_slice_scale (with_current_view self view_var)
  else self.

(** [slice_scale_value] is what [slice_scale.get()] returns. *)
Definition update_slice (self : t) (slice_scale_value : Q) : t :=
  let new_slice := py_int slice_scale_value in
  if negb (new_slice =? current_slice self) then set_current_slice self new_slice
  else self.

(** *** load_dicom_folder *)

(** [folder] is [None] when the dialog is cancelled, and otherwise what
    [glob] lists in the chosen folder.  An exception that escapes
    [update_image] inside [reset_slice_scale] ends the callback before
    [set_current_slice(0)].  After a failed load the slice scale is set
    to 0, and its command [update_slice] reads that 0 back. *)
Definition load_dicom_folder (self : t) (folder : option (list dcm_file)) (view_var : string)
  : t * option DICOMDataLoader.message :=
  match folder with
  | None => (self, None)
  | Some dcm_files =>
      let '(loader, (message, success)) :=
        DICOMDataLoader.load_series (data_loader self) dcm_files in
      let self := with_data_loader self loader in
      if success then
        let self := with_current_view self view_var in
        let info := DICOMDataLoader.header_info loader in
        let min_hu := get_or (DICOMDataLoader.hdr_MinHU info) (-1000)%Q in
        let max_hu := get_or (DICOMDataLoader.hdr_MaxHU info) 1000%Q in
        let self :=
          with_window self (float64 (float64 (max_hu + min_hu) / 2))
                      (py_max 10%Q (float64 (max_hu - min_hu))) in
        let self := _update_wl_ww_gui self in
        let self := reset_slice_scale self in
        match update_image self with
        | Raise _ => (self, Some message)
        | Ok _ => (set_current_slice self 0, Some message)
        end
      else (update_slice self 0%Q, Some message)
  end.

(** *** Interaction events *)

Inductive event : Type :=
| ContrastPress (x y : Z)
| ContrastDrag (x y : Z)
| ScrubPress (y : Z)
| ScrubDrag (y : Z)
| Wheel (delta : Z) (mac_direction : option Z)
| SliderChange (slice_scale_value : Q)
| AxisChange (view_var : string).

Definition handle (self : t) (ev : event) : t :=
  match ev with
  | ContrastPress x y => on_mouse_down self x y
  | ContrastDrag x y => on_mouse_drag self x y
  | ScrubPress y => on_mouse_down_right self y
  | ScrubDrag y => on_mouse_drag_right self y
  | Wheel delta mac => on_mouse_wheel self delta mac
  | SliderChange v => update_slice self v
  | AxisChange v => change_view self v
  end.

Definition run (self : t) (evs : list event) : t := fold_left handle evs self.

End DICOMViewerApp.

(** ** Sample inputs *)

Module Samples.

Definition image (uid : string) (z : Q) (slope intercept : Q) (px : matrix Z) : Dataset :=
  {| PixelData := true;
     SeriesInstanceUID := Some uid;
     ImagePositionPatient := Some (0, 0, z)%Q;
     Rows := Some (fst (shape px));
     Columns := Some (snd (shape px));
     SliceThickness := Some 2%Q;
     PixelSpacing := Some (0.5, 0.25)%Q;
     RescaleIntercept := Some intercept;
     RescaleSlope := Some slope;
     pixel_array := px |}.



(** A second image with a single row, after a first one with two rows. *)
Definition one_row_second : list dcm_file :=
  [ Some (image "A" 0 1 0 [[1; 2]; [3; 4]]);
    Some (image "A" 1 1 0 [[5; 6]]) ].

(** A second image with three rows, after a first one with two rows. *)
Definition three_rows_second : list dcm_file :=
  [ Some (image "A" 0 1 0 [[1; 2]; [3; 4]]);
    Some (image "A" 1 1 0 [[5; 6]; [7; 8]; [9; 10]]) ].

(** Series "A" (two images, read in descending depth) and "B" (one image),
    with an unreadable file and a file without pixel data in between. *)
Definition mixed_folder : list dcm_file :=
  [ Some (image "B" 5 1 0 [[9]]);
    None;
    Some (image "A" 3 1 (-1024) [[1024; 1025]; [1026; 1027]]);
    Some {| PixelData := false; SeriesInstanceUID := Some "A";
            ImagePositionPatient := None; Rows := None; Columns := None;
            SliceThickness := None; PixelSpacing := None;
            RescaleIntercept := None; RescaleSlope := None;
            pixel_array := [] |};
    Some (image "A" 1 1 (-1024) [[24; 25]; [26; 27]]) ].

(** Ten images of 3 x 4 samples, image [i] at depth [i]. *)
Definition ten_slices : list dcm_file :=
  map (fun i => Some (image "S" (inject_Z (Z.of_nat i)) 1 0
                        (repeat (repeat (Z.of_nat i) 4) 3)))
      (seq 0 10).

(** One image whose samples run from -160 to 240: the middle of the
    range is 40 and its extent 400. *)
Definition range_400 : list dcm_file :=
  [ Some (image "W" 0 1 0 [[-160; 240]]) ].


(** One image of a single sample whose slice thickness is zero. *)
Definition zero_thickness : list dcm_file :=
  [ Some {| PixelData := true; SeriesInstanceUID := Some "F";
            ImagePositionPatient := None; Rows := Some 1%nat; Columns := Some 1%nat;
            SliceThickness := Some 0%Q; PixelSpacing := None;
            RescaleIntercept := None; RescaleSlope := None;
            pixel_array := [[7]] |} ].

Definition loaded_loader : DICOMDataLoader.t :=
  fst (DICOMDataLoader.load_series DICOMDataLoader.init ten_slices).

Definition loaded_app : DICOMViewerApp.t :=
  fst (DICOMViewerApp.load_dicom_folder DICOMViewerApp.init (Some ten_slices) "Axial").

End Samples.

(** ** Vocabulary of the properties *)

Import DICOMDataLoader.

(** The three plane selectors the program recognises. *)
Definition recognized_plane (p : string) : bool :=
  String.eqb p "Axial" || String.eqb p "Coronal" || String.eqb p "Sagittal".

(** Loader objects that the program can hold: a fresh one, or one that
    went through any number of [load_series] calls. *)
Inductive reachable : DICOMDataLoader.t -> Prop :=
| reachable_init : reachable DICOMDataLoader.init
| reachable_load (st : DICOMDataLoader.t) (dcm_files : list dcm_file) :
    reachable st -> reachable (fst (load_series st dcm_files)).

(** The images that reach the series map: readable files with pixel data,
    in the order the reader met them. *)
Fixpoint candidates (dcm_files : list dcm_file) : list Dataset :=
  match dcm_files with
  | [] => []
  | Some ds :: rest => if PixelData ds then ds :: candidates rest else candidates rest
  | None :: rest => candidates rest
  end.

Definition in_series (k : series_key) (ds : Dataset) : bool :=
  uid_eqb (SeriesInstanceUID ds) k.

(** The partition of a candidate list that belongs to series [k]. *)
Definition partition_of (k : series_key) (l : list Dataset) : list Dataset :=
  filter (in_series k) l.

Definition member_count (k : series_key) (l : list Dataset) : nat :=
  length (partition_of k l).

Definition at_depth (z : Q) (ds : Dataset) : bool := Qeq_bool (z_pos ds) z.

(** The [(z_pos, ds)] pairs that the series map holds for a list of images. *)
Definition items (l : list Dataset) : list (Q * Dataset) :=
  map (fun ds => (z_pos ds, ds)) l.

(** The loop body of the resolver on an image that reaches the map. *)
Definition add_candidate (m : series_map) (ds : Dataset) : series_map :=
  series_map_append (SeriesInstanceUID ds) (z_pos ds, ds) m.

(** What the series map holds after the images [seen]: for every key the
    pairs of its partition in reading order, keys exactly for the
    partitions that are not empty, and the keys in first-seen order. *)
Definition map_of (m : series_map) (seen : list Dataset) : Prop :=
  (forall k, get_or (series_map_get m k) [] = items (partition_of k seen))
  /\ (forall k, In k (map fst m) <-> partition_of k seen <> [])
  /\ (forall a k b, map fst m = (a ++ k :: b)%list ->
        exists p d q, seen = (p ++ d :: q)%list /\ SeriesInstanceUID d = k
                      /\ forall d', In d' p -> In (SeriesInstanceUID d') a).

(** Ascending depth position. *)
Definition depth_le (a b : Dataset) : Prop := (z_pos a <= z_pos b)%Q.

(** The data of a 3-D array agree with its shape. *)
Definition well_shaped (v : Volume) : Prop :=
  length (vol_data v) = vol_D v
  /\ Forall (fun sl => length sl = vol_R v
                       /\ Forall (fun r => length r = vol_C v) sl) (vol_data v).

(** The events that do not read the slice slider. *)
Definition is_slider_change (ev : DICOMViewerApp.event) : bool :=
  match ev with
  | DICOMViewerApp.SliderChange _ => true
  | _ => false
  end.

(** Application objects that the program can hold: a fresh one, or one
    that went through events, folder selections, the user moving one of
    the two contrast scales, and the window system resizing the image
    frame. *)
Inductive app_reachable : DICOMViewerApp.t -> Prop :=
| app_reachable_init : app_reachable DICOMViewerApp.init
| app_reachable_event (app : DICOMViewerApp.t) (ev : DICOMViewerApp.event) :
    app_reachable app -> app_reachable (DICOMViewerApp.handle app ev)
| app_reachable_load (app : DICOMViewerApp.t) (folder : option (list dcm_file))
    (view_var : string) :
    app_reachable app ->
    app_reachable (fst (DICOMViewerApp.load_dicom_folder app folder view_var))
| app_reachable_wl_scale (app : DICOMViewerApp.t) (value : Q) :
    app_reachable app -> app_reachable (DICOMViewerApp.wl_scale_set app value)
| app_reachable_ww_scale (app : DICOMViewerApp.t) (value : Q) :
    app_reachable app -> app_reachable (DICOMViewerApp.ww_scale_set app value)
| app_reachable_resize (app : DICOMViewerApp.t) (size : Z * Z) :
    app_reachable app -> app_reachable (DICOMViewerApp.with_image_frame app size).

(** [clamp(x, lo, hi)] as the handlers compute it. *)
Definition clamp (x lo hi : Z) : Z := Z.max lo (Z.min hi x).

(** The current index lies on the active axis. *)
Definition index_in_range (app : DICOMViewerApp.t) : Prop :=
  0 <= DICOMViewerApp.current_slice app
    <= DICOMViewerApp.get_max_slice_index app (DICOMViewerApp.current_view app).

(** The two bounds of the window as the slice meets them: [L - W/2] and
    [L + W/2] computed in double precision and cast to [float32]. *)
Definition window_low (L W : Q) : Q := float32 (float64 (L - float64 (W / 2))).
Definition window_high (L W : Q) : Q := float32 (float64 (L + float64 (W / 2))).

(** The sample after the two masked assignments of the transform. *)
Definition clipped (L W x : Q) : Q :=
  let x1 := if Qltb x (window_low L W) then window_low L W else x in
  if Qltb (window_high L W) x1 then window_high L W else x1.

(** The value that the windowing transform casts to [uint8]. *)
Definition window_scaled (L W x : Q) : Q :=
  float32 (float32 (float32 (clipped L W x - window_low L W) / float32 W) * 255).

(** The output for a sample at the upper bound of the window. *)
Definition window_top (L W : Q) : Z :=
  DICOMViewerApp.window_value L W (window_high L W).

(** The contrast attributes are what the two scales hold, within the
    scales' ranges. *)
Definition window_on_scales (app : DICOMViewerApp.t) : Prop :=
  DICOMViewerApp.window_level app = DICOMViewerApp.wl_scale app
  /\ DICOMViewerApp.window_width app = DICOMViewerApp.ww_scale app
  /\ (-3000 <= DICOMViewerApp.window_level app <= 3000)%Q
  /\ (10 <= DICOMViewerApp.window_width app <= 6000)%Q.



(** The scales' ranges, in which the level and the width of a running
    program stay. *)
Definition in_scale_range (L W : Q) : Prop :=
  (-3000 <= L <= 3000)%Q /\ (10 <= W <= 6000)%Q.

(** ** Numbers: facts *)

Lemma Qltb_lt (x y : Q) : Qltb x y = true <-> (x < y)%Q.
Proof.
  unfold Qltb. rewrite negb_true_iff. split; intro H.
  - apply Qnot_le_lt. intro Hle. apply Qle_bool_iff in Hle. congruence.
  - destruct (Qle_bool y x) eqn:E; [|reflexivity].
    apply Qle_bool_iff in E. exfalso. exact (Qlt_not_le _ _ H E).
Qed.

Lemma Qltb_ge (x y : Q) : Qltb x y = false <-> (y <= x)%Q.
Proof.
  unfold Qltb. rewrite negb_false_iff. apply Qle_bool_iff.
Qed.

Lemma py_max_Qmax (a b : Q) : py_max a b = Qmax a b.
Proof.
  unfold py_max, Qmax, GenericMinMax.gmax, Qltb, Qle_bool, Qcompare.
  destruct (Z.leb_spec (Qnum b * QDen a) (Qnum a * QDen b)) as [H|H]; simpl.
  - destruct (Z.compare_spec (Qnum a * QDen b) (Qnum b * QDen a)); try reflexivity. lia.
  - apply Z.compare_lt_iff in H. rewrite H. reflexivity.
Qed.

Lemma py_int_inject_div (a : Z) (b : positive) :
  py_int (inject_Z a / inject_Z (Zpos b))%Q = Z.quot a (Zpos b).
Proof.
  unfold py_int, Qdiv, Qmult, Qinv, inject_Z. simpl.
  rewrite Z.mul_1_r. reflexivity.
Qed.

Lemma py_int_nonneg (x : Q) : (0 <= x)%Q -> py_int x = Qfloor x.
Proof.
  destruct x as [n d]. unfold Qle, py_int, Qfloor. simpl. intro H.
  apply Z.quot_div_nonneg; lia.
Qed.


Lemma py_div_pos (a b : Q) : (0 < b)%Q -> py_div a b = Ok (a / b)%Q.
Proof.
  intro H. unfold py_div.
  destruct (Qeq_bool b 0) eqn:E; [|reflexivity].
  apply Qeq_bool_iff in E. rewrite E in H. exfalso. exact (Qlt_irrefl _ H).
Qed.

(** ** Binary floating point: facts *)

Lemma pow2_pos (e : Z) : (0 < pow2 e)%Q.
Proof. apply Qpower_0_lt. reflexivity. Qed.

Lemma pow2_add (a b : Z) : (pow2 (a + b) == pow2 a * pow2 b)%Q.
Proof. apply Qpower_plus. discriminate. Qed.

Lemma pow2_le (a b : Z) : a <= b -> (pow2 a <= pow2 b)%Q.
Proof. intro H. apply Qpower_le_compat_l; [exact H|discriminate]. Qed.

Lemma pow2_lt (a b : Z) : a < b -> (pow2 a < pow2 b)%Q.
Proof. intro H. apply Qpower_lt_compat_l; [exact H|reflexivity]. Qed.

Lemma pow2_lt_inv (a b : Z) : (pow2 a < pow2 b)%Q -> a < b.
Proof. intro H. apply (Qpower_lt_compat_l_inv 2); [exact H|reflexivity]. Qed.

Lemma pow2_Z (e : Z) : 0 <= e -> (pow2 e == inject_Z (2 ^ e))%Q.
Proof. intro H. unfold pow2. rewrite (Zpower_Qpower 2 e H). reflexivity. Qed.

(** *** Rounding to an integer *)

Lemma round_half_even_bounds (x : Q) :
  Qfloor x <= round_half_even x <= Qfloor x + 1.
Proof.
  unfold round_half_even.
  destruct (Qcompare (x - inject_Z (Qfloor x)) (1 # 2)); try lia.
  destruct (Z.even (Qfloor x)); lia.
Qed.

Lemma round_half_even_Z (k : Z) : round_half_even (inject_Z k) = k.
Proof.
  unfold round_half_even. rewrite Qfloor_Z.
  assert (E : (inject_Z k - inject_Z k ?= 1 # 2)%Q = Lt).
  { apply Qlt_alt. setoid_replace (inject_Z k - inject_Z k)%Q with 0%Q by ring. reflexivity. }
  rewrite E. reflexivity.
Qed.

Lemma round_half_even_mono (x y : Q) :
  (x <= y)%Q -> round_half_even x <= round_half_even y.
Proof.
  intro Hxy.
  pose proof (Qfloor_resp_le x y Hxy) as Hf.
  pose proof (round_half_even_bounds x) as Bx.
  pose proof (round_half_even_bounds y) as By.
  destruct (Z.eq_dec (Qfloor x) (Qfloor y)) as [E|E]; [|lia].
  unfold round_half_even in *. rewrite E in *.
  destruct (Qcompare (x - inject_Z (Qfloor y)) (1 # 2)) eqn:Cx;
    destruct (Qcompare (y - inject_Z (Qfloor y)) (1 # 2)) eqn:Cy;
    try lia; try (destruct (Z.even (Qfloor y)); lia).
  - apply Qeq_alt in Cx. apply Qlt_alt in Cy. exfalso. lra.
  - apply Qgt_alt in Cx. apply Qeq_alt in Cy. exfalso. lra.
  - apply Qgt_alt in Cx. apply Qlt_alt in Cy. exfalso. lra.
Qed.

Lemma round_half_even_le_Z (x : Q) (k : Z) :
  (x <= inject_Z k)%Q -> round_half_even x <= k.
Proof.
  intro H. rewrite <- (round_half_even_Z k). apply round_half_even_mono. exact H.
Qed.

Lemma round_half_even_ge_Z (x : Q) (k : Z) :
  (inject_Z k <= x)%Q -> k <= round_half_even x.
Proof.
  intro H. rewrite <- (round_half_even_Z k). apply round_half_even_mono. exact H.
Qed.

(** *** The binary exponent *)

Lemma ilog2_spec (x : Q) :
  (0 < x)%Q -> (pow2 (ilog2 x) <= x < pow2 (ilog2 x + 1))%Q.
Proof.
  intro Hx. destruct x as [n d]. unfold ilog2. cbn [Qnum Qden].
  assert (Hn : 0 < n) by (unfold Qlt in Hx; simpl in Hx; lia).
  set (ln := Z.log2 n). set (ld := Z.log2 (Zpos d)).
  pose proof (Z.log2_spec n Hn) as Sn. fold ln in Sn.
  pose proof (Z.log2_spec (Zpos d) (Pos2Z.is_pos d)) as Sd. fold ld in Sd.
  pose proof (Z.log2_nonneg n) as Ln. fold ln in Ln.
  pose proof (Z.log2_nonneg (Zpos d)) as Ld. fold ld in Ld.
  assert (PA : (pow2 ln == inject_Z (2 ^ ln))%Q) by (apply pow2_Z; exact Ln).
  assert (PB : (pow2 ld == inject_Z (2 ^ ld))%Q) by (apply pow2_Z; exact Ld).
  assert (A0 : 0 < 2 ^ ln) by (apply Z.pow_pos_nonneg; lia).
  assert (B0 : 0 < 2 ^ ld) by (apply Z.pow_pos_nonneg; lia).
  replace (2 ^ Z.succ ln) with (2 * 2 ^ ln) in Sn by (rewrite Z.pow_succ_r; lia).
  replace (2 ^ Z.succ ld) with (2 * 2 ^ ld) in Sd by (rewrite Z.pow_succ_r; lia).
  set (A := 2 ^ ln) in *. set (B := 2 ^ ld) in *.
  (* the two outer bounds *)
  assert (Hup : (n # d < pow2 (ln - ld + 1))%Q).
  { replace (ln - ld + 1) with ((ln + 1) + - ld) by lia.
    rewrite pow2_add. unfold pow2 at 2. rewrite Qpower_opp. fold (pow2 ld).
    rewrite pow2_add, PA, PB. change (pow2 1) with 2%Q.
    apply Qlt_shift_div_l; [change 0%Q with (inject_Z 0); rewrite <- Zlt_Qlt; exact B0|].
    unfold Qlt, Qmult, inject_Z. simpl. nia. }
  assert (Hlow : (pow2 (ln - ld - 1) <= n # d)%Q).
  { replace (ln - ld - 1) with (ln + - (ld + 1)) by lia.
    rewrite pow2_add. unfold pow2 at 2. rewrite Qpower_opp. fold (pow2 (ld + 1)).
    rewrite pow2_add, PA, PB. change (pow2 1) with 2%Q.
    apply Qle_shift_div_r.
    - apply Qmult_lt_0_compat; [|reflexivity].
      change 0%Q with (inject_Z 0); rewrite <- Zlt_Qlt; exact B0.
    - unfold Qle, Qmult, inject_Z. simpl. nia. }
  destruct (Qle_bool (pow2 (ln - ld)) (n # d)) eqn:E.
  - apply Qle_bool_iff in E. split; assumption.
  - replace (ln - ld - 1 + 1) with (ln - ld) by lia. split; [exact Hlow|].
    apply Qnot_le_lt. intro H. apply Qle_bool_iff in H. congruence.
Qed.

Lemma ilog2_mono (x y : Q) : (0 < x)%Q -> (x <= y)%Q -> ilog2 x <= ilog2 y.
Proof.
  intros Hx Hxy.
  destruct (ilog2_spec x Hx) as [Lx _].
  destruct (ilog2_spec y (Qlt_le_trans _ _ _ Hx Hxy)) as [_ Uy].
  assert (H : (pow2 (ilog2 x) < pow2 (ilog2 y + 1))%Q).
  { eapply Qle_lt_trans; [exact Lx|]. eapply Qle_lt_trans; [exact Hxy|exact Uy]. }
  apply pow2_lt_inv in H. lia.
Qed.

(** *** Rounding is monotonic *)

Lemma round_pos_nonneg (prec emin : Z) (x : Q) :
  (0 < x)%Q -> (0 <= round_pos prec emin x)%Q.
Proof.
  intro Hx. unfold round_pos.
  set (e := Z.max (ilog2 x - prec + 1) emin).
  apply Qmult_le_0_compat; [|apply Qlt_le_weak, pow2_pos].
  change 0%Q with (inject_Z 0). rewrite <- Zle_Qle.
  apply round_half_even_ge_Z. change (inject_Z 0) with 0%Q.
  apply Qle_shift_div_l; [apply pow2_pos|].
  setoid_replace (0 * pow2 e)%Q with 0%Q by ring. apply Qlt_le_weak. exact Hx.
Qed.

Lemma div_pow2_le (x y : Q) (e : Z) : (x <= y)%Q -> (x / pow2 e <= y / pow2 e)%Q.
Proof.
  intro H. unfold Qdiv. apply Qmult_le_compat_r; [exact H|].
  apply Qlt_le_weak, Qinv_lt_0_compat, pow2_pos.
Qed.

Lemma pow2_div (a b : Z) : (pow2 a / pow2 b == pow2 (a - b))%Q.
Proof.
  replace (a - b) with (a + - b) by lia. rewrite pow2_add.
  unfold pow2 at 4. rewrite Qpower_opp. reflexivity.
Qed.

Lemma round_pos_mono (prec emin : Z) (x y : Q) :
  1 <= prec -> (0 < x)%Q -> (x <= y)%Q ->
  (round_pos prec emin x <= round_pos prec emin y)%Q.
Proof.
  intros Hp Hx Hxy.
  assert (Hy : (0 < y)%Q) by (eapply Qlt_le_trans; eassumption).
  pose proof (ilog2_mono x y Hx Hxy) as Hab.
  destruct (ilog2_spec x Hx) as [Lx Ux].
  destruct (ilog2_spec y Hy) as [Ly Uy].
  unfold round_pos.
  set (a := ilog2 x) in *. set (b := ilog2 y) in *.
  set (ex := Z.max (a - prec + 1) emin). set (ey := Z.max (b - prec + 1) emin).
  destruct (Z.eq_dec ex ey) as [E|E].
  - rewrite E. apply Qmult_le_compat_r; [|apply Qlt_le_weak, pow2_pos].
    rewrite <- Zle_Qle. apply round_half_even_mono. apply div_pow2_le. exact Hxy.
  - assert (Hey : ey = b - prec + 1) by lia.
    assert (Hlt : a < b) by lia.
    apply Qle_trans with (y := pow2 b).
    + (* the rounding of x does not pass 2^b *)
      destruct (Z.le_gt_cases 0 (a + 1 - ex)) as [Hk|Hk].
      * apply Qle_trans with (y := pow2 (a + 1)); [|apply pow2_le; lia].
        assert (Hs : (pow2 (a + 1) == pow2 (a + 1 - ex) * pow2 ex)%Q).
        { rewrite <- pow2_add. replace (a + 1 - ex + ex) with (a + 1) by lia. reflexivity. }
        rewrite Hs. apply Qmult_le_compat_r; [|apply Qlt_le_weak, pow2_pos].
        rewrite (pow2_Z _ Hk), <- Zle_Qle. apply round_half_even_le_Z.
        rewrite <- (pow2_Z _ Hk), <- pow2_div.
        apply div_pow2_le. apply Qlt_le_weak. exact Ux.
      * apply Qle_trans with (y := pow2 ex); [|apply pow2_le; lia].
        apply Qle_trans with (y := (1 * pow2 ex)%Q);
          [|rewrite Qmult_1_l; apply Qle_refl].
        apply Qmult_le_compat_r; [|apply Qlt_le_weak, pow2_pos].
        change 1%Q with (inject_Z 1). rewrite <- Zle_Qle. apply round_half_even_le_Z.
        change (inject_Z 1) with (pow2 0).
        apply Qle_trans with (y := (pow2 (a + 1) / pow2 ex)%Q).
        -- apply div_pow2_le. apply Qlt_le_weak. exact Ux.
        -- rewrite pow2_div. apply pow2_le. lia.
    + (* the rounding of y does not fall below 2^b *)
      assert (Hs : (pow2 b == pow2 (prec - 1) * pow2 ey)%Q).
      { rewrite <- pow2_add. replace (prec - 1 + ey) with b by lia. reflexivity. }
      rewrite Hs. apply Qmult_le_compat_r; [|apply Qlt_le_weak, pow2_pos].
      assert (Hk : 0 <= prec - 1) by lia.
      rewrite (pow2_Z _ Hk), <- Zle_Qle. apply round_half_even_ge_Z.
      rewrite <- (pow2_Z _ Hk).
      replace (prec - 1) with (b - ey) by lia. rewrite <- pow2_div.
      apply div_pow2_le. exact Ly.
Qed.

(** *** Rounding of signed values *)

Lemma Qred_idem (x : Q) : Qred (Qred x) = Qred x.
Proof. apply Qred_complete. apply Qred_correct. Qed.

Lemma round_float_canonical (prec emin : Z) (x : Q) :
  Qred (round_float prec emin x) = round_float prec emin x.
Proof.
  unfold round_float. destruct (Qcompare x 0); [reflexivity|apply Qred_idem|apply Qred_idem].
Qed.

Ltac Qcompare_to_order H :=
  match type of H with
  | (_ ?= _)%Q = Eq => apply Qeq_alt in H
  | (_ ?= _)%Q = Lt => apply Qlt_alt in H
  | (_ ?= _)%Q = Gt => apply Qgt_alt in H
  end.

Lemma round_float_mono (prec emin : Z) (x y : Q) :
  1 <= prec -> (x <= y)%Q ->
  (round_float prec emin x <= round_float prec emin y)%Q.
Proof.
  intros Hp Hxy. unfold round_float.
  destruct (Qcompare x 0) eqn:Cx; destruct (Qcompare y 0) eqn:Cy;
    rewrite ?Qred_correct; Qcompare_to_order Cx; Qcompare_to_order Cy.
  - apply Qle_refl.
  - exfalso. lra.
  - apply round_pos_nonneg. exact Cy.
  - assert (H : (0 <= round_pos prec emin (- x))%Q) by (apply round_pos_nonneg; lra). lra.
  - assert (Hx' : (0 <= round_pos prec emin (- x))%Q) by (apply round_pos_nonneg; lra).
    assert (Hy' : (round_pos prec emin (- y) <= round_pos prec emin (- x))%Q).
    { apply round_pos_mono; [exact Hp|lra|lra]. }
    lra.
  - assert (Hx' : (0 <= round_pos prec emin (- x))%Q) by (apply round_pos_nonneg; lra).
    assert (Hy' : (0 <= round_pos prec emin y)%Q) by (apply round_pos_nonneg; lra).
    lra.
  - exfalso. lra.
  - exfalso. lra.
  - apply round_pos_mono; [exact Hp|lra|exact Hxy].
Qed.

Lemma round_float_eq (prec emin : Z) (x y : Q) :
  1 <= prec -> (x == y)%Q -> round_float prec emin x = round_float prec emin y.
Proof.
  intros Hp E.
  rewrite <- (round_float_canonical prec emin x), <- (round_float_canonical prec emin y).
  apply Qred_complete. apply Qle_antisym; apply round_float_mono; try exact Hp;
    rewrite E; apply Qle_refl.
Qed.

Lemma round_float_nonneg (prec emin : Z) (x : Q) :
  1 <= prec -> (0 <= x)%Q -> (0 <= round_float prec emin x)%Q.
Proof.
  intros Hp H. change 0%Q with (round_float prec emin 0) at 1.
  apply round_float_mono; assumption.
Qed.

(** *** The rounding error *)

Lemma round_half_even_near (y : Q) :
  (inject_Z (round_half_even y) - 1 <= y <= inject_Z (round_half_even y) + 1)%Q.
Proof.
  pose proof (round_half_even_bounds y) as [B1 B2].
  pose proof (Qfloor_le y) as F1. pose proof (Qlt_floor y) as F2.
  rewrite inject_Z_plus in F2.
  rewrite Zle_Qle in B1, B2. rewrite inject_Z_plus in B2.
  change (inject_Z 1) with 1%Q in *.
  split; lra.
Qed.

Lemma round_pos_error (prec emin : Z) (x : Q) :
  (0 < x)%Q ->
  (x - (x * pow2 (1 - prec) + pow2 emin) <= round_pos prec emin x
   <= x + (x * pow2 (1 - prec) + pow2 emin))%Q.
Proof.
  intro Hx. unfold round_pos.
  set (e := Z.max (ilog2 x - prec + 1) emin).
  pose proof (pow2_pos e) as He.
  pose proof (round_half_even_near (x / pow2 e)) as [N1 N2].
  set (m := inject_Z (round_half_even (x / pow2 e))) in *.
  assert (Hx' : (x == x / pow2 e * pow2 e)%Q) by (field; lra).
  assert (U1 : ((m - 1) * pow2 e <= x)%Q).
  { apply Qle_trans with (y := (x / pow2 e * pow2 e)%Q); [|rewrite <- Hx'; apply Qle_refl].
    apply Qmult_le_compat_r; [exact N1|lra]. }
  assert (U2 : (x <= (m + 1) * pow2 e)%Q).
  { apply Qle_trans with (y := (x / pow2 e * pow2 e)%Q); [rewrite <- Hx'; apply Qle_refl|].
    apply Qmult_le_compat_r; [exact N2|lra]. }
  assert (Hb : (pow2 e <= x * pow2 (1 - prec) + pow2 emin)%Q).
  { destruct (ilog2_spec x Hx) as [L1 _].
    pose proof (pow2_pos emin) as Hm. pose proof (pow2_pos (1 - prec)) as Hu.
    destruct (Z.max_spec (ilog2 x - prec + 1) emin) as [[_ E]|[_ E]]; fold e in E; rewrite E.
    - assert (0 <= x * pow2 (1 - prec))%Q by (apply Qmult_le_0_compat; lra). lra.
    - replace (ilog2 x - prec + 1) with (ilog2 x + (1 - prec)) by lia.
      rewrite pow2_add.
      assert (pow2 (ilog2 x) * pow2 (1 - prec) <= x * pow2 (1 - prec))%Q
        by (apply Qmult_le_compat_r; [exact L1|lra]).
      lra. }
  split; lra.
Qed.

Lemma round_float_error (prec emin : Z) (x B eps : Q) :
  (- B <= x <= B)%Q ->
  (B * pow2 (1 - prec) + pow2 emin <= eps)%Q ->
  (x - eps <= round_float prec emin x <= x + eps)%Q.
Proof.
  intros [B1 B2] Heps. unfold round_float.
  pose proof (pow2_pos emin) as Hm. pose proof (pow2_pos (1 - prec)) as Hu.
  destruct (Qcompare x 0) eqn:C; rewrite ?Qred_correct; Qcompare_to_order C.
  - assert (0 <= B)%Q by lra.
    assert (0 <= B * pow2 (1 - prec))%Q by (apply Qmult_le_0_compat; lra).
    split; lra.
  - pose proof (round_pos_error prec emin (- x)) as [E1 E2]; [lra|].
    assert (- x * pow2 (1 - prec) <= B * pow2 (1 - prec))%Q
      by (apply Qmult_le_compat_r; lra).
    split; lra.
  - pose proof (round_pos_error prec emin x C) as [E1 E2].
    assert (x * pow2 (1 - prec) <= B * pow2 (1 - prec))%Q
      by (apply Qmult_le_compat_r; lra).
    split; lra.
Qed.

(** *** Small integers are not rounded *)



(** ** The windowing transform *)

Lemma float32_mono (x y : Q) : (x <= y)%Q -> (float32 x <= float32 y)%Q.
Proof. apply round_float_mono. lia. Qed.

Lemma float64_mono (x y : Q) : (x <= y)%Q -> (float64 x <= float64 y)%Q.
Proof. apply round_float_mono. lia. Qed.

Lemma float32_eq (x y : Q) : (x == y)%Q -> float32 x = float32 y.
Proof. apply round_float_eq. lia. Qed.


Lemma float32_0 : float32 0 = 0%Q.
Proof. vm_compute. reflexivity. Qed.

Lemma float32_nonneg (x : Q) : (0 <= x)%Q -> (0 <= float32 x)%Q.
Proof. apply round_float_nonneg. lia. Qed.

Lemma float64_nonneg (x : Q) : (0 <= x)%Q -> (0 <= float64 x)%Q.
Proof. apply round_float_nonneg. lia. Qed.

Lemma astype_uint8_range (x : Q) : 0 <= astype_uint8 x <= 255.
Proof.
  unfold astype_uint8. pose proof (Z.mod_pos_bound (py_int x) 256). lia.
Qed.

(** The cast of a value in [0, 256) is its integer part. *)
Lemma astype_uint8_floor (x : Q) :
  (0 <= x)%Q -> (x < 256)%Q -> astype_uint8 x = Qfloor x.
Proof.
  intros H0 H1. unfold astype_uint8. rewrite py_int_nonneg by exact H0.
  apply Z.mod_small. split.
  - change 0 with (Qfloor 0). apply Qfloor_resp_le. exact H0.
  - rewrite Zlt_Qlt. eapply Qle_lt_trans; [apply Qfloor_le|exact H1].
Qed.

(** Case analysis on every comparison of the goal, innermost first. *)
Ltac Qltb_cases :=
  repeat match goal with
         | |- context [Qltb ?a ?b] =>
             lazymatch a with context [Qltb _ _] => fail | _ => idtac end;
             lazymatch b with context [Qltb _ _] => fail | _ => idtac end;
             let E := fresh "E" in
             destruct (Qltb a b) eqn:E; [apply Qltb_lt in E|apply Qltb_ge in E]
         end.

Section Windowing.

Variables L W : Q.
Hypothesis W_pos : (0 < float32 W)%Q.

Lemma window_width_pos : (0 < W)%Q.
Proof.
  apply Qnot_le_lt. intro H. apply float32_mono in H.
  rewrite float32_0 in H. lra.
Qed.

Lemma window_low_le_high : (window_low L W <= window_high L W)%Q.
Proof.
  pose proof window_width_pos as HW.
  assert (Hh : (0 <= float64 (W / 2))%Q).
  { apply float64_nonneg. apply Qle_shift_div_l; lra. }
  unfold window_low, window_high. apply float32_mono, float64_mono. lra.
Qed.

Lemma clipped_range (x : Q) :
  (window_low L W <= clipped L W x <= window_high L W)%Q.
Proof.
  pose proof window_low_le_high as Hle. unfold clipped.
  Qltb_cases; split; lra.
Qed.

Lemma clipped_low (x : Q) :
  (x <= window_low L W)%Q -> (clipped L W x == window_low L W)%Q.
Proof.
  intro Hx. pose proof window_low_le_high as Hle. unfold clipped.
  Qltb_cases; lra.
Qed.

Lemma clipped_high (x : Q) :
  (window_high L W <= x)%Q -> (clipped L W x == window_high L W)%Q.
Proof.
  intro Hx. pose proof window_low_le_high as Hle. unfold clipped.
  Qltb_cases; lra.
Qed.

Lemma clipped_monotone (x y : Q) : (x <= y)%Q -> (clipped L W x <= clipped L W y)%Q.
Proof.
  intro Hxy. pose proof window_low_le_high as Hle. unfold clipped.
  Qltb_cases; lra.
Qed.

(** The transform reads a sample through its value only. *)
Lemma window_scaled_eq (x y : Q) :
  (clipped L W x == clipped L W y)%Q -> window_scaled L W x = window_scaled L W y.
Proof.
  intro H. unfold window_scaled.
  rewrite (float32_eq (clipped L W x - window_low L W) (clipped L W y - window_low L W));
    [reflexivity|].
  rewrite H. reflexivity.
Qed.

Lemma window_scaled_clipped_le (x y : Q) :
  (clipped L W x <= clipped L W y)%Q -> (window_scaled L W x <= window_scaled L W y)%Q.
Proof.
  intro Hxy. unfold window_scaled.
  apply float32_mono. apply Qmult_le_compat_r; [|discriminate].
  apply float32_mono. unfold Qdiv. apply Qmult_le_compat_r.
  - apply float32_mono. lra.
  - apply Qlt_le_weak, Qinv_lt_0_compat. exact W_pos.
Qed.

Lemma window_scaled_monotone (x y : Q) :
  (x <= y)%Q -> (window_scaled L W x <= window_scaled L W y)%Q.
Proof.
  intro Hxy. apply window_scaled_clipped_le, clipped_monotone. exact Hxy.
Qed.

(** No sample is scaled above the upper bound of the window. *)
Lemma window_scaled_le_top (x : Q) :
  (window_scaled L W x <= window_scaled L W (window_high L W))%Q.
Proof.
  apply window_scaled_clipped_le.
  rewrite (clipped_high (window_high L W)) by apply Qle_refl.
  apply clipped_range.
Qed.

Lemma window_scaled_nonneg (x : Q) : (0 <= window_scaled L W x)%Q.
Proof.
  unfold window_scaled. apply float32_nonneg.
  apply Qmult_le_0_compat; [|discriminate].
  apply float32_nonneg. apply Qle_shift_div_l; [exact W_pos|].
  setoid_replace (0 * float32 W)%Q with 0%Q by ring.
  apply float32_nonneg. pose proof (clipped_range x). lra.
Qed.

Lemma window_scaled_low (x : Q) :
  (x <= window_low L W)%Q -> window_scaled L W x = 0%Q.
Proof.
  intro Hx. unfold window_scaled.
  rewrite (float32_eq (clipped L W x - window_low L W) 0)
    by (rewrite (clipped_low x Hx); ring).
  rewrite float32_0.
  rewrite (float32_eq (0 / float32 W) 0) by (unfold Qdiv; ring).
  rewrite float32_0.
  rewrite (float32_eq (0 * 255) 0) by ring.
  apply float32_0.
Qed.

Lemma window_value_scaled (x : Q) :
  DICOMViewerApp.window_value L W x = astype_uint8 (window_scaled L W x).
Proof.
  cbv beta zeta delta [DICOMViewerApp.window_value window_scaled clipped
                         window_low window_high].
  reflexivity.
Qed.

(** When the scaled upper bound stays below 256, the cast does not wrap
    and every output is the integer part of the scaled sample. *)
Lemma window_value_floor (x : Q) :
  (window_scaled L W (window_high L W) < 256)%Q ->
  DICOMViewerApp.window_value L W x = Qfloor (window_scaled L W x).
Proof.
  intro Htop. rewrite window_value_scaled.
  apply astype_uint8_floor; [apply window_scaled_nonneg|].
  eapply Qle_lt_trans; [apply window_scaled_le_top|exact Htop].
Qed.

End Windowing.

Lemma apply_window_pointwise (L W : Q) (hu : matrix Q) :
  Forall2 (Forall2 (fun v x => v = DICOMViewerApp.window_value L W x))
          (DICOMViewerApp.apply_window L W hu) hu.
Proof.
  unfold DICOMViewerApp.apply_window.
  induction hu as [|row hu IH]; simpl; constructor; [|exact IH].
  induction row as [|x row IHr]; simpl; constructor; [reflexivity|exact IHr].
Qed.

(** *** The window within the ranges of the two scales *)

(** Rounding to [float32] and to [float64] moves a value of magnitude at
    most [B] by at most [eps], for any [eps] that covers the spacing of
    the format at [B]. *)
Lemma float32_near (x B eps : Q) :
  (- B <= x <= B)%Q -> (B * pow2 (1 - 24) + pow2 (-149) <= eps)%Q ->
  (x - eps <= float32 x <= x + eps)%Q.
Proof. apply round_float_error. Qed.

Lemma float64_near (x B eps : Q) :
  (- B <= x <= B)%Q -> (B * pow2 (1 - 53) + pow2 (-1074) <= eps)%Q ->
  (x - eps <= float64 x <= x + eps)%Q.
Proof. apply round_float_error. Qed.

(** With the level in [-3000, 3000] and the width in [10, 6000], the
    sample at the upper bound of the window is scaled to a value between
    254 and 256. *)
Lemma window_top_in_scale_range (L W : Q) :
  in_scale_range L W ->
  (0 < float32 W)%Q
  /\ (254 <= window_scaled L W (window_high L W) < 256)%Q.
Proof.
  intros [[L1 L2] [W1 W2]].
  unfold window_scaled, clipped, window_high, window_low.
  pose proof (float64_near (W / 2) 3000 (1 # 1000000)) as Hh.
  set (h := float64 (W / 2)) in *.
  change (W / 2)%Q with (W * (1 # 2))%Q in *.
  destruct Hh as [Hh1 Hh2]; [split; lra|vm_compute; discriminate|].
  pose proof (float64_near (L - h) 6001 (1 # 1000000)) as Hmn.
  set (mn := float64 (L - h)) in *.
  destruct Hmn as [Hmn1 Hmn2]; [split; lra|vm_compute; discriminate|].
  pose proof (float64_near (L + h) 6001 (1 # 1000000)) as Hmx.
  set (mx := float64 (L + h)) in *.
  destruct Hmx as [Hmx1 Hmx2]; [split; lra|vm_compute; discriminate|].
  pose proof (float32_near mn 6002 (1 # 1000)) as Hlo.
  destruct Hlo as [Hlo1 Hlo2]; [split; lra|vm_compute; discriminate|].
  pose proof (float32_near mx 6002 (1 # 1000)) as Hhi.
  destruct Hhi as [Hhi1 Hhi2]; [split; lra|vm_compute; discriminate|].
  pose proof (float32_near W 6000 (1 # 1000)) as Hw.
  destruct Hw as [Hw1 Hw2]; [split; lra|vm_compute; discriminate|].
  assert (W32 : (0 < float32 W)%Q) by lra.
  split; [exact W32|].
  set (lo := float32 mn) in *. set (hi := float32 mx) in *. set (w := float32 W) in *.
  match goal with
  | |- (_ <= float32 (float32 (float32 (?c - lo) / w) * 255) < _)%Q =>
      rewrite (float32_eq (c - lo) (hi - lo)) by (Qltb_cases; lra)
  end.
  pose proof (float32_near (hi - lo) 6002 (1 # 1000)) as Hd.
  set (d := float32 (hi - lo)) in *.
  destruct Hd as [Hd1 Hd2]; [split; lra|vm_compute; discriminate|].
  assert (Hr1 : (9995 # 10000 <= d / w)%Q) by (apply Qle_shift_div_l; lra).
  assert (Hr2 : (d / w <= 10005 # 10000)%Q) by (apply Qle_shift_div_r; lra).
  pose proof (float32_near (d / w) 2 (1 # 100000)) as Hq.
  set (q := float32 (d / w)) in *.
  destruct Hq as [Hq1 Hq2]; [split; lra|vm_compute; discriminate|].
  pose proof (float32_near (q * 255) 256 (1 # 1000)) as Hs.
  destruct Hs as [Hs1 Hs2]; [split; lra|vm_compute; discriminate|].
  split; lra.
Qed.

(** The claim of C5 fails at the upper bound.  With the level -5 and the
    width 11.3 (a value the width scale can return), a sample of 1000
    lies above [L + W/2], and the transform maps it to 254: the bounds
    cast to [float32] are less than [W] apart, and the quotient rounds
    below 1. *)
Lemma windowing_upper_bound_is_not_255 :
  let L := (-5)%Q in
  let W := float64 11.3 in
  (0 < W)%Q
  /\ (L + W / 2 <= 1000)%Q
  /\ float32 1000 = 1000%Q
  /\ DICOMViewerApp.apply_window L W [[1000%Q]] = [[254]]
  /\ DICOMViewerApp.window_value L W 1000 = 254
  /\ DICOMViewerApp.window_value L W 1000 <> 255.
Proof.
  vm_compute. repeat split; try reflexivity; discriminate.
Qed.

(** C5, amended. For every slice and every window level [L] and width [W]
    whose [float32] value is positive, the output of the windowing
    transform has the shape of the slice, each output sample being the
    transform of the input sample at its place, and every output sample
    lies in [0, 255].  An input at or below the lower bound of the window
    (L - W/2 as the transform computes it) gives 0.  All inputs at or
    above the upper bound (L + W/2 as computed) give one and the same
    output, that of the upper bound itself, which need not be 255.  When
    the scaled upper bound stays below 256, so that the cast to eight
    bits does not wrap, the transform is monotonic non-decreasing in the
    input sample; this is so for every level in [-3000, 3000] and width
    in [10, 6000], the ranges of the two scales, and there the output of
    the upper bound is 254 or 255. *)
Theorem windowing_range_and_monotone :
  forall (hu_data : matrix Q) (L W : Q),
    (0 < float32 W)%Q ->
    Forall2 (Forall2 (fun v x => v = DICOMViewerApp.window_value L W x))
            (DICOMViewerApp.apply_window L W hu_data) hu_data
    /\ (forall x, 0 <= DICOMViewerApp.window_value L W x <= 255)
    /\ (forall x, (x <= window_low L W)%Q -> DICOMViewerApp.window_value L W x = 0)
    /\ (forall x, (window_high L W <= x)%Q ->
          DICOMViewerApp.window_value L W x = window_top L W)
    /\ ((window_scaled L W (window_high L W) < 256)%Q ->
        forall x y, (x <= y)%Q ->
          DICOMViewerApp.window_value L W x <= DICOMViewerApp.window_value L W y)
    /\ (in_scale_range L W ->
        (window_scaled L W (window_high L W) < 256)%Q
        /\ 254 <= window_top L W <= 255).
Proof.
  intros hu_data L W HW.
  split; [apply apply_window_pointwise|].
  split; [intro x; rewrite window_value_scaled; apply astype_uint8_range|].
  split; [|split; [|split]].
  - intros x Hx. rewrite window_value_scaled, (window_scaled_low L W HW x Hx).
    reflexivity.
  - intros x Hx. unfold window_top. rewrite !window_value_scaled.
    rewrite (window_scaled_eq L W x (window_high L W)); [reflexivity|].
    rewrite (clipped_high L W HW x Hx).
    rewrite (clipped_high L W HW (window_high L W)) by apply Qle_refl.
    reflexivity.
  - intros Htop x y Hxy.
    rewrite !(window_value_floor L W HW _ Htop).
    apply Qfloor_resp_le. apply window_scaled_monotone; assumption.
  - intro Hrange.
    destruct (window_top_in_scale_range L W Hrange) as (_ & Hlo & Hhi).
    split; [exact Hhi|]. unfold window_top.
    split; [|rewrite window_value_scaled; apply astype_uint8_range].
    rewrite (window_value_floor L W HW _ Hhi).
    change 254 with (Qfloor 254). apply Qfloor_resp_le. exact Hlo.
Qed.

Lemma windowing_range_and_monotone_witness :
  (0 < float32 400)%Q
  /\ Forall2 (Forall2 (fun v x => v = DICOMViewerApp.window_value 0 400 x))
             (DICOMViewerApp.apply_window 0 400 [[(-2000)%Q; 0%Q; 2000%Q]])
             [[(-2000)%Q; 0%Q; 2000%Q]]
  /\ 254 <= window_top 0 400 <= 255.
Proof.
  assert (H : (0 < float32 400)%Q) by (vm_compute; reflexivity).
  split; [exact H|].
  destruct (windowing_range_and_monotone [[(-2000)%Q; 0%Q; 2000%Q]] 0 400 H)
    as (H1 & _ & _ & _ & _ & H6).
  split; [exact H1|].
  apply H6. repeat split; vm_compute; discriminate.
Defined.
(** ** The contrast gesture *)

Section ContrastGesture.

Import DICOMViewerApp.

(** What [_update_wl_ww_gui] leaves behind: the level is read back from
    the level scale, which clipped it, and the width is read back from
    the width scale as it stood before the call, because the command of
    the level scale has overwritten the attribute by then. *)
Lemma update_wl_ww_gui_spec (self : DICOMViewerApp.t) :
  _update_wl_ww_gui self
  = with_window
      (with_scales self (scale_clip (-3000) 3000 (window_level self))
                   (scale_clip 10 6000 (ww_scale self)))
      (scale_clip (-3000) 3000 (window_level self))
      (scale_clip 10 6000 (ww_scale self)).
Proof. reflexivity. Qed.

Lemma on_mouse_drag_spec (self : DICOMViewerApp.t) (x y : Z) :
  is_loaded self = true ->
  let new_wl :=
    float64 (start_wl self - float64 (inject_Z (y - mouse_y self) * 2)) in
  on_mouse_drag self x y
  = with_window
      (with_scales self (scale_clip (-3000) 3000 new_wl)
                   (scale_clip 10 6000 (ww_scale self)))
      (scale_clip (-3000) 3000 new_wl)
      (scale_clip 10 6000 (ww_scale self)).
Proof.
  intro Hl. unfold on_mouse_drag. rewrite Hl. reflexivity.
Qed.

End ContrastGesture.

(** C6 fails on the program: the width that the drag computes is lost.
    On a volume whose samples run from -160 to 240, loaded into a fresh
    application, the level is 40 and the width 400.  Pressed at
    (100, 100) and dragged to (80, 130), the handler assigns the level
    -20 and the width 320, and then sets the level scale; the scale runs
    [update_parameters_from_scale], which reads the width back from the
    width scale, still at 400.  The gesture ends with the level -20 and
    the width 400, not max(10, 400 + (80 - 100) * 4) = 320. *)
Theorem contrast_drag_loses_width :
  let app := fst (DICOMViewerApp.load_dicom_folder DICOMViewerApp.init
                    (Some Samples.range_400) "Axial") in
  let pressed := DICOMViewerApp.on_mouse_down app 100 100 in
  let final := DICOMViewerApp.on_mouse_drag pressed 80 130 in
  DICOMViewerApp.is_loaded app = true
  /\ DICOMViewerApp.window_level app = 40%Q
  /\ DICOMViewerApp.window_width app = 400%Q
  /\ DICOMViewerApp.start_wl pressed = 40%Q
  /\ DICOMViewerApp.start_ww pressed = 400%Q
  /\ DICOMViewerApp.window_level final = (-20)%Q
  /\ DICOMViewerApp.window_width final = 400%Q
  /\ Qmax 10 (400 + inject_Z (80 - 100) * 4) = 320%Q
  /\ ~ (DICOMViewerApp.window_width final
        == Qmax 10 (DICOMViewerApp.start_ww pressed + inject_Z (80 - 100) * 4))%Q.
Proof.
  vm_compute. repeat split; try reflexivity. discriminate.
Qed.

(** ** The slice-scrub gesture *)

Lemma set_current_slice_clamps (app : DICOMViewerApp.t) (new_slice : Z) :
  DICOMViewerApp.current_slice (DICOMViewerApp.set_current_slice app new_slice)
  = clamp new_slice 0
      (DICOMViewerApp.get_max_slice_index app (DICOMViewerApp.current_view app)).
Proof.
  unfold DICOMViewerApp.set_current_slice, clamp.
  destruct (Z.eqb_spec
              (Z.max 0 (Z.min (DICOMViewerApp.get_max_slice_index app
                                 (DICOMViewerApp.current_view app)) new_slice))
              (DICOMViewerApp.current_slice app)) as [E|E]; simpl.
  - symmetry. exact E.
  - reflexivity.
Qed.

Lemma set_current_slice_keeps (app : DICOMViewerApp.t) (new_slice : Z) :
  let app' := DICOMViewerApp.set_current_slice app new_slice in
  DICOMViewerApp.data_loader app' = DICOMViewerApp.data_loader app /\
  DICOMViewerApp.current_view app' = DICOMViewerApp.current_view app.
Proof.
  unfold DICOMViewerApp.set_current_slice.
  destruct (negb _); simpl; split; reflexivity.
Qed.

(** The claim of C7 fails where the pointer moved up by less than a step:
    pressed at [y0 = 100] on index 5 of ten slices and dragged to [y = 95],
    the program stays on index 5, while
    [clamp(5 - floor((95 - 100) / 10), 0, 9)] is 6. *)
Lemma scrub_delta_is_not_floor :
  let app :=
    DICOMViewerApp.run Samples.loaded_app
      [DICOMViewerApp.Wheel 0 (Some 5); DICOMViewerApp.ScrubPress 100] in
  DICOMViewerApp.is_loaded app = true /\
  DICOMViewerApp.start_slice app = 5 /\
  DICOMViewerApp.get_max_slice_index app (DICOMViewerApp.current_view app) = 10 - 1 /\
  DICOMViewerApp.current_slice (DICOMViewerApp.on_mouse_drag_right app 95) = 5 /\
  clamp (5 + - Qfloor (inject_Z (95 - 100) / 10)) 0 (10 - 1) = 6 /\
  DICOMViewerApp.current_slice (DICOMViewerApp.on_mouse_drag_right app 95)
    <> clamp (DICOMViewerApp.start_slice app + - Qfloor (inject_Z (95 - 100) / 10)) 0
         (DICOMViewerApp.get_max_slice_index app (DICOMViewerApp.current_view app)).
Proof.
  vm_compute. repeat split; try reflexivity. discriminate.
Qed.

(** C7, amended. For every slice-scrub gesture on a loaded volume, pressed
    at [y0] on index [startIndex] and dragged to [y], the index delta is
    [-trunc((y - y0) / 10)], with truncation toward zero, and the new
    current index is [clamp(startIndex + delta, 0, axisExtent - 1)]; the
    delta equals [-floor((y - y0) / 10)] whenever [y - y0] is non-negative
    or a multiple of 10. *)
Theorem scrub_delta_truncates :
  forall (app : DICOMViewerApp.t) (y0 y : Z),
    DICOMViewerApp.is_loaded app = true ->
    let pressed := DICOMViewerApp.on_mouse_down_right app y0 in
    let delta := - Z.quot (y - y0) 10 in
    DICOMViewerApp.current_slice (DICOMViewerApp.on_mouse_drag_right pressed y)
      = clamp (DICOMViewerApp.current_slice app + delta) 0
          (DICOMViewerApp.get_max_slice_index app (DICOMViewerApp.current_view app))
    /\ (0 <= y - y0 \/ (y - y0) mod 10 = 0 ->
        delta = - Qfloor (inject_Z (y - y0) / 10)).
Proof.
  intros app y0 y Hl pressed delta. split.
  - unfold DICOMViewerApp.on_mouse_drag_right.
    assert (Hp : DICOMViewerApp.is_loaded pressed = true).
    { unfold pressed, DICOMViewerApp.on_mouse_down_right. rewrite Hl. exact Hl. }
    rewrite Hp, set_current_slice_clamps.
    unfold pressed, DICOMViewerApp.on_mouse_down_right. rewrite Hl. simpl.
    unfold DICOMViewerApp.SLICE_SENSITIVITY.
    rewrite (py_int_inject_div (y - y0) 10). reflexivity.
  - intro H. unfold delta. f_equal.
    change (Qfloor (inject_Z (y - y0) / 10)) with ((y - y0) * 1 / 10).
    rewrite Z.mul_1_r.
    destruct H as [H|H].
    + apply Z.quot_div_nonneg; lia.
    + apply Z.mod_divide in H; [|lia]. destruct H as [q Hq]. rewrite Hq.
      rewrite Z.quot_mul, Z.div_mul by lia. reflexivity.
Qed.

Lemma scrub_delta_truncates_witness :
  let app := DICOMViewerApp.with_current_slice Samples.loaded_app 5 in
  DICOMViewerApp.is_loaded app = true /\
  DICOMViewerApp.current_slice
    (DICOMViewerApp.on_mouse_drag_right (DICOMViewerApp.on_mouse_down_right app 100) 95)
  = clamp (DICOMViewerApp.current_slice app + - Z.quot (95 - 100) 10) 0
      (DICOMViewerApp.get_max_slice_index app (DICOMViewerApp.current_view app)).
Proof.
  split; [reflexivity|].
  apply (scrub_delta_truncates (DICOMViewerApp.with_current_slice Samples.loaded_app 5) 100 95).
  reflexivity.
Defined.

(** ** Aspect ratio and the absent-volume fallbacks *)



(** After [load_series], the loader is marked loaded only when the header
    carries its spacing entries and a volume is stored. *)
Lemma load_series_loaded_header (st : DICOMDataLoader.t) (dcm_files : list dcm_file) :
  let st' := fst (load_series st dcm_files) in
  is_loaded st' = true ->
  exists spacing thickness v,
    hdr_PixelSpacing (header_info st') = Some spacing /\
    hdr_SliceThickness (header_info st') = Some thickness /\
    full_hu_volume st' = Some v.
Proof.
  unfold load_series.
  destruct dcm_files as [|f fs]; [simpl; discriminate|].
  destruct (_sort_dicom_series (f :: fs)) as [[|ds0 rest]|e]; try (simpl; discriminate).
  unfold _process_data.
  destruct (fill_volume _ _ _ _ _ _) as [[vol all_hu] [e|]].
  - simpl. discriminate.
  - destruct all_hu as [|h all_hu].
    + simpl. intros _. do 3 eexists. repeat split; reflexivity.
    + destruct (np_min (concat (h :: all_hu)));
        destruct (np_max (concat (h :: all_hu))); simpl; intros _;
        do 3 eexists; repeat split; reflexivity.
Qed.

Lemma reachable_loaded_header (st : DICOMDataLoader.t) :
  reachable st ->
  is_loaded st = true ->
  exists spacing thickness v,
    hdr_PixelSpacing (header_info st) = Some spacing /\
    hdr_SliceThickness (header_info st) = Some thickness /\
    full_hu_volume st = Some v.
Proof.
  intros [|st0 files _]; [simpl; discriminate|].
  apply load_series_loaded_header.
Qed.

(** C10. For every loader in which no volume is loaded, and for every
    plane selector and index, [get_slice_data] returns [None] without
    raising and [get_aspect_ratio] returns 1.0; the same two results are
    returned by every loader the program can hold, loaded or not, when the
    plane selector is not one of the three recognised planes. *)
Theorem absent_volume_fallbacks :
  (forall (st : DICOMDataLoader.t) (view_plane : string) (index : Z),
     is_loaded st = false ->
     get_slice_data st view_plane index = Ok None
     /\ get_aspect_ratio st view_plane = Ok 1%Q)
  /\ (forall (st : DICOMDataLoader.t) (view_plane : string) (index : Z),
        reachable st ->
        recognized_plane view_plane = false ->
        get_slice_data st view_plane index = Ok None
        /\ get_aspect_ratio st view_plane = Ok 1%Q).
Proof.
  split.
  - intros st view_plane index Hl.
    unfold get_slice_data, get_aspect_ratio. rewrite Hl. split; reflexivity.
  - intros st view_plane index Hr Hp.
    unfold recognized_plane in Hp.
    apply orb_false_iff in Hp. destruct Hp as [Hp Hs].
    apply orb_false_iff in Hp. destruct Hp as [Ha Hc].
    unfold get_slice_data, get_aspect_ratio. rewrite Ha, Hc, Hs.
    destruct (is_loaded st) eqn:Hl; simpl; [|split; reflexivity].
    destruct (reachable_loaded_header st Hr Hl) as (sp & th & v & H1 & H2 & _).
    rewrite H1, H2. split; reflexivity.
Qed.

Lemma absent_volume_fallbacks_witness :
  (get_slice_data DICOMDataLoader.init "Axial" 3 = Ok None
   /\ get_aspect_ratio DICOMDataLoader.init "Axial" = Ok 1%Q)
  /\ (get_slice_data (fst (load_series DICOMDataLoader.init Samples.ten_slices)) "Oblique" 3
        = Ok None
      /\ get_aspect_ratio (fst (load_series DICOMDataLoader.init Samples.ten_slices)) "Oblique"
        = Ok 1%Q).
Proof.
  split.
  - apply (proj1 absent_volume_fallbacks DICOMDataLoader.init "Axial" 3).
    reflexivity.
  - apply (proj2 absent_volume_fallbacks
             (fst (load_series DICOMDataLoader.init Samples.ten_slices)) "Oblique" 3).
    + apply reachable_load. exact reachable_init.
    + reflexivity.
Defined.

(** ** Volume assembly *)

Section VolumeAssembly.

Variables R_slope R_int : Q.

Lemma vol_assign_shape (v v' : Volume) (i : nat) (hu : matrix Q) :
  vol_assign v i hu = Ok v' -> vol_shape v' = vol_shape v.
Proof.
  unfold vol_assign. destruct (broadcastable _ _ _); [|discriminate].
  intro H. injection H as <-. reflexivity.
Qed.

Lemma vol_assign_raises (v : Volume) (i : nat) (hu : matrix Q) :
  broadcastable (shape hu) (vol_R v) (vol_C v) = false ->
  vol_assign v i hu = Raise ValueError.
Proof.
  intro H. unfold vol_assign. rewrite H. reflexivity.
Qed.

Lemma shape_hu_array (ds : Dataset) :
  shape (hu_array R_slope R_int ds) = shape (pixel_array ds).
Proof.
  unfold hu_array, shape. rewrite length_map.
  destruct (pixel_array ds) as [|r m]; simpl; [reflexivity|].
  rewrite length_map. reflexivity.
Qed.

Lemma fill_volume_shape (dss : list Dataset) :
  forall (i : nat) (vol : Volume) (acc : list (list Q)),
    vol_shape (fst (fst (fill_volume R_slope R_int i dss vol acc))) = vol_shape vol.
Proof.
  induction dss as [|ds dss IH]; intros i vol acc; simpl; [reflexivity|].
  destruct (vol_assign vol i (hu_array R_slope R_int ds)) as [vol'|e] eqn:E; simpl.
  - rewrite IH. exact (vol_assign_shape _ _ _ _ E).
  - reflexivity.
Qed.

(** The loop raises as soon as one image cannot be broadcast into its
    slot. *)
Lemma fill_volume_raises (dss : list Dataset) :
  forall (i : nat) (vol : Volume) (acc : list (list Q)),
    Exists (fun ds => broadcastable (shape (pixel_array ds)) (vol_R vol) (vol_C vol) = false) dss ->
    snd (fill_volume R_slope R_int i dss vol acc) = Some ValueError.
Proof.
  induction dss as [|ds dss IH]; intros i vol acc Hex.
  - inversion Hex.
  - simpl.
    destruct (vol_assign vol i (hu_array R_slope R_int ds)) as [vol'|e] eqn:E.
    + apply IH. inversion Hex as [? ? Hbad|? ? Hrest]; subst.
      * unfold vol_assign in E. rewrite shape_hu_array, Hbad in E. discriminate.
      * pose proof (vol_assign_shape _ _ _ _ E) as Hs.
        unfold vol_R, vol_C in *. rewrite Hs. exact Hrest.
    + simpl. unfold vol_assign in E.
      destruct (broadcastable _ _ _); [discriminate|]. injection E as <-. reflexivity.
Qed.

Lemma fill_volume_appends (dss : list Dataset) :
  forall (i : nat) (vol : Volume) (acc : list (list Q)),
    exists more, snd (fst (fill_volume R_slope R_int i dss vol acc)) = (acc ++ more)%list.
Proof.
  induction dss as [|ds dss IH]; intros i vol acc; simpl.
  - exists []. rewrite app_nil_r. reflexivity.
  - destruct (vol_assign vol i (hu_array R_slope R_int ds)) as [vol'|e]; simpl.
    + destruct (IH (S i) vol' (acc ++ [ravel (hu_array R_slope R_int ds)])%list) as [more Hm].
      exists (ravel (hu_array R_slope R_int ds) :: more).
      rewrite Hm, <- app_assoc. reflexivity.
    + exists []. rewrite app_nil_r. reflexivity.
Qed.

Lemma broadcastable_nonempty (hu : matrix Q) (R C : nat) :
  broadcastable (shape hu) R C = true -> (1 <= R)%nat -> (1 <= C)%nat ->
  ravel hu <> [].
Proof.
  unfold broadcastable, shape, ravel. simpl. intros H HR HC.
  apply andb_true_iff in H. destruct H as [H1 H2].
  apply orb_true_iff in H1. apply orb_true_iff in H2.
  rewrite !Nat.eqb_eq in H1, H2.
  destruct hu as [|[|x r] m]; simpl in *; try lia.
  discriminate.
Qed.

(** With at least one row and one column in the slots, a loop that
    finishes has collected at least one sample. *)
Lemma fill_volume_collects (ds : Dataset) (dss : list Dataset) (i : nat) (vol vol' : Volume)
    (acc acc' : list (list Q)) :
  fill_volume R_slope R_int i (ds :: dss) vol acc = (vol', acc', None) ->
  (1 <= vol_R vol)%nat -> (1 <= vol_C vol)%nat ->
  concat acc' <> [].
Proof.
  simpl. intros H HR HC.
  destruct (vol_assign vol i (hu_array R_slope R_int ds)) as [vol1|e] eqn:E;
    [|discriminate].
  destruct (fill_volume_appends dss (S i) vol1
              (acc ++ [ravel (hu_array R_slope R_int ds)])%list) as [more Hm].
  rewrite H in Hm. simpl in Hm. subst acc'.
  rewrite !concat_app. simpl. rewrite app_nil_r.
  unfold vol_assign in E.
  destruct (broadcastable _ _ _) eqn:B; [|discriminate].
  pose proof (broadcastable_nonempty _ _ _ B HR HC) as Hne.
  intro Habs. apply app_eq_nil in Habs. destruct Habs as [Habs _].
  apply app_eq_nil in Habs. destruct Habs as [_ Habs]. contradiction.
Qed.

Lemma list_set_length {A : Type} (i : nat) (x : A) (l : list A) :
  length (list_set i x l) = length l.
Proof.
  revert i. induction l as [|y l IH]; intros [|i]; simpl; try reflexivity.
  rewrite IH. reflexivity.
Qed.

Lemma nth_list_set_eq {A : Type} (i : nat) (x d : A) (l : list A) :
  (i < length l)%nat -> nth i (list_set i x l) d = x.
Proof.
  revert i. induction l as [|y l IH]; intros [|i] H; simpl in *; try lia.
  - reflexivity.
  - apply IH. lia.
Qed.

Lemma nth_list_set_neq {A : Type} (i j : nat) (x d : A) (l : list A) :
  i <> j -> nth j (list_set i x l) d = nth j l d.
Proof.
  revert i j. induction l as [|y l IH]; intros [|i] [|j] H; simpl; try reflexivity.
  - contradiction.
  - apply IH. lia.
Qed.

(** A loop that finishes has stored, at every depth it visited, the
    broadcast calibrated samples of the image met at that depth, cast to
    [float32], and has left the earlier depths alone. *)
Lemma fill_volume_stores (dss : list Dataset) :
  forall (i : nat) (vol vol' : Volume) (acc acc' : list (list Q)),
    fill_volume R_slope R_int i dss vol acc = (vol', acc', None) ->
    (i + length dss <= length (vol_data vol))%nat ->
    length (vol_data vol') = length (vol_data vol)
    /\ (forall j, (j < i)%nat -> nth j (vol_data vol') [] = nth j (vol_data vol) [])
    /\ (forall k ds, nth_error dss k = Some ds ->
          nth (i + k) (vol_data vol') []
          = map (map float32)
              (broadcast_to 0%Q (vol_R vol) (vol_C vol) (hu_array R_slope R_int ds))).
Proof.
  induction dss as [|ds dss IH]; intros i vol vol' acc acc' H Hlen; simpl in *.
  - injection H as <- <-. repeat split; try reflexivity.
    intros [|k] ds' Hk; discriminate.
  - destruct (vol_assign vol i (hu_array R_slope R_int ds)) as [vol1|e] eqn:E;
      [|discriminate].
    pose proof (vol_assign_shape _ _ _ _ E) as Hshape.
    unfold vol_assign in E. destruct (broadcastable _ _ _); [|discriminate].
    injection E as E. 
    assert (Hd : vol_data vol1
                 = list_set i (map (map float32)
                                 (broadcast_to 0%Q (vol_R vol) (vol_C vol)
                                    (hu_array R_slope R_int ds))) (vol_data vol))
      by (rewrite <- E; reflexivity).
    assert (Hl1 : length (vol_data vol1) = length (vol_data vol))
      by (rewrite Hd; apply list_set_length).
    destruct (IH (S i) vol1 vol' _ acc' H) as (L & Before & At); [lia|].
    split; [congruence|]. split.
    + intros j Hj. rewrite Before by lia. rewrite Hd.
      apply nth_list_set_neq. lia.
    + intros [|k] ds' Hk; simpl in Hk.
      * injection Hk as <-. rewrite Nat.add_0_r, Before by lia.
        rewrite Hd. apply nth_list_set_eq. lia.
      * replace (i + S k)%nat with (S i + k)%nat by lia.
        rewrite (At k ds' Hk). unfold vol_R, vol_C. rewrite Hshape. reflexivity.
Qed.



End VolumeAssembly.


Lemma np_min_raises (l : list Q) (e : exn) : np_min l = Raise e -> l = [].
Proof. destruct l; [reflexivity|discriminate]. Qed.

Lemma np_max_raises (l : list Q) (e : exn) : np_max l = Raise e -> l = [].
Proof. destruct l; [reflexivity|discriminate]. Qed.

(** What a call of [_process_data] that returns normally has done. *)
Lemma process_data_returns (self self' : DICOMDataLoader.t) (ds0 : Dataset) (rest : list Dataset) :
  _process_data self (ds0 :: rest) = (self', None) ->
  exists vol acc,
    fill_volume (get_or (RescaleSlope ds0) 1%Q) (get_or (RescaleIntercept ds0) 0%Q) 0
      (ds0 :: rest)
      (np_zeros (length (ds0 :: rest)) (get_or (Rows ds0) 0%nat) (get_or (Columns ds0) 0%nat))
      [] = (vol, acc, None)
    /\ is_loaded self' = true
    /\ full_hu_volume self' = Some vol
    /\ hdr_NumSlices (header_info self') = Some (length (ds0 :: rest))
    /\ hdr_Rows (header_info self') = Some (get_or (Rows ds0) 0%nat)
    /\ hdr_Columns (header_info self') = Some (get_or (Columns ds0) 0%nat).
Proof.
  unfold _process_data.
  destruct (fill_volume _ _ _ _ _ _) as [[vol acc] [e|]] eqn:F; [discriminate|].
  intro H. exists vol, acc. split; [reflexivity|].
  destruct acc as [|h acc].
  - injection H as <-. simpl. repeat split; reflexivity.
  - destruct (np_min (concat (h :: acc))); destruct (np_max (concat (h :: acc)));
      try discriminate.
    injection H as <-. simpl. repeat split; reflexivity.
Qed.

(** A call of [_process_data] whose loop raises leaves the loaded flag as
    it found it. *)
Lemma process_data_loop_raises (self : DICOMDataLoader.t) (ds0 : Dataset) (rest : list Dataset)
    (e : exn) :
  snd (fill_volume (get_or (RescaleSlope ds0) 1%Q) (get_or (RescaleIntercept ds0) 0%Q) 0
         (ds0 :: rest)
         (np_zeros (length (ds0 :: rest)) (get_or (Rows ds0) 0%nat) (get_or (Columns ds0) 0%nat))
         []) = Some e ->
  snd (_process_data self (ds0 :: rest)) = Some e
  /\ is_loaded (fst (_process_data self (ds0 :: rest))) = is_loaded self.
Proof.
  unfold _process_data.
  destruct (fill_volume _ _ _ _ _ _) as [[vol acc] raised].
  simpl. intros ->. split; reflexivity.
Qed.

(** With at least one row and one column declared by the first image, a
    call of [_process_data] that raises has raised inside the loop, and
    the loaded flag is as it was. *)
Lemma process_data_raises_unloaded (self : DICOMDataLoader.t) (ds0 : Dataset)
    (rest : list Dataset) (self' : DICOMDataLoader.t) (e : exn) :
  (1 <= get_or (Rows ds0) 0)%nat -> (1 <= get_or (Columns ds0) 0)%nat ->
  _process_data self (ds0 :: rest) = (self', Some e) ->
  is_loaded self' = is_loaded self.
Proof.
  intros HR HC. unfold _process_data.
  destruct (fill_volume _ _ _ _ _ _) as [[vol acc] [e'|]] eqn:F.
  - intro H. injection H as <- _. reflexivity.
  - pose proof (fill_volume_collects _ _ _ _ _ _ _ _ _ F HR HC) as Hne.
    destruct acc as [|h acc]; [discriminate|].
    destruct (np_min (concat (h :: acc))) eqn:Emin.
    + destruct (np_max (concat (h :: acc))) eqn:Emax; [discriminate|].
      apply np_max_raises in Emax. contradiction.
    + apply np_min_raises in Emin. contradiction.
Qed.

(** ** load_series *)

Lemma sort_nonempty_files (dcm_files : list dcm_file) (ds0 : Dataset) (rest : list Dataset) :
  _sort_dicom_series dcm_files = Ok (ds0 :: rest) -> dcm_files <> [].
Proof.
  intros H ->. discriminate.
Qed.

Lemma load_series_resolved (st : DICOMDataLoader.t) (dcm_files : list dcm_file)
    (ds0 : Dataset) (rest : list Dataset) :
  _sort_dicom_series dcm_files = Ok (ds0 :: rest) ->
  load_series st dcm_files =
    match _process_data DICOMDataLoader.init (ds0 :: rest) with
    | (self, Some e) => (self, (MsgConvertError e, false))
    | (self, None) =>
        if is_loaded self then
          (self, (MsgLoaded (hdr_NumSlices (header_info self))
                            (hdr_Rows (header_info self))
                            (hdr_Columns (header_info self)), true))
        else (self, (MsgProcessingProblem, false))
    end.
Proof.
  intro H. pose proof (sort_nonempty_files _ _ _ H) as Hne.
  unfold load_series. destruct dcm_files as [|f fs]; [contradiction|].
  rewrite H. reflexivity.
Qed.

(** A successful [load_series] leaves a loaded volume whose shape is what
    the header announces, with at least one slice. *)
Lemma load_series_success (st : DICOMDataLoader.t) (dcm_files : list dcm_file) :
  snd (snd (load_series st dcm_files)) = true ->
  let st' := fst (load_series st dcm_files) in
  exists v,
    is_loaded st' = true
    /\ full_hu_volume st' = Some v
    /\ hdr_NumSlices (header_info st') = Some (vol_D v)
    /\ hdr_Rows (header_info st') = Some (vol_R v)
    /\ hdr_Columns (header_info st') = Some (vol_C v)
    /\ (1 <= vol_D v)%nat
    /\ length (vol_data v) = vol_D v.
Proof.
  destruct (_sort_dicom_series dcm_files) as [[|ds0 rest]|e] eqn:S.
  - unfold load_series. destruct dcm_files; rewrite ?S; simpl; discriminate.
  - rewrite (load_series_resolved st _ _ _ S).
    destruct (_process_data DICOMDataLoader.init (ds0 :: rest)) as [self' [e|]] eqn:P;
      [simpl; discriminate|].
    destruct (process_data_returns _ _ _ _ P) as (vol & acc & F & Hl & Hv & Hn & Hr & Hc).
    rewrite Hl. simpl. intros _. exists vol.
    pose proof (fill_volume_shape (get_or (RescaleSlope ds0) 1%Q)
                  (get_or (RescaleIntercept ds0) 0%Q) (ds0 :: rest) 0
                  (np_zeros (length (ds0 :: rest)) (get_or (Rows ds0) 0%nat)
                     (get_or (Columns ds0) 0%nat)) []) as Hs.
    rewrite F in Hs. simpl in Hs.
    destruct (fill_volume_stores _ _ _ _ _ _ _ _ F) as (Hlen & _ & _).
    { simpl. rewrite repeat_length. lia. }
    unfold vol_D, vol_R, vol_C. rewrite Hs. simpl.
    repeat split; try assumption; try lia.
    rewrite Hlen. simpl. rewrite repeat_length. reflexivity.
  - unfold load_series. destruct dcm_files; rewrite ?S; simpl; discriminate.
Qed.

(** The claim of C1 fails on the simplest failing call: with a volume of
    ten slices loaded, [load_series] on a folder without DICOM files
    reports failure and leaves no volume and no header behind. *)
Lemma failed_load_discards_volume :
  let st := Samples.loaded_loader in
  let st' := fst (load_series st []) in
  is_loaded st = true
  /\ get_slice_data st "Axial" 0 = Ok (Some (repeat (repeat 0%Q 4) 3))
  /\ snd (load_series st []) = (MsgNoDicomFiles, false)
  /\ full_hu_volume st' = None
  /\ full_hu_volume st' <> full_hu_volume st
  /\ header_info st' <> header_info st
  /\ get_slice_data st' "Axial" 0 = Ok None.
Proof.
  vm_compute. repeat split; try reflexivity; discriminate.
Qed.

(** C1, amended. [load_series] first resets the loader, so its outcome
    never depends on the state it is called in, and a failing call does
    not retain the volume loaded before: when no files are found or no
    valid series is identified the loader is left in its initial state,
    and after any failing call in which the first image of the resolved
    series declares at least one row and one column the loader is left
    unloaded, [get_slice_data] returning [None] and [get_aspect_ratio]
    returning 1.0 for every plane and index. *)
Theorem failed_load_leaves_unloaded :
  forall (st : DICOMDataLoader.t) (dcm_files : list dcm_file),
    snd (snd (load_series st dcm_files)) = false ->
    (forall ds0 rest, _sort_dicom_series dcm_files = Ok (ds0 :: rest) ->
       (1 <= get_or (Rows ds0) 0)%nat /\ (1 <= get_or (Columns ds0) 0)%nat) ->
    let st' := fst (load_series st dcm_files) in
    (forall st0, load_series st0 dcm_files = load_series st dcm_files)
    /\ (fst (snd (load_series st dcm_files)) = MsgNoDicomFiles
        \/ fst (snd (load_series st dcm_files)) = MsgNoValidSeries ->
        st' = DICOMDataLoader.init)
    /\ is_loaded st' = false
    /\ (forall view_plane index,
          get_slice_data st' view_plane index = Ok None
          /\ get_aspect_ratio st' view_plane = Ok 1%Q).
Proof.
  intros st dcm_files Hfail Hdims st'.
  assert (Hindep : forall st0, load_series st0 dcm_files = load_series st dcm_files)
    by reflexivity.
  assert (Hl : is_loaded st' = false
               /\ (fst (snd (load_series st dcm_files)) = MsgNoDicomFiles
                   \/ fst (snd (load_series st dcm_files)) = MsgNoValidSeries ->
                   st' = DICOMDataLoader.init)).
  { subst st'. revert Hfail.
    destruct (_sort_dicom_series dcm_files) as [[|ds0 rest]|e] eqn:S.
    - unfold load_series. destruct dcm_files; rewrite ?S; simpl; auto.
    - destruct (Hdims ds0 rest eq_refl) as [HR HC].
      rewrite (load_series_resolved st _ _ _ S).
      destruct (_process_data DICOMDataLoader.init (ds0 :: rest)) as [self' [e|]] eqn:P.
      + simpl. intros _. split.
        * rewrite (process_data_raises_unloaded _ _ _ _ _ HR HC P). reflexivity.
        * intros [H|H]; discriminate.
      + destruct (is_loaded self') eqn:E; simpl; [discriminate|].
        intros _. split; [exact E|]. intros [H|H]; discriminate.
    - unfold load_series. destruct dcm_files; rewrite ?S; simpl; auto. }
  destruct Hl as [Hl Hinit].
  split; [exact Hindep|]. split; [exact Hinit|]. split; [exact Hl|].
  intros view_plane index.
  unfold get_slice_data, get_aspect_ratio. rewrite Hl. split; reflexivity.
Qed.

Lemma failed_load_leaves_unloaded_witness :
  let st' := fst (load_series Samples.loaded_loader Samples.three_rows_second) in
  snd (snd (load_series Samples.loaded_loader Samples.three_rows_second)) = false
  /\ is_loaded st' = false
  /\ get_slice_data st' "Axial" 0 = Ok None.
Proof.
  split; [reflexivity|].
  destruct (failed_load_leaves_unloaded Samples.loaded_loader Samples.three_rows_second)
    as (_ & _ & Hl & Hq).
  - reflexivity.
  - intros ds0 rest H. vm_compute in H. injection H as <- _. split; vm_compute; lia.
  - split; [exact Hl|]. exact (proj1 (Hq "Axial" 0)).
Defined.







(** The claim of C3 fails when the deviating image has a single row: after
    a first image of two rows, a second image of one row is broadcast over
    both rows of its slot, and the load reports success. *)
Lemma single_row_image_is_accepted :
  let res := load_series DICOMDataLoader.init Samples.one_row_second in
  (exists ds0 ds1,
     _sort_dicom_series Samples.one_row_second = Ok [ds0; ds1]
     /\ Rows ds0 = Some 2%nat /\ shape (pixel_array ds0) = (2, 2)%nat
     /\ Rows ds1 = Some 1%nat /\ shape (pixel_array ds1) = (1, 2)%nat)
  /\ forallb well_formed (candidates Samples.one_row_second) = true
  /\ snd (snd res) = true
  /\ snd (snd res) <> false
  /\ is_loaded (fst res) = true
  /\ get_slice_data (fst res) "Axial" 1 = Ok (Some [[5; 6]; [5; 6]]%Q).
Proof.
  split.
  - do 2 eexists. vm_compute. repeat split; reflexivity.
  - vm_compute. repeat split; try reflexivity. discriminate.
Qed.

(** C3, amended. For every input in whose resolved series some image has a
    row count that is neither the first image's nor one, or a column count
    that is neither the first image's nor one, the volume build fails with
    a reported error: [load_series] returns the conversion-error message
    with the failure flag, the loader is not marked loaded, and no slice of
    the partly filled volume is returned to a consumer. *)
Theorem geometry_mismatch_aborts_load :
  forall (st : DICOMDataLoader.t) (dcm_files : list dcm_file)
         (ds0 : Dataset) (rest : list Dataset),
    _sort_dicom_series dcm_files = Ok (ds0 :: rest) ->
    Exists (fun ds =>
              (fst (shape (pixel_array ds)) <> get_or (Rows ds0) 0
               /\ fst (shape (pixel_array ds)) <> 1)%nat
              \/ (snd (shape (pixel_array ds)) <> get_or (Columns ds0) 0
                  /\ snd (shape (pixel_array ds)) <> 1)%nat)
           (ds0 :: rest) ->
    let st' := fst (load_series st dcm_files) in
    snd (load_series st dcm_files) = (MsgConvertError ValueError, false)
    /\ is_loaded st' = false
    /\ (forall view_plane index, get_slice_data st' view_plane index = Ok None).
Proof.
  intros st dcm_files ds0 rest S Hex st'. subst st'.
  rewrite (load_series_resolved st _ _ _ S).
  assert (Hraise :
    snd (fill_volume (get_or (RescaleSlope ds0) 1%Q) (get_or (RescaleIntercept ds0) 0%Q) 0
           (ds0 :: rest)
           (np_zeros (length (ds0 :: rest)) (get_or (Rows ds0) 0%nat)
              (get_or (Columns ds0) 0%nat)) []) = Some ValueError).
  { apply fill_volume_raises.
    eapply Exists_impl; [|exact Hex].
    intros ds Hds. unfold broadcastable, vol_R, vol_C. simpl.
    apply andb_false_iff.
    destruct Hds as [[H1 H2]|[H1 H2]]; [left|right];
      apply orb_false_iff; split; apply Nat.eqb_neq; assumption. }
  destruct (process_data_loop_raises DICOMDataLoader.init ds0 rest ValueError Hraise)
    as [Hs Hl].
  destruct (_process_data DICOMDataLoader.init (ds0 :: rest)) as [self' r].
  simpl in Hs, Hl. subst r. simpl.
  split; [reflexivity|]. split; [exact Hl|].
  intros view_plane index. unfold get_slice_data. rewrite Hl. reflexivity.
Qed.

Lemma geometry_mismatch_aborts_load_witness :
  let st' := fst (load_series Samples.loaded_loader Samples.three_rows_second) in
  snd (load_series Samples.loaded_loader Samples.three_rows_second)
    = (MsgConvertError ValueError, false)
  /\ is_loaded st' = false
  /\ (forall view_plane index, get_slice_data st' view_plane index = Ok None).
Proof.
  apply (geometry_mismatch_aborts_load Samples.loaded_loader Samples.three_rows_second
           (Samples.image "A" 0 1 0 [[1; 2]; [3; 4]])
           [Samples.image "A" 1 1 0 [[5; 6]; [7; 8]; [9; 10]]]).
  - reflexivity.
  - apply Exists_cons_tl. apply Exists_cons_hd. left. simpl. split; lia.
Defined.

(** ** The index invariant *)

Section IndexInvariant.

Import DICOMViewerApp.

Lemma get_max_slice_index_loader (a b : DICOMViewerApp.t) (view_plane : string) :
  data_loader a = data_loader b ->
  get_max_slice_index a view_plane = get_max_slice_index b view_plane.
Proof.
  unfold get_max_slice_index. intros ->. reflexivity.
Qed.

Lemma set_current_slice_in_range (app : DICOMViewerApp.t) (new_slice : Z) :
  0 <= get_max_slice_index app (current_view app) ->
  index_in_range (set_current_slice app new_slice).
Proof.
  intro Hmax. unfold index_in_range.
  destruct (set_current_slice_keeps app new_slice) as [Hl Hv].
  rewrite set_current_slice_clamps, Hv.
  rewrite (get_max_slice_index_loader _ app _ Hl).
  unfold clamp. lia.
Qed.

Lemma reset_slice_scale_spec (app : DICOMViewerApp.t) :
  current_slice (reset_slice_scale app)
    = (if current_slice app >? get_max_slice_index app (current_view app)
       then 0 else current_slice app)
  /\ current_view (reset_slice_scale app) = current_view app
  /\ data_loader (reset_slice_scale app) = data_loader app.
Proof.
  unfold reset_slice_scale.
  destruct (current_slice app >? get_max_slice_index app (current_view app));
    simpl; repeat split; reflexivity.
Qed.

Lemma reset_slice_scale_in_range (app : DICOMViewerApp.t) :
  0 <= get_max_slice_index app (current_view app) ->
  0 <= current_slice app ->
  index_in_range (reset_slice_scale app).
Proof.
  intros Hmax Hcur. unfold index_in_range.
  destruct (reset_slice_scale_spec app) as (Hc & Hv & Hl).
  rewrite Hc, Hv, (get_max_slice_index_loader _ app _ Hl).
  destruct (Z.gtb_spec (current_slice app) (get_max_slice_index app (current_view app))); lia.
Qed.

Lemma handle_keeps_loader (app : DICOMViewerApp.t) (ev : event) :
  data_loader (handle app ev) = data_loader app.
Proof.
  destruct ev as [x y|x y|y|y|delta [d|]|v|v]; simpl.
  - unfold on_mouse_down. destruct (is_loaded app); reflexivity.
  - unfold on_mouse_drag. destruct (is_loaded app); reflexivity.
  - unfold on_mouse_down_right. destruct (is_loaded app); reflexivity.
  - unfold on_mouse_drag_right. destruct (is_loaded app); [|reflexivity].
    apply set_current_slice_keeps.
  - unfold on_mouse_wheel. destruct (is_loaded app); simpl; [|reflexivity].
    apply set_current_slice_keeps.
  - unfold on_mouse_wheel. destruct (is_loaded app); simpl; [|reflexivity].
    destruct (delta =? 0); simpl; [reflexivity|]. apply set_current_slice_keeps.
  - unfold update_slice. destruct (negb _); [|reflexivity].
    apply set_current_slice_keeps.
  - unfold change_view. destruct (is_loaded app); [|reflexivity].
    destruct (reset_slice_scale_spec (with_current_view app v)) as (_ & _ & Hl).
    rewrite Hl. reflexivity.
Qed.

Lemma handle_in_range (app : DICOMViewerApp.t) (ev : event) :
  (forall view_plane, 0 <= get_max_slice_index app view_plane) ->
  index_in_range app ->
  index_in_range (handle app ev).
Proof.
  intros Hmax Hin.
  destruct ev as [x y|x y|y|y|delta [d|]|v|v]; simpl.
  - unfold on_mouse_down. destruct (is_loaded app); exact Hin.
  - unfold on_mouse_drag. destruct (is_loaded app); exact Hin.
  - unfold on_mouse_down_right. destruct (is_loaded app); exact Hin.
  - unfold on_mouse_drag_right. destruct (is_loaded app); [|exact Hin].
    apply set_current_slice_in_range, Hmax.
  - unfold on_mouse_wheel. destruct (is_loaded app); simpl; [|exact Hin].
    apply set_current_slice_in_range, Hmax.
  - unfold on_mouse_wheel. destruct (is_loaded app); simpl; [|exact Hin].
    destruct (delta =? 0); simpl; [exact Hin|].
    apply set_current_slice_in_range, Hmax.
  - unfold update_slice. destruct (negb _); [|exact Hin].
    apply set_current_slice_in_range, Hmax.
  - unfold change_view. destruct (is_loaded app); [|exact Hin].
    apply reset_slice_scale_in_range.
    + apply (Hmax v).
    + apply Hin.
Qed.

Lemma run_in_range (evs : list event) :
  forall app : DICOMViewerApp.t,
    (forall view_plane, 0 <= get_max_slice_index app view_plane) ->
    index_in_range app ->
    data_loader (run app evs) = data_loader app /\ index_in_range (run app evs).
Proof.
  unfold run.
  induction evs as [|ev evs IH]; intros app Hmax Hin; simpl.
  - split; [reflexivity|exact Hin].
  - pose proof (handle_keeps_loader app ev) as Hl.
    destruct (IH (handle app ev)) as [Hl' Hin'].
    + intro v. rewrite (get_max_slice_index_loader _ app v Hl). apply Hmax.
    + apply handle_in_range; assumption.
    + split; [congruence|exact Hin'].
Qed.

(** A successful [load_dicom_folder] installs the new loader and leaves
    an index that lies on the chosen axis. *)
Lemma load_dicom_folder_success (app0 : DICOMViewerApp.t) (dcm_files : list dcm_file)
    (view_var : string) :
  snd (snd (load_series (data_loader app0) dcm_files)) = true ->
  let app1 := fst (load_dicom_folder app0 (Some dcm_files) view_var) in
  data_loader app1 = fst (load_series (data_loader app0) dcm_files)
  /\ ((forall view_plane, 0 <= get_max_slice_index app1 view_plane) ->
      0 <= current_slice app0 -> index_in_range app1).
Proof.
  unfold load_dicom_folder.
  destruct (load_series (data_loader app0) dcm_files) as [loader [message success]].
  simpl. intros ->.
  match goal with
  | |- context [reset_slice_scale ?a] => set (self1 := a)
  end.
  destruct (reset_slice_scale_spec self1) as (Hc & Hv & Hl).
  destruct (update_image (reset_slice_scale self1)); simpl.
  - destruct (set_current_slice_keeps (reset_slice_scale self1) 0) as [Hl' Hv'].
    split; [rewrite Hl', Hl; reflexivity|].
    intros Hmax _. apply set_current_slice_in_range.
    rewrite <- Hv', <- (get_max_slice_index_loader _ _ _ Hl'). apply Hmax.
  - split; [rewrite Hl; reflexivity|].
    intros Hmax Hcur. apply reset_slice_scale_in_range.
    + rewrite <- Hv, <- (get_max_slice_index_loader _ _ _ Hl). apply Hmax.
    + exact Hcur.
Qed.

End IndexInvariant.

(** C9. For every volume loaded through [load_dicom_folder], with at
    least one row and one column, and every sequence of interaction
    events (contrast and scrub gestures, wheel steps, slider changes, axis
    changes), the current index stays within [0, axis_extent - 1] for the
    active axis, where the greatest index is D - 1 for the depth plane,
    R - 1 for the row plane and C - 1 for the column plane of the volume's
    shape (D, R, C); an axis change resets the index to 0 if the index
    held before exceeds the new axis's extent minus one and keeps it
    otherwise. *)
Theorem index_stays_within_extent :
  forall (app0 : DICOMViewerApp.t) (dcm_files : list dcm_file) (view_var : string)
         (v : Volume) (evs : list DICOMViewerApp.event),
    0 <= DICOMViewerApp.current_slice app0 ->
    snd (snd (load_series (DICOMViewerApp.data_loader app0) dcm_files)) = true ->
    let app1 := fst (DICOMViewerApp.load_dicom_folder app0 (Some dcm_files) view_var) in
    full_hu_volume (DICOMViewerApp.data_loader app1) = Some v ->
    (1 <= vol_R v)%nat -> (1 <= vol_C v)%nat ->
    let app := DICOMViewerApp.run app1 evs in
    (DICOMViewerApp.get_max_slice_index app "Axial" = Z.of_nat (vol_D v) - 1
     /\ DICOMViewerApp.get_max_slice_index app "Coronal" = Z.of_nat (vol_R v) - 1
     /\ DICOMViewerApp.get_max_slice_index app "Sagittal" = Z.of_nat (vol_C v) - 1)
    /\ index_in_range app
    /\ (forall view_plane,
          DICOMViewerApp.current_slice (DICOMViewerApp.change_view app view_plane)
            = (if DICOMViewerApp.current_slice app
                    >? DICOMViewerApp.get_max_slice_index app view_plane
               then 0 else DICOMViewerApp.current_slice app)
          /\ DICOMViewerApp.current_view (DICOMViewerApp.change_view app view_plane)
             = view_plane).
Proof.
  intros app0 dcm_files view_var v evs Hcur Hok app1 Hv HR HC app.
  destruct (load_dicom_folder_success app0 dcm_files view_var Hok) as [Hl1 Hin1].
  fold app1 in Hl1, Hin1.
  destruct (load_series_success _ _ Hok) as (v' & Hl & Hv' & Hn & Hr & Hc & HD & _).
  rewrite <- Hl1 in Hl, Hv', Hn, Hr, Hc.
  rewrite Hv in Hv'. injection Hv' as <-.
  assert (Hext : forall a, DICOMViewerApp.data_loader a = DICOMViewerApp.data_loader app1 ->
            DICOMViewerApp.get_max_slice_index a "Axial" = Z.of_nat (vol_D v) - 1
            /\ DICOMViewerApp.get_max_slice_index a "Coronal" = Z.of_nat (vol_R v) - 1
            /\ DICOMViewerApp.get_max_slice_index a "Sagittal" = Z.of_nat (vol_C v) - 1).
  { intros a Ha. unfold DICOMViewerApp.get_max_slice_index. rewrite Ha, Hn, Hr, Hc.
    simpl. repeat split; reflexivity. }
  assert (Hmax : forall a, DICOMViewerApp.data_loader a = DICOMViewerApp.data_loader app1 ->
            forall view_plane, 0 <= DICOMViewerApp.get_max_slice_index a view_plane).
  { intros a Ha view_plane. unfold DICOMViewerApp.get_max_slice_index.
    rewrite Ha, Hn, Hr, Hc. simpl.
    destruct (String.eqb view_plane "Axial"); [lia|].
    destruct (String.eqb view_plane "Coronal"); [lia|].
    destruct (String.eqb view_plane "Sagittal"); lia. }
  destruct (run_in_range evs app1 (Hmax app1 eq_refl) (Hin1 (Hmax app1 eq_refl) Hcur))
    as [Hla Hin].
  fold app in Hla, Hin.
  split; [exact (Hext app Hla)|]. split; [exact Hin|].
  intro view_plane.
  assert (Hload : DICOMViewerApp.is_loaded app = true).
  { unfold DICOMViewerApp.is_loaded. rewrite Hla. exact Hl. }
  unfold DICOMViewerApp.change_view. rewrite Hload.
  destruct (reset_slice_scale_spec (DICOMViewerApp.with_current_view app view_plane))
    as (Hc' & Hv' & _).
  rewrite Hc', Hv'. simpl. split; reflexivity.
Qed.

Lemma index_stays_within_extent_witness :
  index_in_range
    (DICOMViewerApp.run
       (fst (DICOMViewerApp.load_dicom_folder DICOMViewerApp.init
               (Some Samples.ten_slices) "Axial"))
       [DICOMViewerApp.Wheel 0 (Some 7); DICOMViewerApp.AxisChange "Coronal";
        DICOMViewerApp.ScrubPress 50; DICOMViewerApp.ScrubDrag 20;
        DICOMViewerApp.SliderChange 9; DICOMViewerApp.AxisChange "Axial"]).
Proof.
  refine (proj1 (proj2
    (index_stays_within_extent DICOMViewerApp.init Samples.ten_slices "Axial"
       {| vol_shape := (10, 3, 4)%nat;
          vol_data := map (fun i => repeat (repeat (inject_Z (Z.of_nat i)) 4) 3)
                          (seq 0 10) |}
       [DICOMViewerApp.Wheel 0 (Some 7); DICOMViewerApp.AxisChange "Coronal";
        DICOMViewerApp.ScrubPress 50; DICOMViewerApp.ScrubDrag 20;
        DICOMViewerApp.SliderChange 9; DICOMViewerApp.AxisChange "Axial"]
       _ _ _ _ _))).
  - vm_compute. discriminate.
  - reflexivity.
  - reflexivity.
  - vm_compute. lia.
  - vm_compute. lia.
Defined.

(** ** The series resolver *)

Section SeriesResolver.

Lemma uid_eqb_eq (a b : series_key) : uid_eqb a b = true <-> a = b.
Proof.
  destruct a as [x|], b as [y|]; simpl; split; intro H;
    try discriminate; try reflexivity.
  - apply String.eqb_eq in H. congruence.
  - injection H as ->. apply String.eqb_refl.
Qed.

Lemma uid_eqb_refl (a : series_key) : uid_eqb a a = true.
Proof. apply uid_eqb_eq. reflexivity. Qed.

Lemma uid_eqb_neq (a b : series_key) : uid_eqb a b = false <-> a <> b.
Proof.
  split.
  - intros H E. apply uid_eqb_eq in E. congruence.
  - intro H. destruct (uid_eqb a b) eqn:E; [|reflexivity].
    apply uid_eqb_eq in E. contradiction.
Qed.

(** *** The series map as a dictionary *)

Lemma series_map_get_append (key : series_key) (item : Q * Dataset) (m : series_map)
    (k : series_key) :
  series_map_get (series_map_append key item m) k
  = if uid_eqb k key then Some (get_or (series_map_get m key) [] ++ [item])%list
    else series_map_get m k.
Proof.
  induction m as [|[k0 l0] m IH]; simpl.
  - destruct (uid_eqb k key); reflexivity.
  - destruct (uid_eqb key k0) eqn:E0; simpl.
    + apply uid_eqb_eq in E0. subst k0.
      destruct (uid_eqb k key); reflexivity.
    + rewrite IH. destruct (uid_eqb k k0) eqn:E1; [|reflexivity].
      apply uid_eqb_eq in E1. subst k0.
      destruct (uid_eqb k key) eqn:E2; [|reflexivity].
      apply uid_eqb_eq in E2. subst k. rewrite uid_eqb_refl in E0. discriminate.
Qed.

Lemma series_map_keys_append (key : series_key) (item : Q * Dataset) (m : series_map) :
  (In key (map fst m) -> map fst (series_map_append key item m) = map fst m)
  /\ (~ In key (map fst m) ->
      map fst (series_map_append key item m) = (map fst m ++ [key])%list).
Proof.
  induction m as [|[k0 l0] m [IH1 IH2]]; simpl.
  - split; [contradiction|reflexivity].
  - destruct (uid_eqb key k0) eqn:E0; simpl.
    + apply uid_eqb_eq in E0. subst k0. split; [reflexivity|].
      intro H. exfalso. apply H. left. reflexivity.
    + apply uid_eqb_neq in E0. split.
      * intros [H|H]; [congruence|]. rewrite IH1 by exact H. reflexivity.
      * intro H. rewrite IH2; [reflexivity|]. intro Hin. apply H. right. exact Hin.
Qed.

Lemma series_map_get_none (m : series_map) (k : series_key) :
  series_map_get m k = None -> ~ In k (map fst m).
Proof.
  induction m as [|[k0 l0] m IH]; simpl; [tauto|].
  destruct (uid_eqb k k0) eqn:E; [discriminate|].
  apply uid_eqb_neq in E. intros H [Hin|Hin]; [congruence|]. exact (IH H Hin).
Qed.

(** *** The loop over the files *)

Lemma fold_scan_candidates (dcm_files : list dcm_file) :
  forall m, fold_left scan_file dcm_files m
            = fold_left add_candidate (candidates dcm_files) m.
Proof.
  induction dcm_files as [|[ds|] fs IH]; intro m; simpl.
  - reflexivity.
  - destruct (PixelData ds); simpl; apply IH.
  - apply IH.
Qed.

Lemma partition_of_snoc (k : series_key) (seen : list Dataset) (ds : Dataset) :
  partition_of k (seen ++ [ds])
  = (partition_of k seen ++ (if in_series k ds then [ds] else []))%list.
Proof.
  unfold partition_of. rewrite filter_app. simpl.
  destruct (in_series k ds); reflexivity.
Qed.

Lemma in_series_own (ds : Dataset) : in_series (SeriesInstanceUID ds) ds = true.
Proof. apply uid_eqb_refl. Qed.

Lemma in_partition_own (ds : Dataset) (l : list Dataset) :
  In ds l -> partition_of (SeriesInstanceUID ds) l <> [].
Proof.
  intros Hin Hnil.
  assert (H : In ds (partition_of (SeriesInstanceUID ds) l)).
  { apply filter_In. split; [exact Hin|apply in_series_own]. }
  rewrite Hnil in H. exact H.
Qed.

Lemma snoc_split {A : Type} (a b keys : list A) (k key : A) :
  (a ++ k :: b)%list = (keys ++ [key])%list ->
  (b = [] /\ a = keys /\ k = key)
  \/ (exists b', b = (b' ++ [key])%list /\ keys = (a ++ k :: b')%list).
Proof.
  destruct b as [|x b _] using rev_ind; intro H.
  - left. apply (app_inj_tail a keys k key) in H. destruct H as [-> ->].
    repeat split; reflexivity.
  - right. rewrite app_comm_cons, app_assoc in H.
    apply app_inj_tail in H. destruct H as [<- <-].
    exists b. split; reflexivity.
Qed.

End SeriesResolver.

Lemma series_key_eq_dec (a b : series_key) : {a = b} + {a <> b}.
Proof.
  destruct (uid_eqb a b) eqn:E.
  - left. apply uid_eqb_eq. exact E.
  - right. apply uid_eqb_neq. exact E.
Qed.

Lemma map_of_empty : map_of [] [].
Proof.
  unfold map_of. simpl. repeat split.
  - contradiction.
  - intro H. exfalso. apply H. reflexivity.
  - intros a k b H. destruct a; discriminate.
Qed.

Lemma map_of_step (m : series_map) (seen : list Dataset) (ds : Dataset) :
  map_of m seen -> map_of (add_candidate m ds) (seen ++ [ds]).
Proof.
  intros (Hget & Hkeys & Horder). unfold add_candidate.
  set (key := SeriesInstanceUID ds).
  set (item := (z_pos ds, ds)).
  destruct (series_map_keys_append key item m) as [Kin Kout].
  split; [|split].
  - intro k. rewrite series_map_get_append, partition_of_snoc.
    unfold items. rewrite map_app. fold (items (partition_of k seen)).
    unfold in_series. fold key.
    destruct (uid_eqb k key) eqn:E; simpl.
    + apply uid_eqb_eq in E. subst k. rewrite uid_eqb_refl. simpl.
      rewrite Hget. reflexivity.
    + assert (E' : uid_eqb key k = false).
      { apply uid_eqb_neq. apply uid_eqb_neq in E. congruence. }
      rewrite E'. simpl. rewrite app_nil_r. apply Hget.
  - intro k. rewrite partition_of_snoc. unfold in_series. fold key.
    destruct (in_dec series_key_eq_dec key (map fst m)) as [Hin|Hout].
    + rewrite (Kin Hin). rewrite Hkeys. split.
      * intros Hne Habs. apply app_eq_nil in Habs. tauto.
      * intros Hne Hnil. destruct (uid_eqb key k) eqn:E.
        -- apply uid_eqb_eq in E. subst k. apply Hkeys in Hin. contradiction.
        -- rewrite Hnil in Hne. simpl in Hne. contradiction.
    + rewrite (Kout Hout), in_app_iff, Hkeys. simpl. split.
      * intros [Hne|[<-|[]]] Habs; apply app_eq_nil in Habs.
        -- tauto.
        -- rewrite uid_eqb_refl in Habs. destruct Habs; discriminate.
      * intro Hne. destruct (uid_eqb key k) eqn:E.
        -- apply uid_eqb_eq in E. right. left. exact E.
        -- left. intro Hnil. rewrite Hnil in Hne. simpl in Hne. contradiction.
  - intros a k b Hsplit.
    destruct (in_dec series_key_eq_dec key (map fst m)) as [Hin|Hout].
    + rewrite (Kin Hin) in Hsplit.
      destruct (Horder a k b Hsplit) as (p & d & q & -> & Hd & Hp).
      exists p, d, (q ++ [ds])%list. rewrite <- app_assoc. simpl.
      repeat split; assumption.
    + rewrite (Kout Hout) in Hsplit.
      destruct (snoc_split _ _ _ _ _ (eq_sym Hsplit)) as [(-> & -> & ->)|(b' & -> & Hm)].
      * exists seen, ds, []. repeat split.
        intros d' Hd'. apply Hkeys. apply in_partition_own. exact Hd'.
      * destruct (Horder a k b' Hm) as (p & d & q & -> & Hd & Hp).
        exists p, d, (q ++ [ds])%list. rewrite <- app_assoc. simpl.
        repeat split; assumption.
Qed.

Lemma map_of_fold (rest : list Dataset) :
  forall (m : series_map) (seen : list Dataset),
    map_of m seen -> map_of (fold_left add_candidate rest m) (seen ++ rest).
Proof.
  induction rest as [|ds rest IH]; intros m seen H; simpl.
  - rewrite app_nil_r. exact H.
  - replace (seen ++ ds :: rest)%list with ((seen ++ [ds]) ++ rest)%list
      by (rewrite <- app_assoc; reflexivity).
    apply IH. apply map_of_step. exact H.
Qed.

Lemma build_series_map_spec (dcm_files : list dcm_file) :
  map_of (build_series_map dcm_files) (candidates dcm_files).
Proof.
  unfold build_series_map. rewrite fold_scan_candidates.
  apply (map_of_fold (candidates dcm_files) [] [] map_of_empty).
Qed.

(** *** max with a key *)

Lemma fold_max_key {A : Type} (f : A -> nat) (l : list A) :
  forall best : A,
    let r := fold_left (fun best y => if (f best <? f y)%nat then y else best) l best in
    (r = best /\ forall y, In y l -> (f y <= f best)%nat)
    \/ (exists a b, l = (a ++ r :: b)%list
                    /\ (f best < f r)%nat
                    /\ (forall y, In y a -> (f y < f r)%nat)
                    /\ (forall y, In y b -> (f y <= f r)%nat)).
Proof.
  induction l as [|y l IH]; intro best; simpl.
  - left. split; [reflexivity|contradiction].
  - destruct (Nat.ltb_spec (f best) (f y)) as [Hlt|Hge].
    + right. destruct (IH y) as [[Hr Hall]|(a & b & Hl & Hy & Ha & Hb)].
      * exists [], l. rewrite Hr. simpl. repeat split; try assumption. contradiction.
      * exists (y :: a), b. rewrite Hl at 1. simpl. repeat split.
        -- lia.
        -- intros z [<-|Hz]; [exact Hy|apply Ha; exact Hz].
        -- exact Hb.
    + destruct (IH best) as [[Hr Hall]|(a & b & Hl & Hy & Ha & Hb)].
      * left. split; [exact Hr|]. intros z [<-|Hz]; [exact Hge|apply Hall; exact Hz].
      * right. exists (y :: a), b. rewrite Hl at 1. simpl. repeat split.
        -- exact Hy.
        -- intros z [<-|Hz]; [lia|apply Ha; exact Hz].
        -- exact Hb.
Qed.

(** [max(iterable, key=f)] returns a greatest element, and every element
    that comes before it is strictly smaller. *)
Lemma py_max_key_first_greatest {A : Type} (f : A -> nat) (x : A) (l : list A) :
  exists r a b,
    py_max_key f (x :: l) = Ok r
    /\ (x :: l = a ++ r :: b)%list
    /\ (forall y, In y a -> (f y < f r)%nat)
    /\ (forall y, In y (x :: l) -> (f y <= f r)%nat).
Proof.
  simpl. destruct (fold_max_key f l x) as [[Hr Hall]|(a & b & Hl & Hx & Ha & Hb)].
  - exists x, [], l. rewrite Hr. simpl. repeat split; try contradiction.
    intros y [<-|Hy]; [lia|apply Hall; exact Hy].
  - eexists _, (x :: a), b. split; [reflexivity|]. split; [|split].
    + simpl. f_equal. exact Hl.
    + intros y [<-|Hy]; [exact Hx|apply Ha; exact Hy].
    + intros y [<-|Hy]; [lia|].
      rewrite Hl in Hy. apply in_app_iff in Hy. destruct Hy as [Hy|[<-|Hy]].
      * apply Nat.lt_le_incl, Ha. exact Hy.
      * lia.
      * apply Hb. exact Hy.
Qed.

(** *** The stable sort *)

Lemma insort_perm (x : Q * Dataset) (l : list (Q * Dataset)) :
  Permutation (insort x l) (x :: l).
Proof.
  induction l as [|y l IH]; simpl; [apply Permutation_refl|].
  destruct (Qle_bool (fst x) (fst y)); [apply Permutation_refl|].
  eapply Permutation_trans; [apply perm_skip; exact IH|apply perm_swap].
Qed.

Lemma sort_by_z_perm (l : list (Q * Dataset)) : Permutation (sort_by_z l) l.
Proof.
  induction l as [|x l IH]; simpl; [apply Permutation_refl|].
  eapply Permutation_trans; [apply insort_perm|apply perm_skip; exact IH].
Qed.

Lemma insort_sorted (x : Q * Dataset) (l : list (Q * Dataset)) :
  StronglySorted (fun a b => (fst a <= fst b)%Q) l ->
  StronglySorted (fun a b => (fst a <= fst b)%Q) (insort x l).
Proof.
  induction l as [|y l IH]; intro Hs; simpl.
  - constructor; constructor.
  - inversion Hs as [|? ? Hl Hy]; subst.
    destruct (Qle_bool (fst x) (fst y)) eqn:E.
    + apply Qle_bool_iff in E. constructor; [exact Hs|].
      constructor; [exact E|].
      eapply Forall_impl; [|exact Hy]. intros z Hz. simpl in Hz.
      eapply Qle_trans; eassumption.
    + constructor; [apply IH; exact Hl|].
      assert (Hyx : (fst y <= fst x)%Q).
      { apply Qlt_le_weak. apply Qltb_lt. unfold Qltb. rewrite E. reflexivity. }
      eapply Permutation_Forall; [apply Permutation_sym, insort_perm|].
      constructor; assumption.
Qed.

Lemma sort_by_z_sorted (l : list (Q * Dataset)) :
  StronglySorted (fun a b => (fst a <= fst b)%Q) (sort_by_z l).
Proof.
  induction l as [|x l IH]; simpl; [constructor|].
  apply insort_sorted. exact IH.
Qed.

(** Insertion never moves an element past one of equal key. *)
Lemma insort_stable (z : Q) (x : Q * Dataset) (l : list (Q * Dataset)) :
  filter (fun p => Qeq_bool (fst p) z) (insort x l)
  = filter (fun p => Qeq_bool (fst p) z) (x :: l).
Proof.
  induction l as [|y l IH]; [reflexivity|].
  simpl insort. destruct (Qle_bool (fst x) (fst y)) eqn:E; [reflexivity|].
  simpl in *. rewrite IH.
  destruct (Qeq_bool (fst x) z) eqn:Ex; destruct (Qeq_bool (fst y) z) eqn:Ey;
    try reflexivity.
  apply Qeq_bool_iff in Ex. apply Qeq_bool_iff in Ey.
  assert (Hle : (fst x <= fst y)%Q) by (rewrite Ex, Ey; apply Qle_refl).
  apply Qle_bool_iff in Hle. congruence.
Qed.

Lemma sort_by_z_stable (z : Q) (l : list (Q * Dataset)) :
  filter (fun p => Qeq_bool (fst p) z) (sort_by_z l)
  = filter (fun p => Qeq_bool (fst p) z) l.
Proof.
  induction l as [|x l IH]; [reflexivity|].
  simpl sort_by_z. rewrite insort_stable. simpl. rewrite IH. reflexivity.
Qed.

(** *** From pairs back to images *)

Lemma map_snd_items (l : list Dataset) : map snd (items l) = l.
Proof.
  unfold items. rewrite map_map. simpl. apply map_id.
Qed.

Lemma items_keyed (l : list Dataset) :
  Forall (fun p => fst p = z_pos (snd p)) (items l).
Proof.
  unfold items. apply Forall_map, Forall_forall. intros ds _. reflexivity.
Qed.

Lemma filter_depth_pairs (z : Q) (l : list (Q * Dataset)) :
  Forall (fun p => fst p = z_pos (snd p)) l ->
  filter (at_depth z) (map snd l) = map snd (filter (fun p => Qeq_bool (fst p) z) l).
Proof.
  induction 1 as [|p l Hp _ IH]; simpl; [reflexivity|].
  unfold at_depth at 1. rewrite <- Hp.
  destruct (Qeq_bool (fst p) z); simpl; rewrite IH; reflexivity.
Qed.

Lemma sorted_pairs_depth (l : list (Q * Dataset)) :
  Forall (fun p => fst p = z_pos (snd p)) l ->
  StronglySorted (fun a b => (fst a <= fst b)%Q) l ->
  StronglySorted depth_le (map snd l).
Proof.
  intros Hk Hs. induction Hs as [|p l Hs IH Hall]; simpl; [constructor|].
  inversion Hk as [|? ? Hp Hl]; subst.
  constructor; [apply IH; exact Hl|].
  apply Forall_map. rewrite Forall_forall in *.
  intros q Hq. unfold depth_le. rewrite <- Hp, <- (Hl q Hq). apply Hall. exact Hq.
Qed.

(** C4. For every non-empty collection of candidate images, the resolver
    partitions the candidates by series identity, selects the partition
    with the largest member count, the series seen first winning ties
    (every series seen before the selected one is strictly smaller), and
    returns its members sorted by ascending depth position with a stable
    sort: the result is a permutation of the partition, in ascending
    depth order, and the candidates at any one depth position keep their
    encountered order. *)
Theorem resolver_selects_largest_series_sorted :
  forall dcm_files : list dcm_file,
    candidates dcm_files <> [] ->
    exists (uid : series_key) (resolved : list Dataset),
      _sort_dicom_series dcm_files = Ok resolved
      /\ (forall k, (member_count k (candidates dcm_files)
                     <= member_count uid (candidates dcm_files))%nat)
      /\ (exists before d after,
            candidates dcm_files = (before ++ d :: after)%list
            /\ SeriesInstanceUID d = uid
            /\ forall d', In d' before ->
                 (member_count (SeriesInstanceUID d') (candidates dcm_files)
                  < member_count uid (candidates dcm_files))%nat)
      /\ Permutation resolved (partition_of uid (candidates dcm_files))
      /\ StronglySorted depth_le resolved
      /\ (forall z, filter (at_depth z) resolved
                    = filter (at_depth z) (partition_of uid (candidates dcm_files))).
Proof.
  intros dcm_files Hne.
  destruct (build_series_map_spec dcm_files) as (Hget & Hkeys & Horder).
  unfold _sort_dicom_series.
  set (m := build_series_map dcm_files) in *.
  set (cands := candidates dcm_files) in *.
  assert (Hcount : forall k, length (get_or (series_map_get m k) []) = member_count k cands).
  { intro k. rewrite Hget. unfold items, member_count. apply length_map. }
  assert (Hm : m <> []).
  { destruct cands as [|d cands'] eqn:Ec; [contradiction|].
    assert (Hin : In (SeriesInstanceUID d) (map fst m)).
    { apply Hkeys. apply in_partition_own. left. reflexivity. }
    intro Habs. rewrite Habs in Hin. exact Hin. }
  destruct m as [|e m'] eqn:Em; [contradiction|].
  destruct (py_max_key_first_greatest
              (fun k => length (get_or (series_map_get (e :: m') k) [])) (fst e) (map fst m'))
    as (uid & a & b & Hmax & Hsplit & Ha & Hall).
  cbv beta iota zeta.
  change (map fst (e :: m')) with (fst e :: map fst m').
  rewrite Hmax. cbn [bind].
  assert (Hin : In uid (map fst (e :: m'))).
  { change (map fst (e :: m')) with (fst e :: map fst m'). rewrite Hsplit.
    apply in_or_app. right. left. reflexivity. }
  destruct (series_map_get (e :: m') uid) as [main_series|] eqn:Eget.
  2:{ exfalso. exact (series_map_get_none _ _ Eget Hin). }
  assert (Hmain : main_series = items (partition_of uid cands)).
  { rewrite <- Hget, Eget. reflexivity. }
  cbn [bind]. exists uid, (map snd (sort_by_z main_series)).
  split; [reflexivity|]. subst main_series.
  split; [|split; [|split; [|split]]].
  - intro k. rewrite <- !Hcount, Eget.
    destruct (in_dec series_key_eq_dec k (map fst (e :: m'))) as [Hk|Hk].
    + apply Hall. exact Hk.
    + assert (Hnil : partition_of k cands = []).
      { destruct (partition_of k cands) eqn:Ep; [reflexivity|].
        exfalso. apply Hk. apply Hkeys. rewrite Ep. discriminate. }
      rewrite (Hget k), Hnil. simpl. lia.
  - destruct (Horder a uid b Hsplit) as (p & d & q & Hc & Hd & Hp).
    exists p, d, q. split; [exact Hc|]. split; [exact Hd|].
    intros d' Hd'. rewrite <- !Hcount, Eget. apply Ha. apply Hp. exact Hd'.
  - rewrite <- (map_snd_items (partition_of uid cands)) at 2.
    apply Permutation_map. apply sort_by_z_perm.
  - apply sorted_pairs_depth; [|apply sort_by_z_sorted].
    eapply Permutation_Forall; [apply Permutation_sym, sort_by_z_perm|].
    apply items_keyed.
  - intro z. rewrite filter_depth_pairs.
    + rewrite sort_by_z_stable, <- filter_depth_pairs by apply items_keyed.
      rewrite map_snd_items. reflexivity.
    + eapply Permutation_Forall; [apply Permutation_sym, sort_by_z_perm|].
      apply items_keyed.
Qed.

Lemma resolver_selects_largest_series_sorted_witness :
  exists (uid : series_key) (resolved : list Dataset),
    _sort_dicom_series Samples.mixed_folder = Ok resolved
    /\ (forall k, (member_count k (candidates Samples.mixed_folder)
                   <= member_count uid (candidates Samples.mixed_folder))%nat)
    /\ (exists before d after,
          candidates Samples.mixed_folder = (before ++ d :: after)%list
          /\ SeriesInstanceUID d = uid
          /\ forall d', In d' before ->
               (member_count (SeriesInstanceUID d') (candidates Samples.mixed_folder)
                < member_count uid (candidates Samples.mixed_folder))%nat)
    /\ Permutation resolved (partition_of uid (candidates Samples.mixed_folder))
    /\ StronglySorted depth_le resolved
    /\ (forall z, filter (at_depth z) resolved
                  = filter (at_depth z) (partition_of uid (candidates Samples.mixed_folder))).
Proof.
  apply (resolver_selects_largest_series_sorted Samples.mixed_folder).
  vm_compute. discriminate.
Defined.

(** ** The scenarios of the description, evaluated *)

(** Three images, two of series "A" and one of series "B": the resolver
    returns the two images of "A" by ascending depth. *)
Example scenario_resolver :
  match _sort_dicom_series Samples.mixed_folder with
  | Ok resolved =>
      map SeriesInstanceUID resolved = [Some "A"; Some "A"]
      /\ map z_pos resolved = [1%Q; 3%Q]
  | Raise _ => False
  end.
Proof. vm_compute. split; reflexivity. Qed.

(** Slope 1, intercept -1024 and a stored sample of 1024 at (0, 0): the
    volume holds 0 there. *)
Example scenario_calibration :
  match get_slice_data (fst (load_series DICOMDataLoader.init Samples.mixed_folder)) "Axial" 1 with
  | Ok (Some slice) => nth 0 (nth 0 slice []) 1%Q = 0%Q
  | _ => False
  end.
Proof. vm_compute. reflexivity. Qed.

(** Samples -2000, 0 and 2000 under level 0 and width 400. *)
Example scenario_windowing :
  DICOMViewerApp.apply_window 0 400 [[(-2000)%Q; 0%Q; 2000%Q]] = [[0; 127; 255]].
Proof. vm_compute. reflexivity. Qed.

(** A wheel step of -1 from index 5 of ten slices, and from index 0. *)
Example scenario_wheel_step :
  let at5 := DICOMViewerApp.with_current_slice Samples.loaded_app 5 in
  DICOMViewerApp.current_slice (DICOMViewerApp.on_mouse_wheel at5 0 (Some (-1))) = 4
  /\ DICOMViewerApp.current_slice
       (DICOMViewerApp.on_mouse_wheel Samples.loaded_app 0 (Some (-1))) = 0.
Proof. vm_compute. split; reflexivity. Qed.

(** ** Further properties of the loader *)

(** *** The shape of the volume *)

Lemma broadcast_row_length {A : Type} (d : A) (C : nat) (r : list A) :
  length (broadcast_row d C r) = C.
Proof.
  unfold broadcast_row. destruct (Nat.eqb_spec (length r) C) as [E|E].
  - exact E.
  - apply repeat_length.
Qed.

Lemma broadcast_to_shape {A : Type} (d : A) (R C : nat) (m : matrix A) :
  broadcastable (shape m) R C = true ->
  length (broadcast_to d R C m) = R
  /\ Forall (fun r => length r = C) (broadcast_to d R C m).
Proof.
  unfold broadcastable, shape, broadcast_to. cbn [fst snd]. intro H.
  apply andb_true_iff in H. destruct H as [H1 _].
  assert (Hrows : Forall (fun r => length r = C) (map (broadcast_row d C) m)).
  { apply Forall_map, Forall_forall. intros r _. apply broadcast_row_length. }
  destruct (Nat.eqb_spec (length m) R) as [E|E].
  - split; [rewrite length_map; exact E|exact Hrows].
  - split; [apply repeat_length|].
    simpl in H1. apply Nat.eqb_eq in H1.
    destruct m as [|r m]; [discriminate|]. simpl.
    apply Forall_forall. intros x Hx. apply repeat_spec in Hx. subst x.
    apply broadcast_row_length.
Qed.

Lemma Forall_list_set {A : Type} (P : A -> Prop) (i : nat) (x : A) (l : list A) :
  P x -> Forall P l -> Forall P (list_set i x l).
Proof.
  intros Hx Hl. revert i. induction Hl as [|y l Hy Hl IH]; intros [|i]; simpl;
    constructor; auto.
Qed.

Lemma np_zeros_well_shaped (D R C : nat) : well_shaped (np_zeros D R C).
Proof.
  unfold well_shaped, np_zeros, vol_D, vol_R, vol_C. simpl.
  split; [apply repeat_length|].
  apply Forall_forall. intros sl Hsl. apply repeat_spec in Hsl. subst sl.
  split; [apply repeat_length|].
  apply Forall_forall. intros r Hr. apply repeat_spec in Hr. subst r.
  apply repeat_length.
Qed.

Lemma vol_assign_well_shaped (v v' : Volume) (i : nat) (hu : matrix Q) :
  vol_assign v i hu = Ok v' -> well_shaped v -> well_shaped v'.
Proof.
  unfold vol_assign. destruct (broadcastable _ _ _) eqn:B; [|discriminate].
  intro H. injection H as <-. intros [Hlen Hall].
  destruct (broadcast_to_shape 0%Q _ _ _ B) as [Hr Hc].
  unfold well_shaped, vol_D, vol_R, vol_C in *. simpl.
  split; [rewrite list_set_length; exact Hlen|].
  apply Forall_list_set; [|exact Hall].
  split; [rewrite length_map; exact Hr|].
  apply Forall_map. eapply Forall_impl; [|exact Hc].
  intros r Hlr. rewrite length_map. exact Hlr.
Qed.

(** The loop keeps the data of the volume in agreement with its shape,
    whether it finishes or raises. *)
Lemma fill_volume_well_shaped (R_slope R_int : Q) (dss : list Dataset) :
  forall (i : nat) (vol : Volume) (acc : list (list Q)),
    well_shaped vol ->
    well_shaped (fst (fst (fill_volume R_slope R_int i dss vol acc))).
Proof.
  induction dss as [|ds dss IH]; intros i vol acc Hw; simpl; [exact Hw|].
  destruct (vol_assign vol i (hu_array R_slope R_int ds)) as [vol'|e] eqn:E; simpl.
  - apply IH. exact (vol_assign_well_shaped _ _ _ _ E Hw).
  - exact Hw.
Qed.

(** X1. After a successful [load_series] the volume has shape
    (number of images of the resolved series, Rows of its first image,
    Columns of its first image), and its data agree with that shape: one
    slice per image, every slice with that many rows of that many
    samples. *)
Theorem loaded_volume_shape :
  forall (st : DICOMDataLoader.t) (dcm_files : list dcm_file),
    snd (snd (load_series st dcm_files)) = true ->
    exists ds0 rest v,
      _sort_dicom_series dcm_files = Ok (ds0 :: rest)
      /\ full_hu_volume (fst (load_series st dcm_files)) = Some v
      /\ vol_shape v = (length (ds0 :: rest), get_or (Rows ds0) 0%nat,
                        get_or (Columns ds0) 0%nat)
      /\ well_shaped v.
Proof.
  intros st dcm_files.
  destruct (_sort_dicom_series dcm_files) as [[|ds0 rest]|e] eqn:S.
  - unfold load_series. destruct dcm_files; rewrite ?S; simpl; discriminate.
  - rewrite (load_series_resolved st _ _ _ S).
    destruct (_process_data DICOMDataLoader.init (ds0 :: rest)) as [self' [e|]] eqn:P;
      [simpl; discriminate|].
    destruct (process_data_returns _ _ _ _ P) as (vol & acc & F & Hl & Hv & _).
    rewrite Hl. simpl. intros _. exists ds0, rest, vol.
    split; [reflexivity|]. split; [exact Hv|].
    pose proof (fill_volume_shape (get_or (RescaleSlope ds0) 1%Q)
                  (get_or (RescaleIntercept ds0) 0%Q) (ds0 :: rest) 0
                  (np_zeros (length (ds0 :: rest)) (get_or (Rows ds0) 0%nat)
                     (get_or (Columns ds0) 0%nat)) []) as Hs.
    pose proof (fill_volume_well_shaped (get_or (RescaleSlope ds0) 1%Q)
                  (get_or (RescaleIntercept ds0) 0%Q) (ds0 :: rest) 0
                  (np_zeros (length (ds0 :: rest)) (get_or (Rows ds0) 0%nat)
                     (get_or (Columns ds0) 0%nat)) []
                  (np_zeros_well_shaped _ _ _)) as Hw.
    rewrite F in Hs, Hw. simpl in Hs, Hw. split; assumption.
  - unfold load_series. destruct dcm_files; rewrite ?S; simpl; discriminate.
Qed.

Lemma loaded_volume_shape_witness :
  exists ds0 rest v,
    _sort_dicom_series Samples.ten_slices = Ok (ds0 :: rest)
    /\ full_hu_volume (fst (load_series DICOMDataLoader.init Samples.ten_slices)) = Some v
    /\ vol_shape v = (length (ds0 :: rest), get_or (Rows ds0) 0%nat,
                      get_or (Columns ds0) 0%nat)
    /\ well_shaped v.
Proof.
  apply (loaded_volume_shape DICOMDataLoader.init Samples.ten_slices).
  reflexivity.
Defined.

(** *** Reslicing *)

Lemma np_index_in_range (n : nat) (i : nat) :
  (i < n)%nat -> np_index n (Z.of_nat i) = Ok i.
Proof.
  intro H. unfold np_index.
  destruct (Z.leb_spec 0 (Z.of_nat i)); [|lia].
  destruct (Z.ltb_spec (Z.of_nat i) (Z.of_nat n)); [|lia].
  simpl. rewrite Nat2Z.id. reflexivity.
Qed.

Lemma nth_nil {A : Type} (i : nat) (d : A) : nth i [] d = d.
Proof. destruct i; reflexivity. Qed.

Lemma nth_map_default {A B : Type} (f : A -> B) (l : list A) (i : nat) (d : A) (d' : B) :
  f d = d' -> nth i (map f l) d' = f (nth i l d).
Proof. intros <-. apply map_nth. Qed.

(** X2. On a loaded volume whose data agree with its shape (D, R, C), and
    for indices d < D, r < R and c < C, the depth-plane reslice at d has R
    rows, the row-plane reslice at r and the column-plane reslice at c
    have D rows, and the three reslices hold the same sample where they
    meet: entry (r, c) of the first, entry (d, c) of the second and entry
    (d, r) of the third are all Volume[d][r][c]. *)
Theorem reslices_meet_at_voxel :
  forall (st : DICOMDataLoader.t) (v : Volume) (d r c : nat),
    is_loaded st = true ->
    full_hu_volume st = Some v ->
    well_shaped v ->
    (d < vol_D v)%nat -> (r < vol_R v)%nat -> (c < vol_C v)%nat ->
    exists axial coronal sagittal,
      get_slice_data st "Axial" (Z.of_nat d) = Ok (Some axial)
      /\ get_slice_data st "Coronal" (Z.of_nat r) = Ok (Some coronal)
      /\ get_slice_data st "Sagittal" (Z.of_nat c) = Ok (Some sagittal)
      /\ length axial = vol_R v
      /\ length coronal = vol_D v
      /\ length sagittal = vol_D v
      /\ nth c (nth r axial []) 0%Q = nth c (nth r (nth d (vol_data v) []) []) 0%Q
      /\ nth c (nth d coronal []) 0%Q = nth c (nth r (nth d (vol_data v) []) []) 0%Q
      /\ nth r (nth d sagittal []) 0%Q = nth c (nth r (nth d (vol_data v) []) []) 0%Q.
Proof.
  intros st v d r c Hl Hv [Hlen Hall] Hd Hr Hc.
  unfold get_slice_data. rewrite Hl, Hv. simpl.
  rewrite (np_index_in_range _ _ Hd), (np_index_in_range _ _ Hr),
    (np_index_in_range _ _ Hc). simpl.
  do 3 eexists. repeat split.
  - rewrite Forall_forall in Hall. apply Hall. apply nth_In. lia.
  - rewrite length_map. exact Hlen.
  - rewrite length_map. exact Hlen.
  - rewrite (nth_map_default (fun sl : matrix Q => nth r sl []) _ d [] [])
      by apply nth_nil.
    reflexivity.
  - rewrite (nth_map_default (map (fun row : list Q => nth c row 0%Q)) _ d [] [])
      by reflexivity.
    rewrite (nth_map_default (fun row : list Q => nth c row 0%Q) _ r [] 0%Q)
      by apply nth_nil.
    reflexivity.
Qed.

Lemma reslices_meet_at_voxel_witness :
  exists axial coronal sagittal,
    get_slice_data Samples.loaded_loader "Axial" (Z.of_nat 7) = Ok (Some axial)
    /\ get_slice_data Samples.loaded_loader "Coronal" (Z.of_nat 2) = Ok (Some coronal)
    /\ get_slice_data Samples.loaded_loader "Sagittal" (Z.of_nat 3) = Ok (Some sagittal)
    /\ nth 3 (nth 2 axial []) 0%Q = nth 3 (nth 7 coronal []) 0%Q
    /\ nth 3 (nth 7 coronal []) 0%Q = nth 2 (nth 7 sagittal []) 0%Q.
Proof.
  destruct (reslices_meet_at_voxel Samples.loaded_loader
              {| vol_shape := (10, 3, 4)%nat;
                 vol_data := map (fun i => repeat (repeat (inject_Z (Z.of_nat i)) 4) 3)
                                 (seq 0 10) |} 7 2 3)
    as (ax & co & sa & H1 & H2 & H3 & _ & _ & _ & E1 & E2 & E3).
  - reflexivity.
  - reflexivity.
  - split; [reflexivity|]. repeat constructor.
  - vm_compute. lia.
  - vm_compute. lia.
  - vm_compute. lia.
  - exists ax, co, sa. repeat split; try assumption; congruence.
Defined.

Lemma np_index_out_of_range (n : nat) (index : Z) :
  Z.of_nat n <= index \/ index < - Z.of_nat n -> np_index n index = Raise IndexError.
Proof.
  intro H. unfold np_index.
  destruct (Z.leb_spec 0 index); destruct (Z.ltb_spec index (Z.of_nat n));
    destruct (Z.leb_spec (- Z.of_nat n) index); destruct (Z.ltb_spec index 0);
    simpl; try reflexivity; lia.
Qed.

Lemma np_index_negative (n : nat) (index : Z) :
  - Z.of_nat n <= index < 0 -> np_index n index = np_index n (index + Z.of_nat n).
Proof.
  intro H. unfold np_index.
  destruct (Z.leb_spec 0 index); [lia|].
  destruct (Z.leb_spec (- Z.of_nat n) index); [|lia].
  destruct (Z.ltb_spec index 0); [|lia].
  destruct (Z.leb_spec 0 (index + Z.of_nat n)); [|lia].
  destruct (Z.ltb_spec (index + Z.of_nat n) (Z.of_nat n)); [|lia].
  reflexivity.
Qed.

(** X3. [get_slice_data] does not clamp its index.  On a loaded volume of
    shape (D, R, C), and for each plane with the length n of its axis
    (D for 'Axial', R for 'Coronal', C for 'Sagittal'): an index at or
    beyond n, or below -n, raises [IndexError]; an index in [-n, -1]
    counts from the end and returns what the index plus n returns. *)
Theorem reslice_index_errors :
  forall (st : DICOMDataLoader.t) (v : Volume) (view_plane : string) (n : nat) (index : Z),
    is_loaded st = true ->
    full_hu_volume st = Some v ->
    In (view_plane, n) [("Axial", vol_D v); ("Coronal", vol_R v); ("Sagittal", vol_C v)] ->
    (Z.of_nat n <= index \/ index < - Z.of_nat n ->
     get_slice_data st view_plane index = Raise IndexError)
    /\ (- Z.of_nat n <= index < 0 ->
        get_slice_data st view_plane index
        = get_slice_data st view_plane (index + Z.of_nat n)).
Proof.
  intros st v view_plane n index Hl Hv Hin.
  unfold get_slice_data. rewrite Hl, Hv. simpl.
  destruct Hin as [E|[E|[E|[]]]]; injection E as <- <-; simpl; split; intro H;
    try (rewrite (np_index_out_of_range _ _ H); reflexivity);
    rewrite (np_index_negative _ _ H); reflexivity.
Qed.

Lemma reslice_index_errors_witness :
  get_slice_data Samples.loaded_loader "Axial" 10 = Raise IndexError
  /\ get_slice_data Samples.loaded_loader "Coronal" (-1)
     = get_slice_data Samples.loaded_loader "Coronal" (-1 + Z.of_nat 3).
Proof.
  split.
  - apply (proj1 (reslice_index_errors Samples.loaded_loader
             {| vol_shape := (10, 3, 4)%nat;
                vol_data := map (fun i => repeat (repeat (inject_Z (Z.of_nat i)) 4) 3)
                                (seq 0 10) |} "Axial" 10 10 eq_refl eq_refl
             (or_introl eq_refl))).
    left. simpl. lia.
  - apply (proj2 (reslice_index_errors Samples.loaded_loader
             {| vol_shape := (10, 3, 4)%nat;
                vol_data := map (fun i => repeat (repeat (inject_Z (Z.of_nat i)) 4) 3)
                                (seq 0 10) |} "Coronal" 3 (-1) eq_refl eq_refl
             (or_intror (or_introl eq_refl)))).
    simpl. lia.
Defined.

(** *** The intensity bounds *)

Lemma fold_min_spec (l : list Q) :
  forall m : Q,
    let r := fold_left (fun m y => if Qltb y m then y else m) l m in
    (r = m \/ In r l) /\ (r <= m)%Q /\ Forall (fun y => (r <= y)%Q) l.
Proof.
  induction l as [|y l IH]; intro m; simpl.
  - split; [left; reflexivity|]. split; [apply Qle_refl|constructor].
  - destruct (Qltb y m) eqn:E.
    + destruct (IH y) as (Hin & Hle & Hall). apply Qltb_lt in E.
      split; [destruct Hin as [->|Hin]; right; [left; reflexivity|right; exact Hin]|].
      split; [eapply Qle_trans; [exact Hle|apply Qlt_le_weak; exact E]|].
      constructor; assumption.
    + destruct (IH m) as (Hin & Hle & Hall). apply Qltb_ge in E.
      split; [destruct Hin as [->|Hin]; [left; reflexivity|right; right; exact Hin]|].
      split; [exact Hle|].
      constructor; [eapply Qle_trans; eassumption|exact Hall].
Qed.

Lemma fold_max_spec (l : list Q) :
  forall m : Q,
    let r := fold_left (fun m y => if Qltb m y then y else m) l m in
    (r = m \/ In r l) /\ (m <= r)%Q /\ Forall (fun y => (y <= r)%Q) l.
Proof.
  induction l as [|y l IH]; intro m; simpl.
  - split; [left; reflexivity|]. split; [apply Qle_refl|constructor].
  - destruct (Qltb m y) eqn:E.
    + destruct (IH y) as (Hin & Hle & Hall). apply Qltb_lt in E.
      split; [destruct Hin as [->|Hin]; right; [left; reflexivity|right; exact Hin]|].
      split; [eapply Qle_trans; [apply Qlt_le_weak; exact E|exact Hle]|].
      constructor; assumption.
    + destruct (IH m) as (Hin & Hle & Hall). apply Qltb_ge in E.
      split; [destruct Hin as [->|Hin]; [left; reflexivity|right; right; exact Hin]|].
      split; [exact Hle|].
      constructor; [eapply Qle_trans; eassumption|exact Hall].
Qed.

Lemma np_min_spec (l : list Q) (lo : Q) :
  np_min l = Ok lo -> In lo l /\ Forall (fun y => (lo <= y)%Q) l.
Proof.
  destruct l as [|x l]; [discriminate|]. simpl. intro H. injection H as <-.
  destruct (fold_min_spec l x) as (Hin & Hle & Hall).
  split; [destruct Hin as [->|Hin]; [left; reflexivity|right; exact Hin]|].
  constructor; assumption.
Qed.

Lemma np_max_spec (l : list Q) (hi : Q) :
  np_max l = Ok hi -> In hi l /\ Forall (fun y => (y <= hi)%Q) l.
Proof.
  destruct l as [|x l]; [discriminate|]. simpl. intro H. injection H as <-.
  destruct (fold_max_spec l x) as (Hin & Hle & Hall).
  split; [destruct Hin as [->|Hin]; [left; reflexivity|right; exact Hin]|].
  constructor; assumption.
Qed.

(** A loop that finishes has collected the flattened calibrated samples
    of every image, in order, and every image could be broadcast. *)
Lemma fill_volume_collected (R_slope R_int : Q) (dss : list Dataset) :
  forall (i : nat) (vol vol' : Volume) (acc acc' : list (list Q)),
    fill_volume R_slope R_int i dss vol acc = (vol', acc', None) ->
    acc' = (acc ++ map (fun ds => ravel (hu_array R_slope R_int ds)) dss)%list
    /\ Forall (fun ds => broadcastable (shape (pixel_array ds)) (vol_R vol) (vol_C vol) = true)
              dss.
Proof.
  induction dss as [|ds dss IH]; intros i vol vol' acc acc' H; simpl in *.
  - injection H as _ <-. rewrite app_nil_r. split; [reflexivity|constructor].
  - destruct (vol_assign vol i (hu_array R_slope R_int ds)) as [vol1|e] eqn:E;
      [|discriminate].
    pose proof (vol_assign_shape _ _ _ _ E) as Hs.
    destruct (IH _ _ _ _ _ H) as [Hacc Hall].
    split; [rewrite Hacc, <- app_assoc; reflexivity|].
    constructor.
    + unfold vol_assign in E. rewrite shape_hu_array in E.
      destruct (broadcastable _ _ _); [reflexivity|discriminate].
    + unfold vol_R, vol_C in *. rewrite Hs in Hall. exact Hall.
Qed.

(** What a call of [_process_data] that returns normally has stored as
    intensity bounds. *)
Lemma process_data_stats (self self' : DICOMDataLoader.t) (ds0 : Dataset) (rest : list Dataset) :
  _process_data self (ds0 :: rest) = (self', None) ->
  exists lo hi,
    let samples :=
      concat (map (fun ds => ravel (hu_array (get_or (RescaleSlope ds0) 1%Q)
                                      (get_or (RescaleIntercept ds0) 0%Q) ds))
                  (ds0 :: rest)) in
    np_min samples = Ok lo /\ np_max samples = Ok hi
    /\ hdr_MinHU (header_info self') = Some lo
    /\ hdr_MaxHU (header_info self') = Some hi.
Proof.
  unfold _process_data.
  destruct (fill_volume _ _ _ _ _ _) as [[vol acc] [e|]] eqn:F; [discriminate|].
  destruct (fill_volume_collected _ _ _ _ _ _ _ _ F) as [Hacc _].
  change ([] ++ ?l)%list with l in Hacc. subst acc.
  cbn [map]. cbv zeta.
  match goal with
  | |- context [np_min ?l] => destruct (np_min l) as [lo|] eqn:Emin;
                              destruct (np_max l) as [hi|] eqn:Emax; try discriminate
  end.
  intro H. injection H as <-. exists lo, hi. simpl. repeat split; reflexivity.
Qed.





(** ** Further properties of the resolver *)

(** What [_sort_dicom_series] returns: nothing when no file is a
    candidate, and otherwise the sorted pairs of one partition that is
    not empty. *)
Lemma sort_dicom_series_resolved (dcm_files : list dcm_file) :
  (candidates dcm_files = [] /\ _sort_dicom_series dcm_files = Ok [])
  \/ (exists uid,
        partition_of uid (candidates dcm_files) <> []
        /\ _sort_dicom_series dcm_files
           = Ok (map snd (sort_by_z (items (partition_of uid (candidates dcm_files)))))).
Proof.
  destruct (build_series_map_spec dcm_files) as (Hget & Hkeys & _).
  unfold _sort_dicom_series.
  set (m := build_series_map dcm_files) in *.
  set (cands := candidates dcm_files) in *.
  destruct m as [|e m'] eqn:Em.
  - left. split; [|reflexivity].
    destruct cands as [|d cands'] eqn:Ec; [reflexivity|].
    exfalso. apply (proj2 (Hkeys (SeriesInstanceUID d))).
    apply in_partition_own. left. reflexivity.
  - right.
    destruct (py_max_key_first_greatest
                (fun k => length (get_or (series_map_get (e :: m') k) [])) (fst e)
                (map fst m'))
      as (uid & a & b & Hmax & Hsplit & _ & _).
    cbv beta iota zeta.
    change (map fst (e :: m')) with (fst e :: map fst m').
    rewrite Hmax. cbn [bind].
    assert (Hin : In uid (map fst (e :: m'))).
    { change (map fst (e :: m')) with (fst e :: map fst m'). rewrite Hsplit.
      apply in_or_app. right. left. reflexivity. }
    destruct (series_map_get (e :: m') uid) as [main_series|] eqn:Eget.
    2:{ exfalso. exact (series_map_get_none _ _ Eget Hin). }
    assert (Hmain : main_series = items (partition_of uid cands)).
    { rewrite <- Hget, Eget. reflexivity. }
    subst main_series. cbn [bind]. exists uid. split; [|reflexivity].
    apply Hkeys. exact Hin.
Qed.

Lemma sort_by_z_sorted_input (l : list (Q * Dataset)) :
  StronglySorted (fun a b => (fst a <= fst b)%Q) l -> sort_by_z l = l.
Proof.
  induction 1 as [|x l Hs IH Hall]; [reflexivity|].
  simpl. rewrite IH. destruct l as [|y l]; [reflexivity|].
  simpl. inversion Hall as [|? ? Hxy _]; subst.
  apply Qle_bool_iff in Hxy. rewrite Hxy. reflexivity.
Qed.

Lemma items_map_snd (l : list (Q * Dataset)) :
  Forall (fun p => fst p = z_pos (snd p)) l -> items (map snd l) = l.
Proof.
  induction 1 as [|[z ds] l Hp _ IH]; [reflexivity|].
  simpl in Hp. subst z. unfold items in *. simpl. rewrite IH. reflexivity.
Qed.

Lemma candidates_all_pixel_data (l : list Dataset) :
  Forall (fun ds => PixelData ds = true) l -> candidates (map Some l) = l.
Proof.
  induction 1 as [|ds l Hd _ IH]; [reflexivity|].
  simpl. rewrite Hd, IH. reflexivity.
Qed.

Lemma candidates_pixel_data (dcm_files : list dcm_file) :
  Forall (fun ds => PixelData ds = true /\ In (Some ds) dcm_files) (candidates dcm_files).
Proof.
  induction dcm_files as [|[ds|] fs IH]; simpl.
  - constructor.
  - destruct (PixelData ds) eqn:E.
    + constructor; [split; [exact E|left; reflexivity]|].
      eapply Forall_impl; [|exact IH]. intros d [H1 H2]. split; [exact H1|right; exact H2].
    + eapply Forall_impl; [|exact IH]. intros d [H1 H2]. split; [exact H1|right; exact H2].
  - eapply Forall_impl; [|exact IH]. intros d [H1 H2]. split; [exact H1|right; exact H2].
Qed.

Lemma partition_of_all (uid : series_key) (l : list Dataset) :
  Forall (fun ds => SeriesInstanceUID ds = uid) l -> partition_of uid l = l.
Proof.
  induction 1 as [|ds l Hd _ IH]; [reflexivity|].
  unfold partition_of in *. simpl. unfold in_series at 1.
  rewrite Hd, uid_eqb_refl, IH. reflexivity.
Qed.

(** X5. The list that [_sort_dicom_series] returns is empty exactly when
    no file is a candidate (none is readable with pixel data); otherwise
    every image it returns is one of the files, carries pixel data and
    belongs to one and the same series, and their number is the largest
    member count of any series. *)
Theorem resolver_result_homogeneous :
  forall (dcm_files : list dcm_file) (resolved : list Dataset),
    _sort_dicom_series dcm_files = Ok resolved ->
    (resolved = [] <-> candidates dcm_files = [])
    /\ (exists uid,
          Forall (fun ds => SeriesInstanceUID ds = uid
                            /\ PixelData ds = true
                            /\ In (Some ds) dcm_files) resolved
          /\ length resolved = member_count uid (candidates dcm_files))
    /\ (forall k, (member_count k (candidates dcm_files) <= length resolved)%nat).
Proof.
  intros dcm_files resolved Hret.
  destruct (sort_dicom_series_resolved dcm_files) as [[Hc Hs]|(uid & Hne & Hs)];
    rewrite Hs in Hret; injection Hret as <-.
  - split; [tauto|]. split.
    + exists None. split; [constructor|]. unfold member_count. rewrite Hc. reflexivity.
    + intro k. unfold member_count. rewrite Hc. simpl. lia.
  - pose proof (sort_by_z_perm (items (partition_of uid (candidates dcm_files)))) as Hperm.
    apply (Permutation_map snd) in Hperm. rewrite map_snd_items in Hperm.
    split; [|split].
    + split.
      * intro Hnil. rewrite Hnil in Hperm. apply Permutation_nil in Hperm.
        contradiction.
      * intro Hc. rewrite Hc in Hne. exfalso. apply Hne. reflexivity.
    + exists uid. split.
      * eapply Permutation_Forall; [apply Permutation_sym; exact Hperm|].
        apply Forall_forall. intros ds Hds. apply filter_In in Hds.
        destruct Hds as [Hin Hser]. apply uid_eqb_eq in Hser.
        pose proof (candidates_pixel_data dcm_files) as Hall.
        rewrite Forall_forall in Hall. destruct (Hall ds Hin) as [Hp Hf].
        repeat split; assumption.
      * unfold member_count. apply Permutation_length. exact Hperm.
    + intro k. rewrite (Permutation_length Hperm).
      destruct (in_dec series_key_eq_dec k (map fst (build_series_map dcm_files)))
        as [Hk|Hk].
      * (* the selected series is a greatest one *)
        destruct (build_series_map_spec dcm_files) as (Hget & Hkeys & _).
        revert Hs. unfold _sort_dicom_series.
        destruct (build_series_map dcm_files) as [|e m'] eqn:Em; [contradiction|].
        destruct (py_max_key_first_greatest
                    (fun k => length (get_or (series_map_get (e :: m') k) [])) (fst e)
                    (map fst m'))
          as (uid' & a & b & Hmax & Hsplit & _ & Hall).
        cbv beta iota zeta.
        change (map fst (e :: m')) with (fst e :: map fst m').
        rewrite Hmax. cbn [bind].
        assert (Hin : In uid' (map fst (e :: m'))).
        { change (map fst (e :: m')) with (fst e :: map fst m'). rewrite Hsplit.
          apply in_or_app. right. left. reflexivity. }
        destruct (series_map_get (e :: m') uid') as [main_series|] eqn:Eget.
        2:{ exfalso. exact (series_map_get_none _ _ Eget Hin). }
        cbn [bind]. intro Hs. injection Hs as Hs.
        assert (Hlen : length main_series
                       = length (partition_of uid (candidates dcm_files))).
        { rewrite <- (length_map snd main_series).
          rewrite <- (Permutation_length (Permutation_map snd (sort_by_z_perm main_series))).
          rewrite Hs. apply Permutation_length. exact Hperm. }
        specialize (Hall k Hk). cbv beta in Hall.
        rewrite (Hget k) in Hall. simpl in Hall. rewrite Hlen in Hall.
        unfold member_count, items in *. rewrite length_map in Hall. exact Hall.
      * destruct (build_series_map_spec dcm_files) as (_ & Hkeys & _).
        unfold member_count.
        destruct (partition_of k (candidates dcm_files)) eqn:Ep; [simpl; lia|].
        exfalso. apply Hk. apply Hkeys. rewrite Ep. discriminate.
Qed.

Lemma resolver_result_homogeneous_witness :
  exists resolved uid,
    _sort_dicom_series Samples.mixed_folder = Ok resolved
    /\ Forall (fun ds => SeriesInstanceUID ds = uid
                         /\ PixelData ds = true
                         /\ In (Some ds) Samples.mixed_folder) resolved
    /\ length resolved = 2%nat
    /\ (forall k, (member_count k (candidates Samples.mixed_folder) <= 2)%nat).
Proof.
  destruct (resolver_result_homogeneous Samples.mixed_folder
              [Samples.image "A" 1 1 (-1024) [[24; 25]; [26; 27]];
               Samples.image "A" 3 1 (-1024) [[1024; 1025]; [1026; 1027]]])
    as (_ & (uid & Hall & _) & Hmax).
  - reflexivity.
  - eexists. exists uid. split; [reflexivity|]. split; [exact Hall|].
    split; [reflexivity|exact Hmax].
Defined.

(** X6. Resolving a series that is already resolved changes nothing:
    when [_sort_dicom_series] has returned a list of images, calling it
    on exactly these images, in that order, returns the same list. *)
Theorem resolver_idempotent :
  forall (dcm_files : list dcm_file) (resolved : list Dataset),
    _sort_dicom_series dcm_files = Ok resolved ->
    _sort_dicom_series (map Some resolved) = Ok resolved.
Proof.
  intros dcm_files resolved Hs.
  destruct (sort_dicom_series_resolved dcm_files) as [[_ Hs']|(uid & Hne & Hs')];
    rewrite Hs' in Hs; injection Hs as <-; [reflexivity|].
  set (part := partition_of uid (candidates dcm_files)) in *.
  set (s := sort_by_z (items part)).
  assert (Hkeyed : Forall (fun p => fst p = z_pos (snd p)) s).
  { eapply Permutation_Forall; [apply Permutation_sym, sort_by_z_perm|].
    apply items_keyed. }
  assert (Hperm : Permutation (map snd s) part).
  { rewrite <- (map_snd_items part) at 1. apply Permutation_map, sort_by_z_perm. }
  assert (Hall : Forall (fun ds => SeriesInstanceUID ds = uid /\ PixelData ds = true)
                        (map snd s)).
  { eapply Permutation_Forall; [apply Permutation_sym; exact Hperm|].
    apply Forall_forall. intros ds Hds. apply filter_In in Hds.
    destruct Hds as [Hin Hser]. apply uid_eqb_eq in Hser.
    pose proof (candidates_pixel_data dcm_files) as Hc.
    rewrite Forall_forall in Hc. split; [exact Hser|apply (Hc ds Hin)]. }
  assert (Hcand : candidates (map Some (map snd s)) = map snd s).
  { apply candidates_all_pixel_data. eapply Forall_impl; [|exact Hall]. intros ds H; apply H. }
  destruct (sort_dicom_series_resolved (map Some (map snd s)))
    as [[Hc _]|(uid' & Hne' & ->)].
  - rewrite Hcand in Hc. rewrite Hc in Hperm.
    apply Permutation_nil in Hperm. contradiction.
  - rewrite Hcand in *.
    assert (Huid : uid' = uid).
    { destruct (partition_of uid' (map snd s)) as [|d l] eqn:Ep; [contradiction|].
      assert (Hd : In d (partition_of uid' (map snd s))) by (rewrite Ep; left; reflexivity).
      apply filter_In in Hd. destruct Hd as [Hin Hser]. apply uid_eqb_eq in Hser.
      rewrite Forall_forall in Hall. destruct (Hall d Hin) as [Hu _]. congruence. }
    subst uid'.
    rewrite partition_of_all
      by (eapply Forall_impl; [|exact Hall]; intros ds H; apply H).
    rewrite (items_map_snd s Hkeyed).
    rewrite (sort_by_z_sorted_input s) by apply sort_by_z_sorted.
    reflexivity.
Qed.

Lemma resolver_idempotent_witness :
  _sort_dicom_series
    (map Some [Samples.image "A" 1 1 (-1024) [[24; 25]; [26; 27]];
               Samples.image "A" 3 1 (-1024) [[1024; 1025]; [1026; 1027]]])
  = Ok [Samples.image "A" 1 1 (-1024) [[24; 25]; [26; 27]];
        Samples.image "A" 3 1 (-1024) [[1024; 1025]; [1026; 1027]]].
Proof.
  apply (resolver_idempotent Samples.mixed_folder). reflexivity.
Defined.

Lemma sort_dicom_series_cases (dcm_files : list dcm_file) :
  (candidates dcm_files = [] /\ _sort_dicom_series dcm_files = Ok [])
  \/ (candidates dcm_files <> []
      /\ exists ds0 rest, _sort_dicom_series dcm_files = Ok (ds0 :: rest)).
Proof.
  destruct (sort_dicom_series_resolved dcm_files) as [H|(uid & Hne & Hs)]; [left; exact H|].
  right. split.
  - intro Hc. rewrite Hc in Hne. apply Hne. reflexivity.
  - rewrite Hs.
    pose proof (sort_by_z_perm (items (partition_of uid (candidates dcm_files)))) as Hperm.
    apply (Permutation_map snd) in Hperm. rewrite map_snd_items in Hperm.
    destruct (map snd (sort_by_z (items (partition_of uid (candidates dcm_files)))))
      as [|ds0 rest].
    + apply Permutation_nil in Hperm. contradiction.
    + exists ds0, rest. reflexivity.
Qed.



(** ** Further properties of load_series *)

(** X7. The status returned by [load_series] tells the cases apart: it is
    the no-files text exactly when the folder lists no file, the
    no-valid-series text exactly when files are listed but none is a
    candidate, and a success text, carrying the three dimensions, exactly
    when the flag is true.  The closing processing-problem text is never
    returned: a resolved series that is not empty is either converted, and
    then the loader is marked loaded, or the conversion raises. *)
Theorem load_series_status :
  forall (st : DICOMDataLoader.t) (dcm_files : list dcm_file),
    let msg := fst (snd (load_series st dcm_files)) in
    let ok := snd (snd (load_series st dcm_files)) in
    (msg = MsgNoDicomFiles <-> dcm_files = [])
    /\ (msg = MsgNoValidSeries <-> dcm_files <> [] /\ candidates dcm_files = [])
    /\ msg <> MsgProcessingProblem
    /\ (ok = true <-> exists n rows cols, msg = MsgLoaded (Some n) (Some rows) (Some cols))
    /\ (ok = true -> is_loaded (fst (load_series st dcm_files)) = true).
Proof.
  intros st dcm_files. cbv zeta.
  destruct dcm_files as [|f fs].
  - simpl. repeat split; try discriminate; try tauto.
    intros (n & r & c & H). discriminate.
  - destruct (sort_dicom_series_cases (f :: fs)) as [[Hc Hs]|[Hc (ds0 & rest & Hs)]].
    + unfold load_series. rewrite Hs. simpl. repeat split; try discriminate; try tauto.
      intros (n & r & c & H). discriminate.
    + rewrite (load_series_resolved st _ _ _ Hs).
      destruct (_process_data DICOMDataLoader.init (ds0 :: rest)) as [self' [e|]] eqn:P.
      * simpl. repeat split; try discriminate; try tauto.
        intros (n & r & c & H). discriminate.
      * destruct (process_data_returns _ _ _ _ P) as (vol & acc & _ & Hl & _ & Hn & Hr & Hcl).
        rewrite Hl, Hn, Hr, Hcl. simpl. repeat split; try discriminate; try tauto.
        intros _. do 3 eexists. reflexivity.
Qed.



(** The spacing entries of the header after a call of [_process_data]
    that returns normally. *)
Lemma process_data_spacing (self self' : DICOMDataLoader.t) (ds0 : Dataset)
    (rest : list Dataset) :
  _process_data self (ds0 :: rest) = (self', None) ->
  hdr_PixelSpacing (header_info self') = Some (get_or (PixelSpacing ds0) (1, 1)%Q)
  /\ hdr_SliceThickness (header_info self') = Some (get_or (SliceThickness ds0) 1%Q).
Proof.
  unfold _process_data.
  destruct (fill_volume _ _ _ _ _ _) as [[vol acc] [e|]]; [discriminate|].
  destruct acc as [|h acc].
  - intro H. injection H as <-. split; reflexivity.
  - destruct (np_min (concat (h :: acc))); destruct (np_max (concat (h :: acc)));
      try discriminate.
    intro H. injection H as <-. split; reflexivity.
Qed.

Lemma py_div_zero (a b : Q) : (b == 0)%Q -> py_div a b = Raise ZeroDivisionError.
Proof.
  intro H. unfold py_div. apply Qeq_bool_iff in H. rewrite H. reflexivity.
Qed.

(** X9. After a successful [load_series] the spacings behind the aspect
    ratio are those of the first resolved image.  When that image has
    neither a PixelSpacing nor a SliceThickness entry, the defaults make
    the aspect ratio 1 for every plane.  When its SliceThickness is zero,
    [get_aspect_ratio] raises [ZeroDivisionError] for 'Coronal' and
    'Sagittal'; when its row spacing is zero, it raises for 'Axial'. *)
Theorem aspect_ratio_defaults_and_zero :
  forall (st : DICOMDataLoader.t) (dcm_files : list dcm_file)
         (ds0 : Dataset) (rest : list Dataset),
    _sort_dicom_series dcm_files = Ok (ds0 :: rest) ->
    snd (snd (load_series st dcm_files)) = true ->
    let st' := fst (load_series st dcm_files) in
    (PixelSpacing ds0 = None -> SliceThickness ds0 = None ->
     forall view_plane, get_aspect_ratio st' view_plane = Ok 1%Q)
    /\ (forall z, SliceThickness ds0 = Some z -> (z == 0)%Q ->
          get_aspect_ratio st' "Coronal" = Raise ZeroDivisionError
          /\ get_aspect_ratio st' "Sagittal" = Raise ZeroDivisionError)
    /\ (forall sy sx, PixelSpacing ds0 = Some (sy, sx) -> (sy == 0)%Q ->
          get_aspect_ratio st' "Axial" = Raise ZeroDivisionError).
Proof.
  intros st dcm_files ds0 rest S. rewrite (load_series_resolved st _ _ _ S).
  destruct (_process_data DICOMDataLoader.init (ds0 :: rest)) as [self' [e|]] eqn:P;
    [simpl; discriminate|].
  destruct (process_data_returns _ _ _ _ P) as (vol & acc & _ & Hl & _).
  destruct (process_data_spacing _ _ _ _ P) as [Hsp Hth].
  rewrite Hl. simpl. intros _.
  unfold get_aspect_ratio. rewrite Hl, Hsp, Hth. simpl.
  split; [|split].
  - intros -> -> view_plane. simpl.
    destruct (String.eqb view_plane "Axial"); [reflexivity|].
    destruct (String.eqb view_plane "Coronal"); [reflexivity|].
    destruct (String.eqb view_plane "Sagittal"); reflexivity.
  - intros z -> Hz. simpl. rewrite !(py_div_zero _ z Hz). split; reflexivity.
  - intros sy sx -> Hz. simpl. rewrite (py_div_zero _ sy Hz). reflexivity.
Qed.

Lemma aspect_ratio_defaults_and_zero_witness :
  let flat :=
    {| PixelData := true; SeriesInstanceUID := Some "F";
       ImagePositionPatient := None; Rows := Some 1%nat; Columns := Some 1%nat;
       SliceThickness := Some 0%Q; PixelSpacing := None;
       RescaleIntercept := None; RescaleSlope := None;
       pixel_array := [[7]] |} in
  get_aspect_ratio (fst (load_series DICOMDataLoader.init [Some flat])) "Coronal"
    = Raise ZeroDivisionError
  /\ get_aspect_ratio (fst (load_series DICOMDataLoader.init [Some flat])) "Sagittal"
    = Raise ZeroDivisionError.
Proof.
  intro flat.
  apply (proj1 (proj2 (aspect_ratio_defaults_and_zero DICOMDataLoader.init [Some flat]
                          flat [] eq_refl eq_refl)) 0%Q).
  - reflexivity.
  - reflexivity.
Defined.

(** ** Further properties of the application *)

Lemma py_max_ge_l (a b : Q) : (a <= py_max a b)%Q.
Proof.
  unfold py_max. destruct (Qltb a b) eqn:E.
  - apply Qlt_le_weak, Qltb_lt. exact E.
  - apply Qle_refl.
Qed.

Lemma py_max_ge_r (a b : Q) : (b <= py_max a b)%Q.
Proof.
  unfold py_max. destruct (Qltb a b) eqn:E.
  - apply Qle_refl.
  - apply Qltb_ge. exact E.
Qed.

Lemma set_current_slice_fields (app : DICOMViewerApp.t) (new_slice : Z) :
  let app' := DICOMViewerApp.set_current_slice app new_slice in
  DICOMViewerApp.window_level app' = DICOMViewerApp.window_level app
  /\ DICOMViewerApp.window_width app' = DICOMViewerApp.window_width app
  /\ DICOMViewerApp.mouse_y app' = DICOMViewerApp.mouse_y app
  /\ DICOMViewerApp.start_slice app' = DICOMViewerApp.start_slice app.
Proof.
  unfold DICOMViewerApp.set_current_slice.
  destruct (negb _); simpl; repeat split; reflexivity.
Qed.

Lemma set_current_slice_widgets (app : DICOMViewerApp.t) (new_slice : Z) :
  let app' := DICOMViewerApp.set_current_slice app new_slice in
  DICOMViewerApp.wl_scale app' = DICOMViewerApp.wl_scale app
  /\ DICOMViewerApp.ww_scale app' = DICOMViewerApp.ww_scale app
  /\ DICOMViewerApp.image_frame app' = DICOMViewerApp.image_frame app.
Proof.
  unfold DICOMViewerApp.set_current_slice.
  destruct (negb _); simpl; repeat split; reflexivity.
Qed.

Lemma reset_slice_scale_fields (app : DICOMViewerApp.t) :
  let app' := DICOMViewerApp.reset_slice_scale app in
  DICOMViewerApp.window_level app' = DICOMViewerApp.window_level app
  /\ DICOMViewerApp.window_width app' = DICOMViewerApp.window_width app.
Proof.
  unfold DICOMViewerApp.reset_slice_scale.
  destruct (_ >? _); simpl; split; reflexivity.
Qed.

Lemma reset_slice_scale_widgets (app : DICOMViewerApp.t) :
  let app' := DICOMViewerApp.reset_slice_scale app in
  DICOMViewerApp.wl_scale app' = DICOMViewerApp.wl_scale app
  /\ DICOMViewerApp.ww_scale app' = DICOMViewerApp.ww_scale app
  /\ DICOMViewerApp.image_frame app' = DICOMViewerApp.image_frame app.
Proof.
  unfold DICOMViewerApp.reset_slice_scale.
  destruct (_ >? _); simpl; repeat split; reflexivity.
Qed.

Lemma scale_clip_range (from_ to value : Q) :
  (from_ <= to)%Q -> (from_ <= DICOMViewerApp.scale_clip from_ to value <= to)%Q.
Proof.
  intro H. unfold DICOMViewerApp.scale_clip. Qltb_cases; split; lra.
Qed.

Lemma scale_clip_inside (from_ to value : Q) :
  (from_ <= value <= to)%Q -> DICOMViewerApp.scale_clip from_ to value = value.
Proof.
  intros [H1 H2]. unfold DICOMViewerApp.scale_clip.
  apply Qltb_ge in H1. rewrite H1. apply Qltb_ge in H2. rewrite H2. reflexivity.
Qed.

(** The invariant of the contrast state: it holds of an object as soon
    as the four contrast fields are those of an object it holds of. *)
Lemma window_on_scales_fields (a b : DICOMViewerApp.t) :
  DICOMViewerApp.window_level a = DICOMViewerApp.window_level b ->
  DICOMViewerApp.window_width a = DICOMViewerApp.window_width b ->
  DICOMViewerApp.wl_scale a = DICOMViewerApp.wl_scale b ->
  DICOMViewerApp.ww_scale a = DICOMViewerApp.ww_scale b ->
  window_on_scales b -> window_on_scales a.
Proof.
  unfold window_on_scales. intros -> -> -> -> H. exact H.
Qed.

Lemma set_current_slice_on_scales (app : DICOMViewerApp.t) (new_slice : Z) :
  window_on_scales app ->
  window_on_scales (DICOMViewerApp.set_current_slice app new_slice).
Proof.
  destruct (set_current_slice_fields app new_slice) as (H1 & H2 & _).
  destruct (set_current_slice_widgets app new_slice) as (H3 & H4 & _).
  apply window_on_scales_fields; assumption.
Qed.

Lemma reset_slice_scale_on_scales (app : DICOMViewerApp.t) :
  window_on_scales app -> window_on_scales (DICOMViewerApp.reset_slice_scale app).
Proof.
  destruct (reset_slice_scale_fields app) as (H1 & H2).
  destruct (reset_slice_scale_widgets app) as (H3 & H4 & _).
  apply window_on_scales_fields; assumption.
Qed.

(** After [_update_wl_ww_gui] the invariant holds whatever the contrast
    fields were before. *)
Lemma update_wl_ww_gui_on_scales (app : DICOMViewerApp.t) :
  window_on_scales (DICOMViewerApp._update_wl_ww_gui app).
Proof.
  rewrite update_wl_ww_gui_spec. unfold window_on_scales. cbn.
  split; [reflexivity|]. split; [reflexivity|].
  split; apply scale_clip_range; discriminate.
Qed.

Lemma wl_scale_set_on_scales (app : DICOMViewerApp.t) (value : Q) :
  window_on_scales app -> window_on_scales (DICOMViewerApp.wl_scale_set app value).
Proof.
  intros (_ & Hw & _ & Hr). unfold window_on_scales. cbn.
  split; [reflexivity|]. split; [reflexivity|].
  split; [apply scale_clip_range; discriminate|].
  rewrite <- Hw. exact Hr.
Qed.

Lemma ww_scale_set_on_scales (app : DICOMViewerApp.t) (value : Q) :
  window_on_scales app -> window_on_scales (DICOMViewerApp.ww_scale_set app value).
Proof.
  intros (Hl & _ & Hr & _). unfold window_on_scales. cbn.
  split; [reflexivity|]. split; [reflexivity|].
  split; [rewrite <- Hl; exact Hr|].
  apply scale_clip_range. discriminate.
Qed.

Lemma handle_on_scales (app : DICOMViewerApp.t) (ev : DICOMViewerApp.event) :
  window_on_scales app -> window_on_scales (DICOMViewerApp.handle app ev).
Proof.
  intro H. destruct ev as [x y|x y|y|y|delta [d|]|v|v]; simpl.
  - unfold DICOMViewerApp.on_mouse_down. destruct (DICOMViewerApp.is_loaded app); exact H.
  - unfold DICOMViewerApp.on_mouse_drag. destruct (DICOMViewerApp.is_loaded app); [|exact H].
    apply update_wl_ww_gui_on_scales.
  - unfold DICOMViewerApp.on_mouse_down_right.
    destruct (DICOMViewerApp.is_loaded app); exact H.
  - unfold DICOMViewerApp.on_mouse_drag_right.
    destruct (DICOMViewerApp.is_loaded app); [|exact H].
    apply set_current_slice_on_scales. exact H.
  - unfold DICOMViewerApp.on_mouse_wheel.
    destruct (DICOMViewerApp.is_loaded app); simpl; [|exact H].
    apply set_current_slice_on_scales. exact H.
  - unfold DICOMViewerApp.on_mouse_wheel.
    destruct (DICOMViewerApp.is_loaded app); simpl; [|exact H].
    destruct (delta =? 0); simpl; [exact H|].
    apply set_current_slice_on_scales. exact H.
  - unfold DICOMViewerApp.update_slice. destruct (negb _); [|exact H].
    apply set_current_slice_on_scales. exact H.
  - unfold DICOMViewerApp.change_view. destruct (DICOMViewerApp.is_loaded app); [|exact H].
    apply reset_slice_scale_on_scales. exact H.
Qed.

Lemma run_on_scales (evs : list DICOMViewerApp.event) :
  forall app : DICOMViewerApp.t,
    window_on_scales app -> window_on_scales (DICOMViewerApp.run app evs).
Proof.
  unfold DICOMViewerApp.run.
  induction evs as [|ev evs IH]; intros app H; simpl; [exact H|].
  apply IH. apply handle_on_scales. exact H.
Qed.

Lemma load_dicom_folder_on_scales (app : DICOMViewerApp.t)
    (folder : option (list dcm_file)) (view_var : string) :
  window_on_scales app ->
  window_on_scales (fst (DICOMViewerApp.load_dicom_folder app folder view_var)).
Proof.
  intro H. unfold DICOMViewerApp.load_dicom_folder.
  destruct folder as [dcm_files|]; [|exact H].
  destruct (load_series (DICOMViewerApp.data_loader app) dcm_files)
    as [loader [message [|]]].
  - match goal with
    | |- context [DICOMViewerApp.reset_slice_scale ?a] => set (self1 := a)
    end.
    assert (H1 : window_on_scales (DICOMViewerApp.reset_slice_scale self1))
      by (apply reset_slice_scale_on_scales, update_wl_ww_gui_on_scales).
    destruct (DICOMViewerApp.update_image (DICOMViewerApp.reset_slice_scale self1));
      cbn [fst]; [apply set_current_slice_on_scales|]; exact H1.
  - cbn [fst]. unfold DICOMViewerApp.update_slice.
    destruct (negb _); [apply set_current_slice_on_scales|]; exact H.
Qed.

Lemma set_current_slice_nonneg (app : DICOMViewerApp.t) (new_slice : Z) :
  0 <= DICOMViewerApp.current_slice (DICOMViewerApp.set_current_slice app new_slice).
Proof.
  rewrite set_current_slice_clamps. unfold clamp. lia.
Qed.

Lemma reset_slice_scale_nonneg (app : DICOMViewerApp.t) :
  0 <= DICOMViewerApp.current_slice app ->
  0 <= DICOMViewerApp.current_slice (DICOMViewerApp.reset_slice_scale app).
Proof.
  intro H. rewrite (proj1 (reset_slice_scale_spec app)).
  destruct (_ >? _); [lia|exact H].
Qed.

Lemma handle_index_nonneg (app : DICOMViewerApp.t) (ev : DICOMViewerApp.event) :
  0 <= DICOMViewerApp.current_slice app ->
  0 <= DICOMViewerApp.current_slice (DICOMViewerApp.handle app ev).
Proof.
  intro H. destruct ev as [x y|x y|y|y|delta [d|]|v|v]; simpl.
  - unfold DICOMViewerApp.on_mouse_down. destruct (DICOMViewerApp.is_loaded app); exact H.
  - unfold DICOMViewerApp.on_mouse_drag. destruct (DICOMViewerApp.is_loaded app); exact H.
  - unfold DICOMViewerApp.on_mouse_down_right.
    destruct (DICOMViewerApp.is_loaded app); exact H.
  - unfold DICOMViewerApp.on_mouse_drag_right.
    destruct (DICOMViewerApp.is_loaded app); [apply set_current_slice_nonneg|exact H].
  - unfold DICOMViewerApp.on_mouse_wheel.
    destruct (DICOMViewerApp.is_loaded app); simpl; [apply set_current_slice_nonneg|exact H].
  - unfold DICOMViewerApp.on_mouse_wheel.
    destruct (DICOMViewerApp.is_loaded app); simpl; [|exact H].
    destruct (delta =? 0); simpl; [exact H|apply set_current_slice_nonneg].
  - unfold DICOMViewerApp.update_slice.
    destruct (negb _); [apply set_current_slice_nonneg|exact H].
  - unfold DICOMViewerApp.change_view. destruct (DICOMViewerApp.is_loaded app); [|exact H].
    apply reset_slice_scale_nonneg. exact H.
Qed.

Lemma load_dicom_folder_index_nonneg (app : DICOMViewerApp.t)
    (folder : option (list dcm_file)) (view_var : string) :
  0 <= DICOMViewerApp.current_slice app ->
  0 <= DICOMViewerApp.current_slice
         (fst (DICOMViewerApp.load_dicom_folder app folder view_var)).
Proof.
  intro H. unfold DICOMViewerApp.load_dicom_folder.
  destruct folder as [dcm_files|]; [|exact H].
  destruct (load_series (DICOMViewerApp.data_loader app) dcm_files)
    as [loader [message [|]]].
  - match goal with
    | |- context [DICOMViewerApp.reset_slice_scale ?a] => set (self1 := a)
    end.
    destruct (DICOMViewerApp.update_image (DICOMViewerApp.reset_slice_scale self1));
      cbn [fst]; [apply set_current_slice_nonneg|].
    apply reset_slice_scale_nonneg. exact H.
  - cbn [fst]. unfold DICOMViewerApp.update_slice.
    destruct (negb _); [apply set_current_slice_nonneg|exact H].
Qed.

(** The state the program can reach keeps the contrast attributes on the
    scales and the index non-negative. *)
Lemma app_reachable_invariant (app : DICOMViewerApp.t) :
  app_reachable app ->
  window_on_scales app /\ 0 <= DICOMViewerApp.current_slice app.
Proof.
  induction 1 as [|app ev _ [IHw IHc]|app folder view_var _ [IHw IHc]
                  |app value _ [IHw IHc]|app value _ [IHw IHc]|app size _ [IHw IHc]].
  - split; [|reflexivity]. unfold window_on_scales. cbn.
    repeat split; try reflexivity; discriminate.
  - split; [apply handle_on_scales; exact IHw|apply handle_index_nonneg; exact IHc].
  - split; [apply load_dicom_folder_on_scales; exact IHw
           |apply load_dicom_folder_index_nonneg; exact IHc].
  - split; [apply wl_scale_set_on_scales; exact IHw|exact IHc].
  - split; [apply ww_scale_set_on_scales; exact IHw|exact IHc].
  - split; [exact IHw|exact IHc].
Qed.

(** X10. In every state the application can reach from its start through
    events, folder selections (successful or not) and changes of the two
    contrast scales, the window width is at least 10, so the windowing
    transform never divides by zero, and the current index is not
    negative. *)
Theorem app_window_width_floor :
  forall app : DICOMViewerApp.t,
    app_reachable app ->
    (10 <= DICOMViewerApp.window_width app)%Q
    /\ 0 <= DICOMViewerApp.current_slice app.
Proof.
  intros app H.
  destruct (app_reachable_invariant app H) as [(_ & _ & _ & Hw & _) Hc].
  split; assumption.
Qed.

Lemma app_window_width_floor_witness :
  (10 <= DICOMViewerApp.window_width
           (DICOMViewerApp.handle Samples.loaded_app (DICOMViewerApp.ContrastDrag (-900) 0)))%Q
  /\ 0 <= DICOMViewerApp.current_slice
            (DICOMViewerApp.handle Samples.loaded_app (DICOMViewerApp.ContrastDrag (-900) 0)).
Proof.
  apply (app_window_width_floor
           (DICOMViewerApp.handle Samples.loaded_app (DICOMViewerApp.ContrastDrag (-900) 0))).
  apply app_reachable_event.
  apply (app_reachable_load DICOMViewerApp.init (Some Samples.ten_slices) "Axial").
  exact app_reachable_init.
Defined.

(** The intensity bounds that a successful [load_series] leaves in the
    header. *)
Lemma load_series_stats (st : DICOMDataLoader.t) (dcm_files : list dcm_file) :
  snd (snd (load_series st dcm_files)) = true ->
  exists lo hi,
    hdr_MinHU (header_info (fst (load_series st dcm_files))) = Some lo
    /\ hdr_MaxHU (header_info (fst (load_series st dcm_files))) = Some hi
    /\ (lo <= hi)%Q.
Proof.
  destruct (_sort_dicom_series dcm_files) as [[|ds0 rest]|e] eqn:S.
  - unfold load_series. destruct dcm_files; rewrite ?S; simpl; discriminate.
  - rewrite (load_series_resolved st _ _ _ S).
    destruct (_process_data DICOMDataLoader.init (ds0 :: rest)) as [self' [e|]] eqn:P;
      [simpl; discriminate|].
    destruct (process_data_returns _ _ _ _ P) as (vol & acc & _ & Hl & _).
    destruct (process_data_stats _ _ _ _ P) as (lo & hi & Hmin & Hmax & Hlo & Hhi).
    rewrite Hl. simpl. intros _. exists lo, hi.
    split; [exact Hlo|]. split; [exact Hhi|].
    destruct (np_min_spec _ _ Hmin) as [Hin _].
    destruct (np_max_spec _ _ Hmax) as [_ Hall].
    rewrite Forall_forall in Hall. apply Hall. exact Hin.
  - unfold load_series. destruct dcm_files; rewrite ?S; simpl; discriminate.
Qed.

(** What a successful [load_dicom_folder] leaves in the contrast fields. *)
Lemma load_dicom_folder_window (app0 : DICOMViewerApp.t) (dcm_files : list dcm_file)
    (view_var : string) :
  snd (snd (load_series (DICOMViewerApp.data_loader app0) dcm_files)) = true ->
  let app1 := fst (DICOMViewerApp.load_dicom_folder app0 (Some dcm_files) view_var) in
  let info := header_info (fst (load_series (DICOMViewerApp.data_loader app0) dcm_files)) in
  let min_hu := get_or (hdr_MinHU info) (-1000)%Q in
  let max_hu := get_or (hdr_MaxHU info) 1000%Q in
  DICOMViewerApp.window_level app1
    = DICOMViewerApp.scale_clip (-3000) 3000 (float64 (float64 (max_hu + min_hu) / 2))
  /\ DICOMViewerApp.window_width app1
    = DICOMViewerApp.scale_clip 10 6000 (DICOMViewerApp.ww_scale app0).
Proof.
  unfold DICOMViewerApp.load_dicom_folder.
  destruct (load_series (DICOMViewerApp.data_loader app0) dcm_files)
    as [loader [message success]].
  cbv zeta. cbn [fst snd]. intros ->.
  match goal with
  | |- context [DICOMViewerApp.reset_slice_scale ?a] => set (self1 := a)
  end.
  destruct (reset_slice_scale_fields self1) as [Rl Rw].
  destruct (DICOMViewerApp.update_image (DICOMViewerApp.reset_slice_scale self1)); cbn [fst].
  - destruct (set_current_slice_fields (DICOMViewerApp.reset_slice_scale self1) 0)
      as (Sl & Sw & _).
    rewrite Sl, Sw, Rl, Rw. split; reflexivity.
  - rewrite Rl, Rw. split; reflexivity.
Qed.

(** X11. In every state the application can reach, the contrast
    attributes are what the two scales hold: the window level equals the
    value of the level scale and lies in [-3000, 3000], the window width
    equals the value of the width scale and lies in [10, 6000].  After a
    successful [load_dicom_folder], in particular, the level is the
    middle (MaxHU + MinHU) / 2 of the new volume's intensity range clipped
    to the level scale's range, and the width is the one the width scale
    held before the load. *)
Theorem window_follows_scales :
  forall app : DICOMViewerApp.t,
    app_reachable app ->
    (DICOMViewerApp.window_level app = DICOMViewerApp.wl_scale app
     /\ DICOMViewerApp.window_width app = DICOMViewerApp.ww_scale app
     /\ in_scale_range (DICOMViewerApp.window_level app) (DICOMViewerApp.window_width app))
    /\ (forall (dcm_files : list dcm_file) (view_var : string),
          snd (snd (load_series (DICOMViewerApp.data_loader app) dcm_files)) = true ->
          let app1 :=
            fst (DICOMViewerApp.load_dicom_folder app (Some dcm_files) view_var) in
          exists lo hi,
            hdr_MinHU (header_info (DICOMViewerApp.data_loader app1)) = Some lo
            /\ hdr_MaxHU (header_info (DICOMViewerApp.data_loader app1)) = Some hi
            /\ DICOMViewerApp.window_level app1
               = DICOMViewerApp.scale_clip (-3000) 3000 (float64 (float64 (hi + lo) / 2))
            /\ DICOMViewerApp.window_width app1 = DICOMViewerApp.window_width app).
Proof.
  intros app H.
  destruct (app_reachable_invariant app H) as [(Hl & Hw & Hlr & Hwr) _].
  split; [split; [exact Hl|]; split; [exact Hw|]; split; assumption|].
  intros dcm_files view_var Hok app1.
  destruct (load_dicom_folder_success app dcm_files view_var Hok) as [Hld _].
  destruct (load_dicom_folder_window app dcm_files view_var Hok) as [Hlevel Hwidth].
  destruct (load_series_stats _ _ Hok) as (lo & hi & Hlo & Hhi & _).
  fold app1 in Hld, Hlevel, Hwidth.
  rewrite Hlo, Hhi in Hlevel. simpl in Hlevel.
  exists lo, hi. rewrite Hld.
  split; [exact Hlo|]. split; [exact Hhi|]. split; [exact Hlevel|].
  rewrite Hwidth, <- Hw. apply scale_clip_inside. exact Hwr.
Qed.

Lemma window_follows_scales_witness :
  DICOMViewerApp.window_level Samples.loaded_app = DICOMViewerApp.wl_scale Samples.loaded_app
  /\ DICOMViewerApp.window_width Samples.loaded_app
     = DICOMViewerApp.ww_scale Samples.loaded_app
  /\ in_scale_range (DICOMViewerApp.window_level Samples.loaded_app)
                    (DICOMViewerApp.window_width Samples.loaded_app).
Proof.
  apply (window_follows_scales Samples.loaded_app).
  apply (app_reachable_load DICOMViewerApp.init (Some Samples.ten_slices) "Axial").
  exact app_reachable_init.
Defined.





(** A single sample with slice thickness 0, shown in the row plane:
    [update_image] raises what the division of the spacings raises. *)
Example scenario_zero_thickness :
  let app := fst (DICOMViewerApp.load_dicom_folder DICOMViewerApp.init
                    (Some Samples.zero_thickness) "Coronal") in
  DICOMViewerApp.is_loaded app = true
  /\ DICOMViewerApp.update_image app = Raise ZeroDivisionError.
Proof. vm_compute. split; reflexivity. Qed.

(** *** Gestures *)

Lemma on_mouse_drag_right_keeps (app : DICOMViewerApp.t) (y : Z) :
  let app' := DICOMViewerApp.on_mouse_drag_right app y in
  DICOMViewerApp.data_loader app' = DICOMViewerApp.data_loader app
  /\ DICOMViewerApp.current_view app' = DICOMViewerApp.current_view app
  /\ DICOMViewerApp.mouse_y app' = DICOMViewerApp.mouse_y app
  /\ DICOMViewerApp.start_slice app' = DICOMViewerApp.start_slice app.
Proof.
  unfold DICOMViewerApp.on_mouse_drag_right.
  destruct (DICOMViewerApp.is_loaded app); [|repeat split; reflexivity].
  destruct (set_current_slice_keeps app
              (DICOMViewerApp.start_slice app
               + - py_int (inject_Z (y - DICOMViewerApp.mouse_y app)
                           / inject_Z DICOMViewerApp.SLICE_SENSITIVITY)%Q)) as [H1 H2].
  destruct (set_current_slice_fields app
              (DICOMViewerApp.start_slice app
               + - py_int (inject_Z (y - DICOMViewerApp.mouse_y app)
                           / inject_Z DICOMViewerApp.SLICE_SENSITIVITY)%Q))
    as (_ & _ & H3 & H4).
  repeat split; assumption.
Qed.

Lemma scrub_drags_keep (mid : list Z) (app : DICOMViewerApp.t) :
  let app' := fold_left DICOMViewerApp.on_mouse_drag_right mid app in
  DICOMViewerApp.data_loader app' = DICOMViewerApp.data_loader app
  /\ DICOMViewerApp.current_view app' = DICOMViewerApp.current_view app
  /\ DICOMViewerApp.mouse_y app' = DICOMViewerApp.mouse_y app
  /\ DICOMViewerApp.start_slice app' = DICOMViewerApp.start_slice app.
Proof.
  revert app. induction mid as [|y mid IH]; intro app; simpl.
  - repeat split; reflexivity.
  - destruct (IH (DICOMViewerApp.on_mouse_drag_right app y)) as (H1 & H2 & H3 & H4).
    destruct (on_mouse_drag_right_keeps app y) as (K1 & K2 & K3 & K4).
    repeat split; congruence.
Qed.

(** X13. A slice-scrub gesture on a loaded volume is computed from the
    press, not from the previous drag event: pressed at [y0] and dragged
    through any intermediate positions to [y], the current index is
    [clamp(startIndex - trunc((y - y0) / 10), 0, maxIndex)] for the index
    held at the press; while the pointer is less than 10 pixels from the
    press point, an index that was in range is back at its start value. *)
Theorem scrub_gesture_absolute :
  forall (app : DICOMViewerApp.t) (y0 : Z) (mid : list Z) (y : Z),
    DICOMViewerApp.is_loaded app = true ->
    let pressed := DICOMViewerApp.on_mouse_down_right app y0 in
    let moved := fold_left DICOMViewerApp.on_mouse_drag_right mid pressed in
    let final := DICOMViewerApp.on_mouse_drag_right moved y in
    DICOMViewerApp.current_slice final
      = clamp (DICOMViewerApp.current_slice app + - Z.quot (y - y0) 10) 0
          (DICOMViewerApp.get_max_slice_index app (DICOMViewerApp.current_view app))
    /\ (-10 < y - y0 < 10 -> index_in_range app ->
        DICOMViewerApp.current_slice final = DICOMViewerApp.current_slice app).
Proof.
  intros app y0 mid y Hl pressed moved final.
  assert (Hp : DICOMViewerApp.data_loader pressed = DICOMViewerApp.data_loader app
               /\ DICOMViewerApp.current_view pressed = DICOMViewerApp.current_view app
               /\ DICOMViewerApp.mouse_y pressed = y0
               /\ DICOMViewerApp.start_slice pressed = DICOMViewerApp.current_slice app).
  { unfold pressed, DICOMViewerApp.on_mouse_down_right. rewrite Hl. simpl.
    repeat split; reflexivity. }
  destruct Hp as (P1 & P2 & P3 & P4).
  destruct (scrub_drags_keep mid pressed) as (M1 & M2 & M3 & M4).
  fold moved in M1, M2, M3, M4.
  assert (Hm : DICOMViewerApp.is_loaded moved = true).
  { unfold DICOMViewerApp.is_loaded in *. rewrite M1, P1. exact Hl. }
  assert (Hfinal : DICOMViewerApp.current_slice final
      = clamp (DICOMViewerApp.current_slice app + - Z.quot (y - y0) 10) 0
          (DICOMViewerApp.get_max_slice_index app (DICOMViewerApp.current_view app))).
  { unfold final, DICOMViewerApp.on_mouse_drag_right. rewrite Hm.
    rewrite set_current_slice_clamps, M2, M3, M4, P2, P3, P4.
    rewrite (get_max_slice_index_loader moved app) by congruence.
    unfold DICOMViewerApp.SLICE_SENSITIVITY.
    rewrite (py_int_inject_div (y - y0) 10). reflexivity. }
  split; [exact Hfinal|].
  intros Hnear [Hlo Hhi]. rewrite Hfinal.
  assert (Hq : Z.quot (y - y0) 10 = 0) by (apply Z.quot_small_iff; lia).
  rewrite Hq. unfold clamp. lia.
Qed.

Lemma scrub_gesture_absolute_witness :
  let app := DICOMViewerApp.with_current_slice Samples.loaded_app 5 in
  DICOMViewerApp.current_slice
    (DICOMViewerApp.on_mouse_drag_right
       (fold_left DICOMViewerApp.on_mouse_drag_right [0; 500; 77]
          (DICOMViewerApp.on_mouse_down_right app 100)) 68)
  = clamp (DICOMViewerApp.current_slice app + - Z.quot (68 - 100) 10) 0
      (DICOMViewerApp.get_max_slice_index app (DICOMViewerApp.current_view app)).
Proof.
  apply (scrub_gesture_absolute (DICOMViewerApp.with_current_slice Samples.loaded_app 5)
           100 [0; 500; 77] 68).
  reflexivity.
Defined.

Lemma set_current_slice_same (app : DICOMViewerApp.t) :
  index_in_range app ->
  DICOMViewerApp.set_current_slice app (DICOMViewerApp.current_slice app) = app.
Proof.
  intros [Hlo Hhi]. unfold DICOMViewerApp.set_current_slice.
  replace (Z.max 0 (Z.min (DICOMViewerApp.get_max_slice_index app
                             (DICOMViewerApp.current_view app))
                          (DICOMViewerApp.current_slice app)))
    with (DICOMViewerApp.current_slice app) by lia.
  rewrite Z.eqb_refl. reflexivity.
Qed.

(** X14. On a loaded volume with the index in range, a wheel event whose
    delta is a multiple 120 * n moves the index to
    [clamp(index + n, 0, maxIndex)]; a wheel event whose delta is smaller
    than 120 in magnitude changes nothing at all; and an event with an
    explicit direction d moves the index to [clamp(index + d, 0,
    maxIndex)] whatever its delta. *)
Theorem wheel_steps :
  forall app : DICOMViewerApp.t,
    DICOMViewerApp.is_loaded app = true ->
    index_in_range app ->
    let max_index :=
      DICOMViewerApp.get_max_slice_index app (DICOMViewerApp.current_view app) in
    (forall n,
       DICOMViewerApp.current_slice (DICOMViewerApp.on_mouse_wheel app (120 * n) None)
       = clamp (DICOMViewerApp.current_slice app + n) 0 max_index)
    /\ (forall delta, -120 < delta < 120 ->
          DICOMViewerApp.on_mouse_wheel app delta None = app)
    /\ (forall delta d,
          DICOMViewerApp.current_slice (DICOMViewerApp.on_mouse_wheel app delta (Some d))
          = clamp (DICOMViewerApp.current_slice app + d) 0 max_index).
Proof.
  intros app Hl Hin max_index. unfold DICOMViewerApp.on_mouse_wheel. rewrite Hl.
  cbn [negb].
  split; [|split].
  - intro n. destruct (Z.eqb_spec (120 * n) 0) as [E|E]; cbn [negb].
    + assert (n = 0) by lia. subst n. destruct Hin as [Hlo Hhi].
      unfold clamp, max_index. lia.
    + rewrite set_current_slice_clamps.
      change 120%Q with (inject_Z 120). rewrite (py_int_inject_div (120 * n) 120).
      rewrite Z.mul_comm, Z.quot_mul by lia. reflexivity.
  - intros delta Hd. destruct (Z.eqb_spec delta 0) as [E|E]; cbn [negb]; [reflexivity|].
    change 120%Q with (inject_Z 120). rewrite (py_int_inject_div delta 120).
    assert (Hq : Z.quot delta 120 = 0) by (apply Z.quot_small_iff; lia).
    rewrite Hq, Z.add_0_r. apply set_current_slice_same. exact Hin.
  - intros delta d. rewrite set_current_slice_clamps. reflexivity.
Qed.

Lemma wheel_steps_witness :
  let app := DICOMViewerApp.with_current_slice Samples.loaded_app 5 in
  DICOMViewerApp.current_slice (DICOMViewerApp.on_mouse_wheel app (120 * -2) None)
  = clamp (DICOMViewerApp.current_slice app + -2) 0
      (DICOMViewerApp.get_max_slice_index app (DICOMViewerApp.current_view app)).
Proof.
  refine (proj1 (wheel_steps (DICOMViewerApp.with_current_slice Samples.loaded_app 5) _ _)
                (-2)).
  - reflexivity.
  - split; vm_compute; discriminate.
Defined.

(** X15. While no volume is loaded, the contrast gesture, the scrub
    gesture, the wheel and the plane selector change nothing in the
    application object, and [update_image] reports that there is no
    image. *)
Theorem unloaded_gestures_ignored :
  forall (app : DICOMViewerApp.t) (ev : DICOMViewerApp.event),
    DICOMViewerApp.is_loaded app = false ->
    is_slider_change ev = false ->
    DICOMViewerApp.handle app ev = app
    /\ DICOMViewerApp.update_image app = Ok None.
Proof.
  intros app ev Hl Hev. split.
  - destruct ev as [x y|x y|y|y|delta mac|v|v]; simpl; try discriminate.
    + unfold DICOMViewerApp.on_mouse_down. rewrite Hl. reflexivity.
    + unfold DICOMViewerApp.on_mouse_drag. rewrite Hl. reflexivity.
    + unfold DICOMViewerApp.on_mouse_down_right. rewrite Hl. reflexivity.
    + unfold DICOMViewerApp.on_mouse_drag_right. rewrite Hl. reflexivity.
    + unfold DICOMViewerApp.on_mouse_wheel. rewrite Hl. reflexivity.
    + unfold DICOMViewerApp.change_view. rewrite Hl. reflexivity.
  - unfold DICOMViewerApp.update_image, get_slice_data.
    unfold DICOMViewerApp.is_loaded in Hl. rewrite Hl. reflexivity.
Qed.

Lemma unloaded_gestures_ignored_witness :
  DICOMViewerApp.handle DICOMViewerApp.init (DICOMViewerApp.ContrastDrag 300 (-40))
    = DICOMViewerApp.init
  /\ DICOMViewerApp.update_image DICOMViewerApp.init = Ok None.
Proof.
  apply (unloaded_gestures_ignored DICOMViewerApp.init
           (DICOMViewerApp.ContrastDrag 300 (-40))); reflexivity.
Defined.

(** *** The display size *)

Lemma Qlt_div_mult (a b c : Q) : (0 < c)%Q -> (a < b / c)%Q -> (a * c < b)%Q.
Proof.
  intros Hc H. apply (Qmult_lt_r _ _ c Hc) in H.
  setoid_replace (b / c * c)%Q with b in H; [exact H|].
  field. intro E. rewrite E in Hc. exact (Qlt_irrefl _ Hc).
Qed.

Lemma Qle_div_mult (a b c : Q) : (0 < c)%Q -> (b / c <= a)%Q -> (b <= a * c)%Q.
Proof.
  intros Hc H. apply (Qmult_le_r _ _ c Hc) in H.
  setoid_replace (b / c * c)%Q with b in H; [exact H|].
  field. intro E. rewrite E in Hc. exact (Qlt_irrefl _ Hc).
Qed.

Lemma py_int_le (x : Q) : (0 <= x)%Q -> (inject_Z (py_int x) <= x)%Q.
Proof.
  intro H. rewrite (py_int_nonneg x H). apply Qfloor_le.
Qed.

(** X16. For a positive aspect ratio the resize step of [update_image]
    does not raise, and the size it hands to [img.resize] fits the frame:
    both target dimensions are positive, neither exceeds the frame's
    width or height less the margin of 20, and one of them equals its
    frame dimension. *)
Theorem display_size_fits_frame :
  forall (aspect_ratio : Q) (winfo_width winfo_height : Z),
    (0 < aspect_ratio)%Q ->
    exists r,
      DICOMViewerApp.display_size aspect_ratio winfo_width winfo_height = Ok r
      /\ forall target_width target_height,
           r = Some (target_width, target_height) ->
           0 < target_width <= winfo_width - 20
           /\ 0 < target_height <= winfo_height - 20
           /\ (target_width = winfo_width - 20 \/ target_height = winfo_height - 20).
Proof.
  intros a w h Ha. unfold DICOMViewerApp.display_size.
  set (fw := w - 20). set (fh := h - 20).
  destruct (Z.ltb_spec 0 fw) as [Hfw|Hfw]; cbn [andb];
    [|eexists; split; [reflexivity|discriminate]].
  destruct (Z.ltb_spec 0 fh) as [Hfh|Hfh];
    [|eexists; split; [reflexivity|discriminate]].
  assert (Qfh : (0 < inject_Z fh)%Q)
    by (change 0%Q with (inject_Z 0); rewrite <- Zlt_Qlt; exact Hfh).
  assert (Qfw : (0 < inject_Z fw)%Q)
    by (change 0%Q with (inject_Z 0); rewrite <- Zlt_Qlt; exact Hfw).
  rewrite (py_div_pos _ _ Qfh). cbn [bind].
  destruct (Qltb a (inject_Z fw / inject_Z fh)) eqn:E; cbn [bind fst snd].
  - apply Qltb_lt in E. apply (Qlt_div_mult _ _ _ Qfh) in E.
    assert (Hnn : (0 <= inject_Z fh * a)%Q).
    { apply Qmult_le_0_compat; apply Qlt_le_weak; assumption. }
    assert (Hle : py_int (inject_Z fh * a) < fw).
    { rewrite Zlt_Qlt. eapply Qle_lt_trans; [apply py_int_le; exact Hnn|].
      rewrite Qmult_comm. exact E. }
    destruct (Z.ltb_spec 0 (py_int (inject_Z fh * a))) as [Hpos|Hpos]; cbn [andb].
    + destruct (Z.ltb_spec 0 fh) as [_|Hc]; [|lia].
      eexists. split; [reflexivity|].
      intros tw th Hr. injection Hr as <- <-. lia.
    + eexists. split; [reflexivity|discriminate].
  - apply Qltb_ge in E. apply (Qle_div_mult _ _ _ Qfh) in E.
    rewrite (py_div_pos _ _ Ha). cbn [bind fst snd].
    assert (Hnn : (0 <= inject_Z fw / a)%Q).
    { apply Qle_shift_div_l; [exact Ha|].
      setoid_replace (0 * a)%Q with 0%Q by ring. apply Qlt_le_weak. exact Qfw. }
    assert (Hle : py_int (inject_Z fw / a) <= fh).
    { rewrite Zle_Qle. eapply Qle_trans; [apply py_int_le; exact Hnn|].
      apply Qle_shift_div_r; [exact Ha|]. rewrite Qmult_comm. exact E. }
    destruct (Z.ltb_spec 0 fw) as [_|Hc]; [|lia]. cbn [andb].
    destruct (Z.ltb_spec 0 (py_int (inject_Z fw / a))) as [Hpos|Hpos].
    + eexists. split; [reflexivity|].
      intros tw th Hr. injection Hr as <- <-. lia.
    + eexists. split; [reflexivity|discriminate].
Qed.

Lemma display_size_fits_frame_witness :
  exists r,
    DICOMViewerApp.display_size 0.5 820 520 = Ok r
    /\ forall target_width target_height,
         r = Some (target_width, target_height) ->
         0 < target_width <= 820 - 20
         /\ 0 < target_height <= 520 - 20
         /\ (target_width = 820 - 20 \/ target_height = 520 - 20).
Proof.
  apply (display_size_fits_frame 0.5 820 520). reflexivity.
Defined.

(** A frame of 800 by 500 after the margin and an aspect ratio of 0.5:
    the image is shown 250 wide and 500 high. *)
Example scenario_display_size :
  DICOMViewerApp.display_size 0.5 820 520 = Ok (Some (250, 500)).
Proof. reflexivity. Qed.
